(** * prompt-as-code: the orchestration and validation engine of
    [harness/runner.ts] and [harness/llm-client.ts], the reporters of
    [harness/reporter.ts] and the [run] command of [harness/cli.ts],
    embedded in Rocq.

    JavaScript strings are modelled as sequences of 8-bit code units (the
    range U+0000..U+00FF), written [jsstring]; [str "..."] turns a literal
    into one.  Optional fields are [option]s, thrown values are explicit
    ([Result]), and the effects of the runner (clock readings, calls to the
    chat-completion service, console output) are threaded through a small
    monad of its own. *)

From Stdlib Require Import ZArith NArith QArith Qcanon Ascii String.
From Stdlib Require DecimalString.
From stdpp Require Import base list strings gmap numbers.

Set Default Proof Using "Type".
Open Scope list_scope.

(* ===================================================================== *)
(** * Strings                                                             *)
(* ===================================================================== *)

Abbreviation jsstring := (list ascii).

Definition str (s : string) : jsstring := list_ascii_of_string s.

(** [String.prototype.toLowerCase] on code units below 256: the letters
    A..Z and the Latin-1 capitals U+00C0..U+00DE (without the
    multiplication sign U+00D7) move up by 32, everything else stays. *)
Definition lower_char (c : ascii) : ascii :=
  let n := N_of_ascii c in
  if ((65 <=? n) && (n <=? 90) ||
      (192 <=? n) && (n <=? 222) && negb (n =? 215))%N
  then ascii_of_N (n + 32)
  else c.

Definition toLowerCase (s : jsstring) : jsstring := map lower_char s.

(** [s.startsWith(t)] *)
Fixpoint startsWith (s t : jsstring) {struct t} : bool :=
  match t, s with
  | [], _ => true
  | _ :: _, [] => false
  | b :: t', a :: s' => if decide (a = b) then startsWith s' t' else false
  end.

(** [s.endsWith(t)] *)
Definition endsWith (s t : jsstring) : bool := startsWith (rev s) (rev t).

(** [s.includes(t)]: [t] occurs in [s] at some index. *)
Fixpoint includes (s t : jsstring) : bool :=
  startsWith s t ||
  match s with
  | [] => false
  | _ :: s' => includes s' t
  end.

(* ===================================================================== *)
(** * Data model ([harness/types.ts])                                     *)
(* ===================================================================== *)

(** Scalar values of a test case's [input] map.  The numbers modelled are
    the integers whose string form is their decimal numeral (below 10^21 in
    magnitude). *)
Inductive JsValue :=
| VStr (s : jsstring)
| VNum (n : Z)
| VBool (b : bool).

(** [version] and [description] are declared as strings but never read or
    checked; a loaded prompt need not carry them. *)
Record PromptConfig := {
  name : jsstring;
  version : option jsstring;
  description : option jsstring;
  template : jsstring;
  model : option jsstring;
  temperature : option Qc;
  max_tokens : option Z
}.

Record Assertions := {
  should_contain : option (list jsstring);
  should_not_contain : option (list jsstring)
}.

(** [input] is kept in the order in which [Object.entries] lists it. *)
Record TestCase := {
  tc_name : jsstring;
  input : list (jsstring * JsValue);
  assertions : Assertions
}.

Record SampleData := {
  prompt_name : option jsstring;
  test_cases : list TestCase
}.

Record AssertionResult := {
  assertion : jsstring;
  passed : bool;
  found_in_response : option bool
}.

Record AssertionsChecked := {
  checked_should_contain : list AssertionResult;
  checked_should_not_contain : list AssertionResult
}.

Record TestResult := {
  r_prompt_name : jsstring;
  test_case_name : jsstring;
  model_used : jsstring;
  r_passed : bool;
  response : jsstring;
  assertions_checked : AssertionsChecked;
  execution_time_ms : Z;
  error : option jsstring
}.

(* ===================================================================== *)
(** * Assertion validation                                                *)
(* ===================================================================== *)

(** The body of the first loop of [runAssertions]. *)
Definition check_should_contain (response : jsstring) (a : jsstring)
  : AssertionResult :=
  let found := includes (toLowerCase response) (toLowerCase a) in
  {| assertion := a; passed := found; found_in_response := Some found |}.

(** The body of the second loop of [runAssertions]. *)
Definition check_should_not_contain (response : jsstring) (a : jsstring)
  : AssertionResult :=
  let found := includes (toLowerCase response) (toLowerCase a) in
  {| assertion := a; passed := negb found; found_in_response := Some found |}.

(** [for (const x of xs) acc.push(f x)] *)
Definition push_each {A B} (f : A -> B) (xs : list A) (acc : list B) : list B :=
  fold_left (fun acc x => acc ++ [f x]) xs acc.

Definition runAssertions (response : jsstring) (a : Assertions)
  : AssertionsChecked :=
  let results_sc := [] in
  let results_snc := [] in
  let results_sc :=
    match should_contain a with
    | Some l => push_each (check_should_contain response) l results_sc
    | None => results_sc
    end in
  let results_snc :=
    match should_not_contain a with
    | Some l => push_each (check_should_not_contain response) l results_snc
    | None => results_snc
    end in
  {| checked_should_contain := results_sc;
     checked_should_not_contain := results_snc |}.

(** [xs.every(a => a.passed)] *)
Definition every_passed (xs : list AssertionResult) : bool := forallb passed xs.

Definition allAssertionsPassed (r : AssertionsChecked) : bool :=
  let allShouldContainPassed := every_passed (checked_should_contain r) in
  let allShouldNotContainPassed := every_passed (checked_should_not_contain r) in
  allShouldContainPassed && allShouldNotContainPassed.

(* ===================================================================== *)
(** * Regular expressions                                                 *)
(* ===================================================================== *)

(** [processTemplate] builds [new RegExp("{{" + key + "}}", "g")] from the
    key as it stands, so the key is read as pattern source.  The fragment of
    the pattern language modelled here is: ordinary characters, [.], and
    the quantifiers [*], [+], [?], [{n}], [{n,}], [{n,m}], each optionally
    followed by [?] (lazy).  Without the [u] flag a brace that does not
    open a well-formed quantifier is an ordinary character.  A pattern that
    uses a group, a class, an alternation, an escape or an anchor is
    outside the fragment ([Beyond]); its behaviour is left to the
    environment. *)

Inductive Atom :=
| AChar (c : ascii)          (* that character *)
| ADot                       (* any character but a line terminator *)
| ANotChar (c : ascii).      (* the class [^c] *)

Record Term := {
  atom : Atom;
  qmin : nat;
  qmax : option nat;         (* [None]: unbounded *)
  greedy : bool
}.

Abbreviation Regex := (list Term).

Definition once (a : Atom) : Term :=
  {| atom := a; qmin := 1; qmax := Some 1; greedy := true |}.

Definition is_line_terminator (c : ascii) : bool :=
  (c =? "010")%char || (c =? "013")%char.

Definition atom_matches (a : Atom) (c : ascii) : bool :=
  match a with
  | AChar x => (c =? x)%char
  | ADot => negb (is_line_terminator c)
  | ANotChar x => negb (c =? x)%char
  end.

Definition may_repeat (max : option nat) : bool :=
  match max with
  | Some O => false
  | _ => true
  end.

Definition first_of {A} (x y : option A) : option A :=
  match x with
  | Some _ => x
  | None => y
  end.

(** The repeat matcher of one quantified atom followed by the continuation
    [cont]; the result is the number of characters matched.  A greedy
    quantifier tries one more repetition before the continuation, a lazy
    one the continuation first. *)
Fixpoint repeat_match (a : Atom) (g : bool) (cont : jsstring -> option nat)
    (min : nat) (max : option nat) (s : jsstring) {struct s} : option nat :=
  let more :=
    match s with
    | c :: s' =>
        if may_repeat max && atom_matches a c
        then S <$> repeat_match a g cont (pred min) (pred <$> max) s'
        else None
    | [] => None
    end in
  let stop :=
    match min with
    | O => cont s
    | S _ => None
    end in
  if g then first_of more stop else first_of stop more.

(** Matching a pattern at the start of [s]. *)
Fixpoint match_here (r : Regex) (s : jsstring) : option nat :=
  match r with
  | [] => Some 0
  | t :: r' => repeat_match (atom t) (greedy t) (match_here r') (qmin t) (qmax t) s
  end.

(** ** Pattern source to pattern *)

Definition is_digit (c : ascii) : bool :=
  let n := N_of_ascii c in (48 <=? n)%N && (n <=? 57)%N.

Definition digit_value (c : ascii) : nat := N.to_nat (N_of_ascii c) - 48.

Fixpoint span_digits (s : jsstring) : jsstring * jsstring :=
  match s with
  | c :: s' =>
      if is_digit c
      then let (d, r) := span_digits s' in (c :: d, r)
      else ([], s)
  | [] => ([], [])
  end.

Definition decimal (ds : jsstring) : nat :=
  fold_left (fun n c => 10 * n + digit_value c) ds 0.

Definition head_is (c : ascii) (s : jsstring) : bool :=
  match s with
  | x :: _ => (x =? c)%char
  | [] => false
  end.

(** A well-formed [{n}], [{n,}] or [{n,m}] at the start of [s]: its bounds
    and its length in characters. *)
Definition braced_quantifier (s : jsstring) : option (nat * option nat * nat) :=
  if head_is "{" s then
    let (d1, r1) := span_digits (tail s) in
    if bool_decide (d1 = []) then None
    else if head_is "}" r1 then
      Some (decimal d1, Some (decimal d1), 2 + length d1)
    else if head_is "," r1 then
      let (d2, r2) := span_digits (tail r1) in
      if head_is "}" r2 then
        Some (decimal d1,
              if bool_decide (d2 = []) then None else Some (decimal d2),
              3 + length d1 + length d2)
      else None
    else None
  else None.

Definition quantifier_prefix (s : jsstring) : option (nat * option nat * nat) :=
  if head_is "*" s then Some (0, None, 1)
  else if head_is "+" s then Some (1, None, 1)
  else if head_is "?" s then Some (0, Some 1, 1)
  else braced_quantifier s.

Definition out_of_order (lo : nat) (hi : option nat) : bool :=
  match hi with
  | Some h => h <? lo
  | None => false
  end.

Inductive AtomClass :=
| IsAtom (a : Atom)
| Invalid                    (* a SyntaxError *)
| NotModelled.

Definition classify (s : jsstring) : AtomClass :=
  if head_is "*" s || head_is "+" s || head_is "?" s || head_is ")" s then Invalid
  else if head_is "{" s then
    match braced_quantifier s with
    | Some _ => Invalid
    | None => IsAtom (AChar "{")
    end
  else if head_is "." s then IsAtom ADot
  else if head_is "(" s || head_is "[" s || head_is "|" s
          || head_is "\" s || head_is "^" s || head_is "$" s then NotModelled
  else match s with
       | c :: _ => IsAtom (AChar c)
       | [] => NotModelled
       end.

Inductive Parsed :=
| Fragment (r : Regex)
| Rejected                   (* [new RegExp] throws a SyntaxError *)
| Beyond.                    (* outside the modelled fragment *)

Definition cons_term (t : Term) (p : Parsed) : Parsed :=
  match p with
  | Fragment r => Fragment (t :: r)
  | _ => p
  end.

(** Left to right, one term at a time; [skip] counts the characters of the
    quantifier just read. *)
Fixpoint parse_pattern (skip : nat) (s : jsstring) : Parsed :=
  match s with
  | [] => Fragment []
  | _ :: rest =>
      match skip with
      | S k => parse_pattern k rest
      | O =>
          match classify s with
          | Invalid => Rejected
          | NotModelled => Beyond
          | IsAtom a =>
              match quantifier_prefix rest with
              | None => cons_term (once a) (parse_pattern 0 rest)
              | Some (lo, hi, used) =>
                  if out_of_order lo hi then Rejected
                  else
                    let lazy := head_is "?" (drop used rest) in
                    cons_term
                      {| atom := a; qmin := lo; qmax := hi; greedy := negb lazy |}
                      (parse_pattern (used + if lazy then 1 else 0) rest)
              end
          end
      end
  end.

(** ** Replacement text *)

(** [GetSubstitution] for a pattern without capture groups: [$$] is a
    dollar sign, [$&] the match, [$`] the text before it, [$'] the text
    after it; any other [$] stands for itself. *)
Fixpoint GetSubstitution (matched before after : jsstring) (tpl : jsstring)
  : jsstring :=
  match tpl with
  | [] => []
  | c :: t =>
      if (c =? "$")%char then
        match t with
        | d :: t' =>
            if (d =? "$")%char then "$"%char :: GetSubstitution matched before after t'
            else if (d =? "&")%char then matched ++ GetSubstitution matched before after t'
            else if (d =? "`")%char then before ++ GetSubstitution matched before after t'
            else if (d =? "'")%char then after ++ GetSubstitution matched before after t'
            else c :: GetSubstitution matched before after t
        | [] => [c]
        end
      else c :: GetSubstitution matched before after t
  end.

(** [s.replace(pat, rep)] for a string [pat]: the first occurrence only. *)
Fixpoint replace_first (pat rep : jsstring) (before : jsstring) (s : jsstring)
  : jsstring :=
  if startsWith s pat then
    GetSubstitution pat before (drop (length pat) s) rep ++ drop (length pat) s
  else
    match s with
    | [] => []
    | c :: s' => c :: replace_first pat rep (before ++ [c]) s'
    end.

(** [s.replace(r, rep)] for a global pattern: matches are looked for from
    left to right, each search starting where the previous match ended (one
    character further after an empty match).  [before] is the text already
    passed, [skip] the number of characters of the current match still to
    pass. *)
Fixpoint replace_global (r : Regex) (rep : jsstring)
    (skip : nat) (before : jsstring) (s : jsstring) : jsstring :=
  match skip, s with
  | S k, c :: s' => replace_global r rep k (before ++ [c]) s'
  | S _, [] => []
  | O, _ =>
      match match_here r s with
      | Some n =>
          GetSubstitution (take n s) before (drop n s) rep ++
          match s with
          | [] => []
          | c :: s' =>
              match n with
              | O => c :: replace_global r rep 0 (before ++ [c]) s'
              | S k => replace_global r rep k (before ++ [c]) s'
              end
          end
      | None =>
          match s with
          | [] => []
          | c :: s' => c :: replace_global r rep 0 (before ++ [c]) s'
          end
      end
  end.

(** [s.match(r)] for a global pattern: the matched substrings in order
    (the empty list stands for [null]). *)
Fixpoint match_global (r : Regex) (skip : nat) (s : jsstring) : list jsstring :=
  match skip, s with
  | S k, _ :: s' => match_global r k s'
  | S _, [] => []
  | O, _ =>
      match match_here r s with
      | Some n =>
          take n s ::
          match s with
          | [] => []
          | _ :: s' => match_global r (pred n) s'
          end
      | None =>
          match s with
          | [] => []
          | _ :: s' => match_global r 0 s'
          end
      end
  end.

(** The pattern [/\{\{[^}]+\}\}/g] of [processTemplate]. *)
Definition unsubstituted_re : Regex :=
  [ once (AChar "{"); once (AChar "{");
    {| atom := ANotChar "}"; qmin := 1; qmax := None; greedy := true |};
    once (AChar "}"); once (AChar "}") ].

(* ===================================================================== *)
(** * Effects                                                             *)
(* ===================================================================== *)

(** What a [throw] carries: an [Error] object with its message, or some
    other value, kept as the text [String(value)]. *)
Inductive Thrown :=
| ErrorObject (message : jsstring)
| OtherValue (text : jsstring).

(** [error instanceof Error ? error.message : String(error)] *)
Definition thrown_message (e : Thrown) : jsstring :=
  match e with
  | ErrorObject m => m
  | OtherValue t => t
  end.

Inductive Result (A : Type) :=
| Ok (a : A)
| Throw (e : Thrown).
Arguments Ok {A} a.
Arguments Throw {A} e.

(** The request sent to [openai.chat.completions.create]: one user message
    with [content], and the generation parameters. *)
Record ChatRequest := {
  rq_model : jsstring;
  rq_content : jsstring;
  rq_temperature : Qc;
  rq_max_tokens : Z
}.

(** A YAML document read as a prompt: any field may be missing.  (A file
    that cannot be read or parsed, or that holds no object at all, makes the
    loader's [try] block throw: that is [read_yaml] answering [Throw].) *)
Record YamlPrompt := {
  y_name : option jsstring;
  y_version : option jsstring;
  y_description : option jsstring;
  y_template : option jsstring;
  y_model : option jsstring;
  y_temperature : option Qc;
  y_max_tokens : option Z
}.

(** A JSON document read as samples: a bare array of test cases, or an
    object of the shape [SampleData]. *)
Inductive JsonSamples :=
| JArray (cases : list TestCase)
| JObject (data : SampleData).

(** Lines written to the console, and the call of the reporter. *)
Inductive Event :=
| LogStarting
| WarnNoPairs
| LogFound (n : nat)
| LogTotalTime (ms : Z)
| ErrorFatal (msg : jsstring)
| WarnInvalidPrompt (file : jsstring)
| LogLoadedPrompt (nm file : jsstring)
| WarnPromptFile (file msg : jsstring)
| LogLoadedSamples (n : nat) (nm file : jsstring)
| WarnSampleFile (file msg : jsstring)
| WarnNoSamples (nm : jsstring)
| LogExecuting (nm : jsstring)
| LogCase (ok : bool) (nm : jsstring) (ms : Z)
| LogCaseError (nm msg : jsstring)
| WarnUnsubstituted (found : list jsstring)
| Reported (results : list TestResult).

(** The world outside the runner.  The clock and the chat-completion
    service answer by the number of the call, so that they may answer
    differently each time; the file system does not change during a run. *)
Record Env := {
  date_now : nat -> Z;
  chat_create : nat -> ChatRequest -> Result (option jsstring);
  regexp_beyond : jsstring -> jsstring -> jsstring -> Result jsstring;
  regexp_error_text : jsstring -> jsstring;
  existsSync : jsstring -> bool;
  readdirSync : jsstring -> Result (list jsstring);
  path_join : jsstring -> jsstring -> jsstring;
  path_basename : jsstring -> jsstring -> jsstring;
  read_yaml : jsstring -> Result YamlPrompt;
  read_json : jsstring -> Result JsonSamples
}.

(** How many times the clock and the service have been called. *)
Record World := {
  ticks : nat;
  calls : nat
}.

Definition M (A : Type) : Type := World -> Result A * World * list Event.

Definition ret {A} (a : A) : M A := fun w => (Ok a, w, []).

Definition bind {A B} (m : M A) (k : A -> M B) : M B :=
  fun w =>
    match m w with
    | (Ok a, w1, out1) =>
        let '(rb, w2, out2) := k a w1 in (rb, w2, out1 ++ out2)
    | (Throw e, w1, out1) => (Throw e, w1, out1)
    end.

Definition throw {A} (e : Thrown) : M A := fun w => (Throw e, w, []).

(** [try { body } catch (error) { handler error }] *)
Definition try_catch {A} (body : M A) (handler : Thrown -> M A) : M A :=
  fun w =>
    match body w with
    | (Ok a, w1, out1) => (Ok a, w1, out1)
    | (Throw e, w1, out1) =>
        let '(ra, w2, out2) := handler e w1 in (ra, w2, out1 ++ out2)
    end.

Definition emit (e : Event) : M unit := fun w => (Ok tt, w, [e]).

Definition lift {A} (r : Result A) : M A := fun w => (r, w, []).

Notation "x <- m ;; k" := (bind m (fun x => k))
  (at level 100, m at next level, right associativity).
Notation "m ;; k" := (bind m (fun _ => k))
  (at level 100, right associativity).

(** [for (const x of xs) { body }], where the body updates the local
    state [acc]. *)
Fixpoint for_of {A S} (xs : list A) (body : S -> A -> M S) (acc : S) : M S :=
  match xs with
  | [] => ret acc
  | x :: xs' => acc' <- body acc x ;; for_of xs' body acc'
  end.

Definition value {A} (o : Result A * World * list Event) : Result A := o.1.1.
Definition world {A} (o : Result A * World * list Event) : World := o.1.2.
Definition output {A} (o : Result A * World * list Event) : list Event := o.2.

(** ** Truthiness *)

(** [a || b] on optional strings: the empty string counts as absent. *)
Definition str_or (a : option jsstring) (b : jsstring) : jsstring :=
  match a with
  | Some (c :: s) => c :: s
  | _ => b
  end.

(** [!a] on an optional string. *)
Definition str_falsy (a : option jsstring) : bool :=
  match a with
  | Some (_ :: _) => false
  | _ => true
  end.

(** [a || b] on optional numbers: zero counts as absent. *)
Definition Qc_or (a : option Qc) (b : Qc) : Qc :=
  match a with
  | Some q => if decide (q = 0%Qc) then b else q
  | None => b
  end.

Definition Z_or (a : option Z) (b : Z) : Z :=
  match a with
  | Some z => if decide (z = 0%Z) then b else z
  | None => b
  end.

Section Runner.

Context (env : Env).

(** [Date.now()] *)
Definition Date_now : M Z :=
  fun w => (Ok (date_now env (ticks w)),
            {| ticks := S (ticks w); calls := calls w |}, []).

(** [await this.openai.chat.completions.create(rq)], then
    [response.choices[0]?.message?.content]. *)
Definition create_completion (rq : ChatRequest) : M (option jsstring) :=
  fun w => (chat_create env (calls w) rq,
            {| ticks := ticks w; calls := S (calls w) |}, []).

(* ===================================================================== *)
(** * [LLMClient.executePrompt]                                           *)
(* ===================================================================== *)

Definition default_model : jsstring := str "gpt-3.5-turbo".

Definition executePrompt (promptText : jsstring) (config : PromptConfig)
    (modelOverride : option jsstring) : M jsstring :=
  try_catch
    (let model_ := str_or modelOverride (str_or (model config) default_model) in
     content <- create_completion
       {| rq_model := model_;
          rq_content := promptText;
          rq_temperature := Qc_or (temperature config) (Q2Qc (1 # 10));
          rq_max_tokens := Z_or (max_tokens config) 500 |} ;;
     ret (str_or content []))
    (fun error =>
       throw (ErrorObject (str "OpenAI API error: " ++ thrown_message error))).

(* ===================================================================== *)
(** * [PromptRunner]                                                      *)
(* ===================================================================== *)

Record RunnerConfig := {
  promptDir : jsstring;
  samplesDir : jsstring;
  modelOverride : option jsstring;
  filter : option jsstring
}.

Context (config : RunnerConfig).

(** ** Template processing *)

Definition decimal_of_Z (n : Z) : jsstring :=
  str (DecimalString.NilZero.string_of_int (Z.to_int n)).

(** [String(value)] *)
Definition String_of (v : JsValue) : jsstring :=
  match v with
  | VStr s => s
  | VNum n => decimal_of_Z n
  | VBool true => str "true"
  | VBool false => str "false"
  end.

Definition placeholder_of (key : jsstring) : jsstring :=
  str "{{" ++ key ++ str "}}".

(** [processed.replace(new RegExp(source, 'g'), rep)] *)
Definition replace_RegExp_g (source rep processed : jsstring) : M jsstring :=
  match parse_pattern 0 source with
  | Fragment r => ret (replace_global r rep 0 [] processed)
  | Rejected => throw (ErrorObject (regexp_error_text env source))
  | Beyond => lift (regexp_beyond env source rep processed)
  end.

Definition processTemplate (template_ : jsstring)
    (variables : list (jsstring * JsValue)) : M jsstring :=
  processed <- for_of variables
    (fun processed kv =>
       let placeholder := placeholder_of kv.1 in
       replace_RegExp_g placeholder (String_of kv.2) processed)
    template_ ;;
  let unsubstituted := match_global unsubstituted_re 0 processed in
  match unsubstituted with
  | [] => ret tt
  | _ :: _ => emit (WarnUnsubstituted unsubstituted)
  end ;;
  ret processed.

(** ** Test execution *)

Record Pair := {
  prompt : PromptConfig;
  samples : SampleData
}.

(** The body of the loop of [executeTestPair]: one test case. *)
Definition execute_case (prompt_ : PromptConfig) (results : list TestResult)
    (testCase : TestCase) : M (list TestResult) :=
  startTime <- Date_now ;;
  try_catch
    (processedPrompt <- processTemplate (template prompt_) (input testCase) ;;
     response_ <- executePrompt processedPrompt prompt_ (modelOverride config) ;;
     let assertionResults := runAssertions response_ (assertions testCase) in
     let passed_ := allAssertionsPassed assertionResults in
     endTime <- Date_now ;;
     let result :=
       {| r_prompt_name := name prompt_;
          test_case_name := tc_name testCase;
          model_used :=
            str_or (modelOverride config) (str_or (model prompt_) default_model);
          r_passed := passed_;
          response := response_;
          assertions_checked := assertionResults;
          execution_time_ms := (endTime - startTime)%Z;
          error := None |} in
     let results := results ++ [result] in
     emit (LogCase passed_ (tc_name testCase) (execution_time_ms result)) ;;
     ret results)
    (fun error_ =>
       endTime <- Date_now ;;
       let result :=
         {| r_prompt_name := name prompt_;
            test_case_name := tc_name testCase;
            model_used :=
              str_or (modelOverride config) (str_or (model prompt_) default_model);
            r_passed := false;
            response := [];
            assertions_checked :=
              {| checked_should_contain := [];
                 checked_should_not_contain := [] |};
            execution_time_ms := (endTime - startTime)%Z;
            error := Some (thrown_message error_) |} in
       let results := results ++ [result] in
       emit (LogCaseError (tc_name testCase) (thrown_message error_)) ;;
       ret results).

Definition executeTestPair (pair : Pair) : M (list TestResult) :=
  let prompt_ := prompt pair in
  let samples_ := samples pair in
  emit (LogExecuting (name prompt_)) ;;
  for_of (test_cases samples_) (execute_case prompt_) [].

(** ** Matching *)

(** [this.config.filter && prompt.name !== this.config.filter] *)
Definition filtered_out (prompt_ : PromptConfig) : bool :=
  match filter config with
  | Some (c :: f) => bool_decide (name prompt_ <> c :: f)
  | _ => false
  end.

Definition matchPromptsWithSamples (prompts : list PromptConfig)
    (samples_ : gmap jsstring SampleData) : M (list Pair) :=
  for_of prompts
    (fun pairs prompt_ =>
       if filtered_out prompt_ then ret pairs
       else
         match samples_ !! name prompt_ with
         | Some sampleData =>
             ret (pairs ++ [{| prompt := prompt_; samples := sampleData |}])
         | None =>
             emit (WarnNoSamples (name prompt_)) ;;
             ret pairs
         end)
    [].

(** ** Loading *)

Definition loadPrompts : M (list PromptConfig) :=
  let promptsDir := promptDir config in
  if negb (existsSync env promptsDir) then
    throw (ErrorObject (str "Prompts directory not found: " ++ promptsDir))
  else
    entries <- lift (readdirSync env promptsDir) ;;
    let files :=
      List.filter
        (fun file => endsWith file (str ".yaml") || endsWith file (str ".yml"))
        entries in
    match files with
    | [] => throw (ErrorObject (str "No YAML files found in: " ++ promptsDir))
    | _ :: _ =>
        for_of files
          (fun prompts file =>
             try_catch
               (let filePath := path_join env promptsDir file in
                doc <- lift (read_yaml env filePath) ;;
                if str_falsy (y_name doc) || str_falsy (y_template doc) then
                  emit (WarnInvalidPrompt file) ;;
                  ret prompts
                else
                  let prompt_ :=
                    {| name := str_or (y_name doc) [];
                       version := y_version doc;
                       description := y_description doc;
                       template := str_or (y_template doc) [];
                       model := y_model doc;
                       temperature := y_temperature doc;
                       max_tokens := y_max_tokens doc |} in
                  emit (LogLoadedPrompt (name prompt_) file) ;;
                  ret (prompts ++ [prompt_]))
               (fun error_ =>
                  emit (WarnPromptFile file (thrown_message error_)) ;;
                  ret prompts))
          []
    end.

Definition loadSamples : M (gmap jsstring SampleData) :=
  let samplesDir_ := samplesDir config in
  if negb (existsSync env samplesDir_) then
    throw (ErrorObject (str "Samples directory not found: " ++ samplesDir_))
  else
    entries <- lift (readdirSync env samplesDir_) ;;
    let files := List.filter (fun file => endsWith file (str ".json")) entries in
    for_of files
      (fun (samplesMap : gmap jsstring SampleData) file =>
         try_catch
           (let filePath := path_join env samplesDir_ file in
            sampleData <- lift (read_json env filePath) ;;
            let samples_ :=
              match sampleData with
              | JArray cases => {| prompt_name := None; test_cases := cases |}
              | JObject data => data
              end in
            let promptName :=
              str_or (prompt_name samples_)
                (replace_first (str "_samples") [] []
                   (path_basename env file (str ".json"))) in
            let samplesMap := <[promptName := samples_]> samplesMap in
            emit (LogLoadedSamples (length (test_cases samples_)) promptName file) ;;
            ret samplesMap)
           (fun error_ =>
              emit (WarnSampleFile file (thrown_message error_)) ;;
              ret samplesMap))
      ∅.

(** ** The run *)

Definition run : M (list TestResult) :=
  startTime <- Date_now ;;
  emit LogStarting ;;
  try_catch
    (prompts <- loadPrompts ;;
     samples_ <- loadSamples ;;
     testPairs <- matchPromptsWithSamples prompts samples_ ;;
     match testPairs with
     | [] =>
         emit WarnNoPairs ;;
         ret []
     | _ :: _ =>
         emit (LogFound (length testPairs)) ;;
         results <- for_of testPairs
           (fun results pair =>
              testResults <- executeTestPair pair ;;
              ret (results ++ testResults))
           [] ;;
         emit (Reported results) ;;
         endTime <- Date_now ;;
         emit (LogTotalTime (endTime - startTime)%Z) ;;
         ret results
     end)
    (fun error_ =>
       emit (ErrorFatal (thrown_message error_)) ;;
       throw error_).

End Runner.

(* ===================================================================== *)
(** * Specification vocabulary                                            *)
(* ===================================================================== *)

(** [t] occurs in [s]: the containment that the spec speaks of. *)
Definition occurs (t s : jsstring) : Prop :=
  exists pre post, s = pre ++ t ++ post.

(** Case-insensitive containment, in the words of the spec: both strings
    are lower-cased before the containment check. *)
Definition contains_ci (response_ a : jsstring) : Prop :=
  occurs (toLowerCase a) (toLowerCase response_).

(** A missing list is treated as empty. *)
Definition listed (l : option (list jsstring)) : list jsstring := default [] l.

(** ** Templates *)

(** The pattern that matches the text [p] and nothing else. *)
Definition literal (p : jsstring) : Regex := map (fun c => once (AChar c)) p.

(** Characters that mean something in a pattern. *)
Definition regexp_special (c : ascii) : bool :=
  existsb (Ascii.eqb c) (str "*+?(){}[|\^$.").

(** A key free of such characters that does not start with a digit. *)
Definition plain_key (k : jsstring) : bool :=
  forallb (fun c => negb (regexp_special c)) k &&
  match k with
  | c :: _ => negb (is_digit c)
  | [] => true
  end.

Definition brace (c : ascii) : bool := (c =? "{")%char || (c =? "}")%char.

(** A value whose text is inserted as it stands and brings no brace:
    non-empty, and free of [$], [{] and [}]. *)
Definition inert_text (v : jsstring) : bool :=
  match v with
  | [] => false
  | _ :: _ => forallb (fun c => negb (brace c) && negb (c =? "$")%char) v
  end.

(** Textual substitution in the words of the spec: every occurrence of the
    token [tok], from left to right, is replaced by [v] as it stands. *)
Fixpoint substitute_token (tok v : jsstring) (skip : nat) (s : jsstring)
  : jsstring :=
  match skip, s with
  | S k, _ :: s' => substitute_token tok v k s'
  | S _, [] => []
  | O, [] => []
  | O, c :: s' =>
      if startsWith s tok
      then v ++ substitute_token tok v (pred (length tok)) s'
      else c :: substitute_token tok v 0 s'
  end.

Definition render_literally (template_ : jsstring)
    (variables : list (jsstring * JsValue)) : jsstring :=
  fold_left
    (fun processed kv =>
       substitute_token (placeholder_of kv.1) (String_of kv.2) 0 processed)
    variables template_.

(** An unresolved placeholder in [s]: a substring [{{w}}] with [w]
    non-empty and free of the closing brace. *)
Definition placeholder_in (w s : jsstring) : Prop :=
  w <> [] /\ ("}"%char ∉ w) /\ occurs (placeholder_of w) s.

Definition no_placeholder (s : jsstring) : Prop :=
  forall w, ~ placeholder_in w s.

(** The placeholders that start at each position of [s], read off the
    pattern [unsubstituted_re]. *)
Fixpoint placeholders_of (s : jsstring) : list jsstring :=
  match match_here unsubstituted_re s with
  | Some n => [take (n - 4) (drop 2 s)]
  | None => []
  end ++
  match s with
  | [] => []
  | _ :: s' => placeholders_of s'
  end.

Definition dollar_free (v : jsstring) : bool :=
  forallb (fun c => negb (c =? "$")%char) v.

Definition brace_free (v : jsstring) : bool :=
  forallb (fun c => negb (brace c)) v.

Definition keys_plain (variables : list (jsstring * JsValue)) : bool :=
  forallb (fun kv => plain_key kv.1) variables.

Definition values_inert (variables : list (jsstring * JsValue)) : bool :=
  forallb (fun kv => inert_text (String_of kv.2)) variables.

Definition values_dollar_free (variables : list (jsstring * JsValue)) : bool :=
  forallb (fun kv => dollar_free (String_of kv.2)) variables.

(** ** A concrete environment for examples *)

(** The clock advances by 7 ms per reading, the service echoes the prompt
    it is sent, and there are no files. *)
Definition echo_env : Env :=
  {| date_now := fun k => (1000 + 7 * Z.of_nat k)%Z;
     chat_create := fun _ rq => Ok (Some (rq_content rq));
     regexp_beyond := fun _ _ processed => Ok processed;
     regexp_error_text := fun source => str "Invalid regular expression: " ++ source;
     existsSync := fun _ => false;
     readdirSync := fun _ => Ok [];
     path_join := fun dir file => dir ++ str "/" ++ file;
     path_basename := fun file ext =>
       if endsWith file ext then take (length file - length ext) file else file;
     read_yaml := fun _ => Throw (ErrorObject (str "ENOENT"));
     read_json := fun _ => Throw (ErrorObject (str "ENOENT")) |}.

Definition start : World := {| ticks := 0; calls := 0 |}.

(** ** Execution *)

(** The result record of the [catch] branch of [executeTestPair]. *)
Definition failed_result (config : RunnerConfig) (prompt_ : PromptConfig)
    (testCase : TestCase) (ms : Z) (e : Thrown) : TestResult :=
  {| r_prompt_name := name prompt_;
     test_case_name := tc_name testCase;
     model_used :=
       str_or (modelOverride config) (str_or (model prompt_) default_model);
     r_passed := false;
     response := [];
     assertions_checked :=
       {| checked_should_contain := []; checked_should_not_contain := [] |};
     execution_time_ms := ms;
     error := Some (thrown_message e) |}.

(** The result record of the [try] branch. *)
Definition passed_result (config : RunnerConfig) (prompt_ : PromptConfig)
    (testCase : TestCase) (ms : Z) (response_ : jsstring) : TestResult :=
  {| r_prompt_name := name prompt_;
     test_case_name := tc_name testCase;
     model_used :=
       str_or (modelOverride config) (str_or (model prompt_) default_model);
     r_passed := allAssertionsPassed (runAssertions response_ (assertions testCase));
     response := response_;
     assertions_checked := runAssertions response_ (assertions testCase);
     execution_time_ms := ms;
     error := None |}.

(** One pass of the loop of [executeTestPair], flattened: the result it
    appends, the world it leaves and what it writes. *)
Definition case_outcome (env : Env) (config : RunnerConfig)
    (prompt_ : PromptConfig) (testCase : TestCase) (w : World)
  : TestResult * World * list Event :=
  let ms := (date_now env (S (ticks w)) - date_now env (ticks w))%Z in
  let w1 := {| ticks := S (ticks w); calls := calls w |} in
  match processTemplate env (template prompt_) (input testCase) w1 with
  | (Ok text, _, out) =>
      let w2 := {| ticks := S (S (ticks w)); calls := S (calls w) |} in
      match value (executePrompt env text prompt_ (modelOverride config) w1) with
      | Ok response_ =>
          let r := passed_result config prompt_ testCase ms response_ in
          (r, w2, out ++ [LogCase (r_passed r) (tc_name testCase) ms])
      | Throw e =>
          (failed_result config prompt_ testCase ms e, w2,
           out ++ [LogCaseError (tc_name testCase) (thrown_message e)])
      end
  | (Throw e, _, out) =>
      (failed_result config prompt_ testCase ms e,
       {| ticks := S (S (ticks w)); calls := calls w |},
       out ++ [LogCaseError (tc_name testCase) (thrown_message e)])
  end.

Fixpoint cases_outcome (env : Env) (config : RunnerConfig)
    (prompt_ : PromptConfig) (cases : list TestCase) (w : World)
  : list TestResult * World * list Event :=
  match cases with
  | [] => ([], w, [])
  | testCase :: cases' =>
      let '(r, w1, out1) := case_outcome env config prompt_ testCase w in
      let '(rs, w2, out2) := cases_outcome env config prompt_ cases' w1 in
      (r :: rs, w2, out1 ++ out2)
  end.

(** The loop "execute all tests" of [run]. *)
Definition execute_all (env : Env) (config : RunnerConfig) (testPairs : list Pair)
  : M (list TestResult) :=
  for_of testPairs
    (fun results pair =>
       testResults <- executeTestPair env config pair ;;
       ret (results ++ testResults))
    [].

(** Which test case of which prompt a result belongs to. *)
Definition label (r : TestResult) : jsstring * jsstring :=
  (r_prompt_name r, test_case_name r).

(** Pair order, then case order within the pair. *)
Definition labels_in_order (testPairs : list Pair) : list (jsstring * jsstring) :=
  flat_map
    (fun pair =>
       map (fun testCase => (name (prompt pair), tc_name testCase))
           (test_cases (samples pair)))
    testPairs.

(** The environment in which the [n]-th call of the service answers by
    [answer] instead. *)
Definition with_answer (env : Env) (n : nat)
    (answer : ChatRequest -> Result (option jsstring)) : Env :=
  {| date_now := date_now env;
     chat_create := fun k rq => if decide (k = n) then answer rq else chat_create env k rq;
     regexp_beyond := regexp_beyond env;
     regexp_error_text := regexp_error_text env;
     existsSync := existsSync env;
     readdirSync := readdirSync env;
     path_join := path_join env;
     path_basename := path_basename env;
     read_yaml := read_yaml env;
     read_json := read_json env |}.

(** ** Concrete prompts and cases for examples *)

Definition prompt_named (n t : string) : PromptConfig :=
  {| name := str n; version := None; description := None; template := str t;
     model := None; temperature := None; max_tokens := None |}.

Definition case_named (n : string) (inputs : list (string * string))
    (sc snc : list string) : TestCase :=
  {| tc_name := str n;
     input := map (fun kv => (str kv.1, VStr (str kv.2))) inputs;
     assertions := {| should_contain := Some (map str sc);
                      should_not_contain := Some (map str snc) |} |}.

Definition no_override : RunnerConfig :=
  {| promptDir := str "prompts"; samplesDir := str "samples";
     modelOverride := None; filter := None |}.

(** The second call of the service is refused. *)
Definition rate_limited_env : Env :=
  with_answer echo_env 1 (fun _ => Throw (ErrorObject (str "rate limit exceeded"))).

Definition capital_prompt : PromptConfig :=
  prompt_named "capital" "What is the capital of {{country}}?".

Definition case_france : TestCase :=
  case_named "france" [("country", "France")] ["france"] ["London"].
Definition case_spain : TestCase :=
  case_named "spain" [("country", "Spain")] ["spain"] [].
Definition case_peru : TestCase :=
  case_named "peru" [("country", "Peru")] ["PERU"] ["lima"].

Definition capital_pair : Pair :=
  {| prompt := capital_prompt;
     samples := {| prompt_name := None;
                   test_cases := [case_france; case_spain; case_peru] |} |}.

(** ** Matching, in the words of the spec *)

(** A prompt passes when no filter is in force or its name equals the
    filter exactly; an empty filter string is not in force. *)
Definition passes_filter (f : option jsstring) (p : PromptConfig) : bool :=
  match f with
  | Some (c :: f') => bool_decide (name p = c :: f')
  | _ => true
  end.

(** The pair a prompt contributes, if any. *)
Definition matched_pair (f : option jsstring) (samples_ : gmap jsstring SampleData)
    (p : PromptConfig) : option Pair :=
  if passes_filter f p
  then (fun s => {| prompt := p; samples := s |}) <$> samples_ !! name p
  else None.

(** The warning a prompt causes, if any. *)
Definition missing_warning (f : option jsstring)
    (samples_ : gmap jsstring SampleData) (p : PromptConfig) : list Event :=
  if passes_filter f p then
    match samples_ !! name p with
    | Some _ => []
    | None => [WarnNoSamples (name p)]
    end
  else [].

(** A prompt whose temperature and output length are set to zero. *)
Definition zero_prompt : PromptConfig :=
  {| name := str "capital"; version := None; description := None;
     template := str "What is the capital of {{country}}?";
     model := None; temperature := Some 0%Qc; max_tokens := Some 0%Z |}.

(** ** The run, stage by stage *)

(** The loop "execute all tests", flattened: the results of each pair, the
    world it leaves and what it writes. *)
Fixpoint pairs_outcome (env : Env) (config : RunnerConfig)
    (testPairs : list Pair) (w : World)
  : list (list TestResult) * World * list Event :=
  match testPairs with
  | [] => ([], w, [])
  | pr :: rest =>
      let '(rs, w1, out1) :=
        cases_outcome env config (prompt pr) (test_cases (samples pr)) w in
      let '(chunks, w2, out2) := pairs_outcome env config rest w1 in
      (rs :: chunks, w2, LogExecuting (name (prompt pr)) :: out1 ++ out2)
  end.

(** Lines written while loading. *)
Definition loading_event (ev : Event) : bool :=
  match ev with
  | WarnInvalidPrompt _ | LogLoadedPrompt _ _ | WarnPromptFile _ _
  | LogLoadedSamples _ _ _ | WarnSampleFile _ _ => true
  | _ => false
  end.

(** Lines written by the execution of a test case, and the report. *)
Definition execution_event (ev : Event) : bool :=
  match ev with
  | LogExecuting _ | LogCase _ _ _ | LogCaseError _ _
  | WarnUnsubstituted _ | Reported _ => true
  | _ => false
  end.

(** Nothing was executed or reported between [w] and the outcome [o]: the
    service was not called and no execution line was written. *)
Definition nothing_executed {A} (w : World)
    (o : Result A * World * list Event) : Prop :=
  calls (world o) = calls w /\
  Forall (fun ev => execution_event ev = false) (output o).

Definition is_yaml (file : jsstring) : bool :=
  endsWith file (str ".yaml") || endsWith file (str ".yml").

(** The file holds a prompt with a name and a template. *)
Definition valid_prompt_file (env : Env) (config : RunnerConfig)
    (file : jsstring) : bool :=
  match read_yaml env (path_join env (promptDir config) file) with
  | Ok doc => negb (str_falsy (y_name doc) || str_falsy (y_template doc))
  | Throw _ => false
  end.

(** One pass of the loop of [loadPrompts], flattened. *)
Definition prompt_file_outcome (env : Env) (config : RunnerConfig)
    (prompts : list PromptConfig) (file : jsstring)
  : list PromptConfig * list Event :=
  match read_yaml env (path_join env (promptDir config) file) with
  | Ok doc =>
      if str_falsy (y_name doc) || str_falsy (y_template doc)
      then (prompts, [WarnInvalidPrompt file])
      else
        (prompts ++
           [{| name := str_or (y_name doc) [];
               version := y_version doc;
               description := y_description doc;
               template := str_or (y_template doc) [];
               model := y_model doc;
               temperature := y_temperature doc;
               max_tokens := y_max_tokens doc |}],
         [LogLoadedPrompt (str_or (y_name doc) []) file])
  | Throw e => (prompts, [WarnPromptFile file (thrown_message e)])
  end.

Fixpoint prompt_files_outcome (env : Env) (config : RunnerConfig)
    (files : list jsstring) (prompts : list PromptConfig)
  : list PromptConfig * list Event :=
  match files with
  | [] => (prompts, [])
  | file :: files' =>
      let '(prompts1, out1) := prompt_file_outcome env config prompts file in
      let '(prompts2, out2) := prompt_files_outcome env config files' prompts1 in
      (prompts2, out1 ++ out2)
  end.

(** ** A concrete file system for examples *)

Definition yaml_of (p : PromptConfig) : YamlPrompt :=
  {| y_name := Some (name p); y_version := version p;
     y_description := description p; y_template := Some (template p);
     y_model := model p; y_temperature := temperature p;
     y_max_tokens := max_tokens p |}.

Definition greet_prompt : PromptConfig :=
  prompt_named "greet" "Say hello to {{who}}".

Definition case_ann : TestCase := case_named "ann" [("who", "Ann")] ["ann"] [].
Definition case_bob : TestCase := case_named "bob" [("who", "Bob")] ["bob"] ["ann"].

(** Two prompt files, a stray text file and a broken prompt file; two
    sample files, one an object naming its prompt and one a bare array. *)
Definition disk_env : Env :=
  {| date_now := date_now echo_env;
     chat_create := chat_create echo_env;
     regexp_beyond := regexp_beyond echo_env;
     regexp_error_text := regexp_error_text echo_env;
     existsSync := fun dir =>
       bool_decide (dir = str "prompts") || bool_decide (dir = str "samples");
     readdirSync := fun dir =>
       if bool_decide (dir = str "prompts") then
         Ok [str "capital.yaml"; str "notes.txt"; str "broken.yaml"; str "greet.yml"]
       else if bool_decide (dir = str "samples") then
         Ok [str "capital_samples.json"; str "hello.json"]
       else Throw (ErrorObject (str "ENOENT"));
     path_join := path_join echo_env;
     path_basename := path_basename echo_env;
     read_yaml := fun file =>
       if bool_decide (file = str "prompts/capital.yaml") then Ok (yaml_of capital_prompt)
       else if bool_decide (file = str "prompts/greet.yml") then Ok (yaml_of greet_prompt)
       else Throw (ErrorObject (str "bad indentation"));
     read_json := fun file =>
       if bool_decide (file = str "samples/capital_samples.json") then
         Ok (JArray [case_france; case_spain])
       else if bool_decide (file = str "samples/hello.json") then
         Ok (JObject {| prompt_name := Some (str "greet");
                        test_cases := [case_ann; case_bob] |})
       else Throw (ErrorObject (str "ENOENT")) |}.

(** Both directories exist, but the only prompt files are one that does
    not parse and one without a name. *)
Definition broken_env : Env :=
  {| date_now := date_now echo_env;
     chat_create := chat_create echo_env;
     regexp_beyond := regexp_beyond echo_env;
     regexp_error_text := regexp_error_text echo_env;
     existsSync := existsSync disk_env;
     readdirSync := fun dir =>
       if bool_decide (dir = str "prompts") then
         Ok [str "broken.yaml"; str "nameless.yml"]
       else readdirSync disk_env dir;
     path_join := path_join echo_env;
     path_basename := path_basename echo_env;
     read_yaml := fun file =>
       if bool_decide (file = str "prompts/nameless.yml") then
         Ok {| y_name := None; y_version := None; y_description := None;
               y_template := Some (str "Say hello to {{who}}");
               y_model := None; y_temperature := None; y_max_tokens := None |}
       else Throw (ErrorObject (str "bad indentation"));
     read_json := read_json disk_env |}.

(** The prompt directory exists but holds no YAML file. *)
Definition no_yaml_env : Env :=
  {| date_now := date_now echo_env;
     chat_create := chat_create echo_env;
     regexp_beyond := regexp_beyond echo_env;
     regexp_error_text := regexp_error_text echo_env;
     existsSync := existsSync disk_env;
     readdirSync := fun dir =>
       if bool_decide (dir = str "prompts") then Ok [str "notes.txt"]
       else readdirSync disk_env dir;
     path_join := path_join echo_env;
     path_basename := path_basename echo_env;
     read_yaml := read_yaml disk_env;
     read_json := read_json disk_env |}.

(** The prompts are there, the samples directory is not. *)
Definition no_samples_env : Env :=
  {| date_now := date_now echo_env;
     chat_create := chat_create echo_env;
     regexp_beyond := regexp_beyond echo_env;
     regexp_error_text := regexp_error_text echo_env;
     existsSync := fun dir => bool_decide (dir = str "prompts");
     readdirSync := readdirSync disk_env;
     path_join := path_join echo_env;
     path_basename := path_basename echo_env;
     read_yaml := read_yaml disk_env;
     read_json := read_json disk_env |}.

(* ===================================================================== *)
(** * Reporters ([harness/reporter.ts])                                   *)
(* ===================================================================== *)

(** The pass rate is computed in floating point and rounded by
    [toFixed(1)]; it is kept as the two counts it is computed from. *)
Inductive Percent :=
| PercentZero                          (* the literal [0] (or ['0']) *)
| PercentOf (passed_ total : nat).     (* [((passed / total) * 100).toFixed(1)] *)

(** What the console reporter writes, line by line. *)
Inductive ConsoleLine :=
| HeaderLine
| StatusLine (ok : bool) (prompt_name_ test_case_name_ : jsstring) (ms : Z)
| ModelLine (model_ : jsstring)
| FailedAssertionLine (assertion_ : jsstring)
| ErrorLine (msg : jsstring)
| BlankLine
| SummaryLine (passed_ total : nat) (passRate : Percent)
| AllPassedLine
| SomeFailedLine (failed_ : Z).

Record JsonSummary := {
  total_tests : nat;
  s_passed : nat;
  s_failed : Z;
  pass_rate : Percent;
  total_execution_time_ms : Z
}.

Record JsonReport := {
  summary : JsonSummary;
  results_ : list TestResult;
  timestamp : jsstring
}.

(** What a reporter prints. *)
Inductive ReportOutput :=
| ConsoleLines (lines : list ConsoleLine)
| JsonDocument (report_ : JsonReport).

(** The interface [Reporter]. *)
Record Reporter := { report : list TestResult -> ReportOutput }.

(** [results.filter(r => r.passed).length] *)
Definition count_passed (results : list TestResult) : nat :=
  length (List.filter r_passed results).

(** The failed assertions shown for a result. *)
Definition failedAssertions (result : TestResult) : list AssertionResult :=
  List.filter (fun a => negb (passed a))
    (checked_should_contain (assertions_checked result)) ++
  List.filter (fun a => negb (passed a))
    (checked_should_not_contain (assertions_checked result)).

(** The body of [results.forEach] in [ConsoleReporter.report]. *)
Definition result_lines (result : TestResult) : list ConsoleLine :=
  [StatusLine (r_passed result) (r_prompt_name result) (test_case_name result)
     (execution_time_ms result);
   ModelLine (model_used result)] ++
  (if negb (r_passed result)
   then map (fun a => FailedAssertionLine (assertion a)) (failedAssertions result)
   else []) ++
  (if str_falsy (error result) then [] else [ErrorLine (str_or (error result) [])]) ++
  [BlankLine].

Definition ConsoleReporter : Reporter :=
  {| report := fun results =>
       let passed_ := count_passed results in
       let total := length results in
       let passRate := if 0 <? total then PercentOf passed_ total else PercentZero in
       ConsoleLines
         ([HeaderLine] ++
          flat_map result_lines results ++
          [SummaryLine passed_ total passRate] ++
          [if passed_ =? total then AllPassedLine
           else SomeFailedLine (Z.of_nat total - Z.of_nat passed_)]) |}.

(** [now] is what [new Date().toISOString()] gives when the report is
    written. *)
Definition JsonReporter (now : jsstring) : Reporter :=
  {| report := fun results =>
       let passed_ := count_passed results in
       let total := length results in
       let totalTime :=
         fold_left (fun sum r => (sum + execution_time_ms r)%Z) results 0%Z in
       JsonDocument
         {| summary :=
              {| total_tests := total;
                 s_passed := passed_;
                 s_failed := (Z.of_nat total - Z.of_nat passed_)%Z;
                 pass_rate := if 0 <? total then PercentOf passed_ total
                              else PercentZero;
                 total_execution_time_ms := totalTime |};
            results_ := results;
            timestamp := now |} |}.

(* ===================================================================== *)
(** * Command line ([harness/cli.ts])                                     *)
(* ===================================================================== *)

(** The options of the [run] command as the argument parser hands them to
    the action, defaults applied. *)
Record Options := {
  o_promptDir : jsstring;
  o_samplesDir : jsstring;
  o_model : option jsstring;
  o_output : jsstring;
  o_filter : option jsstring;
  o_apiKey : option jsstring
}.

(** What the process writes: the runner's lines, the reporter's output in
    the place where the runner calls it, and the two error lines of the
    command line itself. *)
Inductive Printed :=
| FromRunner (ev : Event)
| FromReporter (out : ReportOutput)
| KeyRequired
| CliError (msg : jsstring).

Definition print_event (reporter : Reporter) (ev : Event) : Printed :=
  match ev with
  | Reported results => FromReporter (report reporter results)
  | _ => FromRunner ev
  end.

(** [a || b] on two optional strings. *)
Definition str_first (a b : option jsstring) : option jsstring :=
  if str_falsy a then b else a.

(** [results.some(r => !r.passed)] *)
Definition hasFailures (results : list TestResult) : bool :=
  existsb (fun r => negb (r_passed r)) results.

(** The action of the [run] command: the exit code, the world it leaves
    and what was written.  [OPENAI_API_KEY] is the environment variable. *)
Definition cli_action (env : Env) (now : jsstring) (options : Options)
    (OPENAI_API_KEY : option jsstring) (w : World) : Z * World * list Printed :=
  let apiKey := str_first (o_apiKey options) OPENAI_API_KEY in
  if str_falsy apiKey then (1%Z, w, [KeyRequired])
  else
    let reporter :=
      if bool_decide (o_output options = str "json")
      then JsonReporter now else ConsoleReporter in
    let config :=
      {| promptDir := o_promptDir options;
         samplesDir := o_samplesDir options;
         modelOverride := o_model options;
         filter := o_filter options |} in
    match run env config w with
    | (Ok results, w', out) =>
        ((if hasFailures results then 1 else 0)%Z, w', map (print_event reporter) out)
    | (Throw error_, w', out) =>
        (1%Z, w', map (print_event reporter) out ++ [CliError (thrown_message error_)])
    end.

(* ===================================================================== *)
(** * Further vocabulary                                                  *)
(* ===================================================================== *)

(** The result lists handed to the reporter, in order. *)
Definition reports (out : list Event) : list (list TestResult) :=
  omap (fun ev => match ev with Reported rs => Some rs | _ => None end) out.

(** The prompt a YAML file yields, if it yields one. *)
Definition loaded_prompt (env : Env) (config : RunnerConfig) (file : jsstring)
  : option PromptConfig :=
  match read_yaml env (path_join env (promptDir config) file) with
  | Ok doc =>
      if str_falsy (y_name doc) || str_falsy (y_template doc) then None
      else Some {| name := str_or (y_name doc) [];
                   version := y_version doc;
                   description := y_description doc;
                   template := str_or (y_template doc) [];
                   model := y_model doc;
                   temperature := y_temperature doc;
                   max_tokens := y_max_tokens doc |}
  | Throw _ => None
  end.


(** The name and the collection a JSON file yields, if it can be read. *)
Definition sample_entry (env : Env) (config : RunnerConfig) (file : jsstring)
  : option (jsstring * SampleData) :=
  match read_json env (path_join env (samplesDir config) file) with
  | Ok sampleData =>
      let samples_ :=
        match sampleData with
        | JArray cases => {| prompt_name := None; test_cases := cases |}
        | JObject data => data
        end in
      Some (str_or (prompt_name samples_)
              (replace_first (str "_samples") [] []
                 (path_basename env file (str ".json"))),
            samples_)
  | Throw _ => None
  end.

(** A result that records a thrown error. *)
Definition error_shape (r : TestResult) : Prop :=
  r_passed r = false /\ response r = [] /\
  assertions_checked r =
    {| checked_should_contain := []; checked_should_not_contain := [] |}.

(** A result is consistent with the case it comes from. *)
Definition consistent_with (tc : TestCase) (r : TestResult) : Prop :=
  test_case_name r = tc_name tc /\
  match error r with
  | Some _ => error_shape r
  | None =>
      assertions_checked r = runAssertions (response r) (assertions tc) /\
      r_passed r = allAssertionsPassed (assertions_checked r)
  end.


Definition default_options : Options :=
  {| o_promptDir := str "prompts"; o_samplesDir := str "samples";
     o_model := None; o_output := str "console"; o_filter := None;
     o_apiKey := Some (str "sk-test") |}.

(** The substitution loop of [processTemplate]. *)
Definition substitute_all (env : Env) (variables : list (jsstring * JsValue))
    (template_ : jsstring) : M jsstring :=
  for_of variables
    (fun processed kv =>
       replace_RegExp_g env (placeholder_of kv.1) (String_of kv.2) processed)
    template_.

(** What [processTemplate] writes for the rendered text [text]. *)
Definition placeholder_warning (text : jsstring) : list Event :=
  match match_global unsubstituted_re 0 text with
  | [] => []
  | found => [WarnUnsubstituted found]
  end.

(** The model name recorded in the results of a prompt. *)
Definition model_for (config : RunnerConfig) (p : PromptConfig) : jsstring :=
  str_or (modelOverride config) (str_or (model p) default_model).

(** The time measured for the [i]-th case of a pair started in [w]: the
    difference of the two clock readings of that pass of the loop. *)
Definition measured (env : Env) (w : World) (i : nat) : Z :=
  (date_now env (ticks w + 2 * i + 1) - date_now env (ticks w + 2 * i))%Z.

(** A service that is reachable but answers without content. *)
Definition silent_env : Env :=
  {| date_now := date_now echo_env;
     chat_create := fun _ _ => Ok None;
     regexp_beyond := regexp_beyond echo_env;
     regexp_error_text := regexp_error_text echo_env;
     existsSync := existsSync echo_env;
     readdirSync := readdirSync echo_env;
     path_join := path_join echo_env;
     path_basename := path_basename echo_env;
     read_yaml := read_yaml echo_env;
     read_json := read_json echo_env |}.

(** The request that [executePrompt] sends for the prompt [p] and the
    rendered text [text]. *)
Definition request_for (config : RunnerConfig) (p : PromptConfig)
    (text : jsstring) : ChatRequest :=
  {| rq_model := model_for config p;
     rq_content := text;
     rq_temperature := Qc_or (temperature p) (Q2Qc (1 # 10));
     rq_max_tokens := Z_or (max_tokens p) 500 |}.

(** The map after the sample file [file] has been handled. *)
Definition with_sample_file (env : Env) (config : RunnerConfig)
    (samplesMap : gmap jsstring SampleData) (file : jsstring)
  : gmap jsstring SampleData :=
  match sample_entry env config file with
  | Some (promptName, samples_) => <[promptName := samples_]> samplesMap
  | None => samplesMap
  end.

(** The configuration and the reporter that the command line builds from
    its options. *)
Definition runner_config (options : Options) : RunnerConfig :=
  {| promptDir := o_promptDir options;
     samplesDir := o_samplesDir options;
     modelOverride := o_model options;
     filter := o_filter options |}.

Definition reporter_for (now : jsstring) (options : Options) : Reporter :=
  if bool_decide (o_output options = str "json")
  then JsonReporter now else ConsoleReporter.

(** A console line that gives the reason of a failure. *)
Definition explains (line : ConsoleLine) : bool :=
  match line with
  | FailedAssertionLine _ | ErrorLine _ => true
  | _ => false
  end.

(** The sum of the measured times. *)
Definition summed_time (results : list TestResult) : Z :=
  fold_right Z.add 0%Z (map execution_time_ms results).

(* ===================================================================== *)
(** * Strings: lemmas                                                     *)
(* ===================================================================== *)

Lemma startsWith_spec (s t : jsstring) :
  startsWith s t = true <-> exists post, s = t ++ post.
Proof.
  revert s; induction t as [|b t IH]; intros s; simpl.
  - split; [intros _; by exists s | done].
  - destruct s as [|a s]; simpl.
    + split; [done | intros [post H]; discriminate].
    + destruct (decide (a = b)) as [->|Hne].
      * rewrite IH. split; intros [post H]; exists post; [by rewrite H | by injection H].
      * split; [done | intros [post H]; injection H; congruence].
Qed.

Lemma startsWith_app (t post : jsstring) : startsWith (t ++ post) t = true.
Proof. apply startsWith_spec. by exists post. Qed.

Lemma includes_spec (s t : jsstring) : includes s t = true <-> occurs t s.
Proof.
  induction s as [|c s IH]; simpl.
  - rewrite orb_false_r, startsWith_spec. split.
    + intros [post H]. by exists [], post.
    + intros (pre & post & H). destruct pre; [by exists post |]. discriminate.
  - rewrite orb_true_iff, IH, startsWith_spec. split.
    + intros [[post H] | (pre & post & H)].
      * by exists [], post.
      * exists (c :: pre), post. by rewrite H.
    + intros (pre & post & H). destruct pre as [|c' pre]; simpl in H.
      * left. by exists post.
      * right. exists pre, post. by injection H.
Qed.

Lemma includes_nil (s : jsstring) : includes s [] = true.
Proof. apply includes_spec. by exists [], s. Qed.

Lemma push_each_map {A B} (f : A -> B) (xs : list A) (acc : list B) :
  push_each f xs acc = acc ++ map f xs.
Proof.
  unfold push_each. revert acc; induction xs as [|x xs IH]; intros acc; simpl.
  - by rewrite app_nil_r.
  - by rewrite IH, <- app_assoc.
Qed.

(* ===================================================================== *)
(** * Assertion validation: theorems                                      *)
(* ===================================================================== *)

Lemma runAssertions_map (response_ : jsstring) (a : Assertions) :
  runAssertions response_ a =
  {| checked_should_contain :=
       map (check_should_contain response_) (listed (should_contain a));
     checked_should_not_contain :=
       map (check_should_not_contain response_) (listed (should_not_contain a)) |}.
Proof.
  unfold runAssertions, listed.
  destruct (should_contain a), (should_not_contain a); simpl;
    by rewrite ?push_each_map.
Qed.

(** C2.  Both strings are lower-cased before the containment check: the
    outcome for [a] in [should_contain] passes iff the lower-cased [a]
    occurs in the lower-cased response, the outcome for [a] in
    [should_not_contain] passes iff it was not found, and each outcome list
    follows its assertion list, element by element (order and duplicates
    kept). *)
Theorem runAssertions_case_insensitive_in_order
    (response_ : jsstring) (a : Assertions) :
  let out := runAssertions response_ a in
  checked_should_contain out =
    map (check_should_contain response_) (listed (should_contain a)) /\
  checked_should_not_contain out =
    map (check_should_not_contain response_) (listed (should_not_contain a)) /\
  map assertion (checked_should_contain out) = listed (should_contain a) /\
  map assertion (checked_should_not_contain out) = listed (should_not_contain a) /\
  (forall x : jsstring,
      let o := check_should_contain response_ x in
      assertion o = x /\
      found_in_response o = Some (passed o) /\
      (passed o = true <-> contains_ci response_ x)) /\
  (forall x : jsstring,
      let o := check_should_not_contain response_ x in
      assertion o = x /\
      (exists found, found_in_response o = Some found /\
                     passed o = negb found /\
                     (found = true <-> contains_ci response_ x)) /\
      (passed o = true <-> ~ contains_ci response_ x)).
Proof.
  cbv zeta. rewrite runAssertions_map; simpl.
  repeat split; try done.
  - rewrite map_map. simpl. apply map_id.
  - rewrite map_map. simpl. apply map_id.
  - apply includes_spec.
  - apply includes_spec.
  - eexists. split; [reflexivity|]. split; [reflexivity|]. apply includes_spec.
  - intros H Hc. apply includes_spec in Hc. by rewrite Hc in H.
  - intros H. destruct (includes _ _) eqn:E; [|done].
    exfalso. apply H. by apply includes_spec.
Qed.

Lemma lower_char_idempotent (c : ascii) : lower_char (lower_char c) = lower_char c.
Proof. destruct c as [[] [] [] [] [] [] [] []]; reflexivity. Qed.

(** Lower-casing twice is lower-casing once, so the check does not depend
    on the case in which the response or the assertion was written. *)
Lemma toLowerCase_idempotent (s : jsstring) :
  toLowerCase (toLowerCase s) = toLowerCase s.
Proof.
  unfold toLowerCase. rewrite map_map. apply map_ext. intros c.
  apply lower_char_idempotent.
Qed.

Lemma contains_ci_lower (response_ a : jsstring) :
  contains_ci (toLowerCase response_) (toLowerCase a) <-> contains_ci response_ a.
Proof. unfold contains_ci. by rewrite !toLowerCase_idempotent. Qed.

(** The scenario of the spec: response ["The capital is Paris"] against
    [should_contain: ["paris"]] and [should_not_contain: ["London"]]. *)
Example paris_scenario :
  let out :=
    runAssertions (str "The capital is Paris")
      {| should_contain := Some [str "paris"];
         should_not_contain := Some [str "London"] |} in
  out =
    {| checked_should_contain :=
         [{| assertion := str "paris"; passed := true;
             found_in_response := Some true |}];
       checked_should_not_contain :=
         [{| assertion := str "London"; passed := true;
             found_in_response := Some false |}] |} /\
  allAssertionsPassed out = true.
Proof. split; reflexivity. Qed.

Lemma every_passed_Forall (xs : list AssertionResult) :
  every_passed xs = true <-> Forall (fun o => passed o = true) xs.
Proof.
  unfold every_passed. induction xs as [|x xs IH]; simpl.
  - split; [constructor | done].
  - rewrite andb_true_iff, Forall_cons_iff, IH. tauto.
Qed.

(** C7.  The aggregate flag is the conjunction over all [should_contain]
    outcomes and all [should_not_contain] outcomes; a missing list counts as
    empty and an empty conjunction is true, so a case with both lists empty
    or absent passes whatever the response is. *)
Theorem allAssertionsPassed_conjunction :
  (forall r : AssertionsChecked,
      allAssertionsPassed r =
        forallb passed (checked_should_contain r ++ checked_should_not_contain r) /\
      (allAssertionsPassed r = true <->
         Forall (fun o => passed o = true) (checked_should_contain r) /\
         Forall (fun o => passed o = true) (checked_should_not_contain r))) /\
  (forall (response_ : jsstring) (a : Assertions),
      allAssertionsPassed (runAssertions response_ a) = true <->
        Forall (contains_ci response_) (listed (should_contain a)) /\
        Forall (fun x => ~ contains_ci response_ x) (listed (should_not_contain a))) /\
  (forall response_ : jsstring,
      allAssertionsPassed
        (runAssertions response_
           {| should_contain := None; should_not_contain := None |}) = true /\
      allAssertionsPassed
        (runAssertions response_
           {| should_contain := Some []; should_not_contain := None |}) = true /\
      allAssertionsPassed
        (runAssertions response_
           {| should_contain := None; should_not_contain := Some [] |}) = true /\
      allAssertionsPassed
        (runAssertions response_
           {| should_contain := Some []; should_not_contain := Some [] |}) = true).
Proof.
  split; [|split].
  - intros r. unfold allAssertionsPassed; cbv zeta. split.
    + unfold every_passed. by rewrite List.forallb_app.
    + by rewrite andb_true_iff, !every_passed_Forall.
  - intros response_ a. unfold allAssertionsPassed; cbv zeta.
    rewrite runAssertions_map; simpl.
    rewrite andb_true_iff, !every_passed_Forall, !Forall_fmap.
    split; intros [H1 H2]; split.
    + eapply Forall_impl; [|exact H1]. simpl. intros x Hx. by apply includes_spec.
    + eapply Forall_impl; [|exact H2]. simpl. intros x Hx Hc.
      apply includes_spec in Hc. by rewrite Hc in Hx.
    + eapply Forall_impl; [|exact H1]. simpl. intros x Hx. by apply includes_spec.
    + eapply Forall_impl; [|exact H2]. simpl. intros x Hx.
      destruct (includes _ _) eqn:E; [|done].
      exfalso. apply Hx. by apply includes_spec.
  - intros response_. by repeat split.
Qed.

(** C10.  The empty assertion string is found in every response: in
    [should_contain] its outcome has [found_in_response = true] and passes,
    in [should_not_contain] its outcome fails, wherever it stands in its
    list; so its outcome is the same for any two responses. *)
Theorem empty_assertion_never_distinguishes :
  (forall response_ : jsstring,
      check_should_contain response_ [] =
        {| assertion := []; passed := true; found_in_response := Some true |} /\
      check_should_not_contain response_ [] =
        {| assertion := []; passed := false; found_in_response := Some true |}) /\
  (forall (response_ : jsstring) (before after before' after' : list jsstring),
      let out :=
        runAssertions response_
          {| should_contain := Some (before ++ [] :: after);
             should_not_contain := Some (before' ++ [] :: after') |} in
      checked_should_contain out !! length before =
        Some {| assertion := []; passed := true; found_in_response := Some true |} /\
      checked_should_not_contain out !! length before' =
        Some {| assertion := []; passed := false; found_in_response := Some true |} /\
      allAssertionsPassed out = false) /\
  (forall r1 r2 : jsstring,
      check_should_contain r1 [] = check_should_contain r2 [] /\
      check_should_not_contain r1 [] = check_should_not_contain r2 []).
Proof.
  assert (Hc : forall r, check_should_contain r [] =
    {| assertion := []; passed := true; found_in_response := Some true |}).
  { intros r. unfold check_should_contain. simpl. by rewrite includes_nil. }
  assert (Hn : forall r, check_should_not_contain r [] =
    {| assertion := []; passed := false; found_in_response := Some true |}).
  { intros r. unfold check_should_not_contain. simpl. by rewrite includes_nil. }
  split; [|split].
  - done.
  - intros response_ before after before' after'. cbv zeta.
    unfold allAssertionsPassed. rewrite runAssertions_map; simpl.
    rewrite !map_app; simpl. rewrite Hc, Hn.
    split; [|split].
    + rewrite lookup_app_r; rewrite length_map; [|lia]. by rewrite Nat.sub_diag.
    + rewrite lookup_app_r; rewrite length_map; [|lia]. by rewrite Nat.sub_diag.
    + unfold every_passed. rewrite !List.forallb_app. simpl.
      by rewrite andb_false_r, andb_false_r.
  - intros r1 r2. by rewrite !Hc, !Hn.
Qed.

(* ===================================================================== *)
(** * Regular expressions: lemmas                                         *)
(* ===================================================================== *)

Lemma first_of_None_r {A} (x : option A) : first_of x None = x.
Proof. by destruct x. Qed.

Lemma repeat_match_done (a : Atom) (g : bool) (cont : jsstring -> option nat)
    (s : jsstring) :
  repeat_match a g cont 0 (Some 0) s = cont s.
Proof. destruct s, g; simpl; by destruct (cont _). Qed.

Lemma repeat_match_once (a : Atom) (cont : jsstring -> option nat) (s : jsstring) :
  repeat_match a true cont 1 (Some 1) s =
  match s with
  | c :: s' => if atom_matches a c then S <$> cont s' else None
  | [] => None
  end.
Proof.
  destruct s as [|c s]; simpl; [done|].
  rewrite first_of_None_r. destruct (atom_matches a c); [|done].
  by rewrite repeat_match_done.
Qed.

(** A literal pattern matches exactly its own text. *)
Lemma match_here_literal (p s : jsstring) :
  match_here (literal p) s = if startsWith s p then Some (length p) else None.
Proof.
  revert s; induction p as [|x p IH]; intros s; simpl; [done|].
  rewrite repeat_match_once. destruct s as [|c s]; [done|]. simpl.
  destruct (decide (c = x)) as [->|Hne].
  - rewrite Ascii.eqb_refl, IH. by destruct (startsWith s p).
  - by apply Ascii.eqb_neq in Hne as ->.
Qed.

Lemma GetSubstitution_inert (matched before after tpl : jsstring) :
  dollar_free tpl = true ->
  GetSubstitution matched before after tpl = tpl.
Proof.
  unfold dollar_free. induction tpl as [|c t IH]; simpl; [done|].
  rewrite andb_true_iff, negb_true_iff. intros [-> Ht]. by rewrite IH.
Qed.

(** With a literal pattern and a replacement free of [$], the global
    replacement is the textual substitution of the token. *)
Lemma replace_global_literal (tok v : jsstring) (skip : nat)
    (before s : jsstring) :
  tok <> [] ->
  dollar_free v = true ->
  replace_global (literal tok) v skip before s = substitute_token tok v skip s.
Proof.
  intros Htok Hv. revert skip before; induction s as [|c s IH]; intros skip before.
  - destruct skip; simpl; [|done].
    rewrite match_here_literal. destruct tok; [done|]. reflexivity.
  - destruct skip as [|k]; simpl; [|apply IH].
    rewrite match_here_literal.
    change (match tok with
            | [] => true
            | b :: t' => if decide (c = b) then startsWith s t' else false
            end) with (startsWith (c :: s) tok).
    destruct (startsWith (c :: s) tok) eqn:E.
    + rewrite GetSubstitution_inert by done. f_equal.
      destruct tok as [|b tok]; [done|]. simpl. apply IH.
    + f_equal. apply IH.
Qed.

(** ** The pattern of a plain key is literal *)

Lemma regexp_special_false (c : ascii) :
  regexp_special c = false ->
  (c =? "*")%char = false /\ (c =? "+")%char = false /\ (c =? "?")%char = false /\
  (c =? "(")%char = false /\ (c =? ")")%char = false /\ (c =? "{")%char = false /\
  (c =? "}")%char = false /\ (c =? "[")%char = false /\ (c =? "|")%char = false /\
  (c =? "\")%char = false /\ (c =? "^")%char = false /\ (c =? "$")%char = false /\
  (c =? ".")%char = false.
Proof.
  unfold regexp_special. simpl. rewrite !orb_false_iff. tauto.
Qed.

Ltac use_plain H :=
  apply regexp_special_false in H;
  destruct H as (?&?&?&?&?&?&?&?&?&?&?&?&?).

Lemma classify_plain (c : ascii) (s : jsstring) :
  regexp_special c = false -> classify (c :: s) = IsAtom (AChar c).
Proof.
  intros H. use_plain H. unfold classify, head_is.
  repeat match goal with E : (c =? _)%char = false |- _ => rewrite E; clear E end.
  reflexivity.
Qed.

Lemma span_digits_none (s : jsstring) :
  match s with c :: _ => is_digit c = false | [] => True end ->
  span_digits s = ([], s).
Proof. destruct s as [|c s]; simpl; [done|]. by intros ->. Qed.

Lemma braced_quantifier_none (s : jsstring) :
  match s with c :: _ => is_digit c = false | [] => True end ->
  braced_quantifier ("{"%char :: s) = None.
Proof.
  intros H. unfold braced_quantifier. simpl.
  by rewrite (span_digits_none s H).
Qed.

Lemma quantifier_prefix_plain (c : ascii) (s : jsstring) :
  regexp_special c = false -> quantifier_prefix (c :: s) = None.
Proof.
  intros H. use_plain H. unfold quantifier_prefix, braced_quantifier, head_is.
  repeat match goal with E : (c =? _)%char = false |- _ => rewrite E; clear E end.
  reflexivity.
Qed.

Lemma classify_open (s : jsstring) :
  classify ("{"%char :: s) =
  match braced_quantifier ("{"%char :: s) with
  | Some _ => Invalid
  | None => IsAtom (AChar "{")
  end.
Proof. reflexivity. Qed.

Lemma quantifier_prefix_open (s : jsstring) :
  quantifier_prefix ("{"%char :: s) = braced_quantifier ("{"%char :: s).
Proof. reflexivity. Qed.

Lemma quantifier_prefix_tail (k : jsstring) :
  forallb (fun c => negb (regexp_special c)) k = true ->
  quantifier_prefix (k ++ str "}}") = None.
Proof.
  destruct k as [|c k]; simpl; [done|].
  rewrite andb_true_iff, negb_true_iff. intros [Hc _].
  by apply quantifier_prefix_plain.
Qed.

Lemma parse_pattern_tail (k : jsstring) :
  forallb (fun c => negb (regexp_special c)) k = true ->
  parse_pattern 0 (k ++ str "}}") = Fragment (literal (k ++ str "}}")).
Proof.
  induction k as [|c k IH]; [done|].
  intros H. pose proof H as H'. simpl in H'.
  apply andb_true_iff in H' as [Hc Hk]. apply negb_true_iff in Hc.
  change ((c :: k) ++ str "}}") with (c :: (k ++ str "}}")).
  cbn [parse_pattern]. rewrite (classify_plain _ _ Hc).
  rewrite (quantifier_prefix_tail k Hk), (IH Hk). reflexivity.
Qed.

Lemma parse_pattern_placeholder (k : jsstring) :
  plain_key k = true ->
  parse_pattern 0 (placeholder_of k) = Fragment (literal (placeholder_of k)).
Proof.
  unfold plain_key. rewrite andb_true_iff. intros [Hk Hd].
  assert (Hhead : match k ++ str "}}" with
                  | c :: _ => is_digit c = false
                  | [] => True
                  end).
  { destruct k as [|c k]; simpl; [done|]. by apply negb_true_iff. }
  unfold placeholder_of.
  change (str "{{" ++ k ++ str "}}")
    with ("{"%char :: "{"%char :: (k ++ str "}}")).
  cbn [parse_pattern].
  assert (Hc1 : classify ("{"%char :: "{"%char :: k ++ str "}}")
                = IsAtom (AChar "{")).
  { rewrite classify_open. by rewrite braced_quantifier_none. }
  assert (Hc2 : classify ("{"%char :: k ++ str "}}") = IsAtom (AChar "{")).
  { rewrite classify_open. by rewrite braced_quantifier_none. }
  assert (Hq1 : quantifier_prefix ("{"%char :: k ++ str "}}") = None).
  { rewrite quantifier_prefix_open. by rewrite braced_quantifier_none. }
  rewrite Hc1, Hq1. cbn [parse_pattern]. rewrite Hc2.
  rewrite (quantifier_prefix_tail k Hk), (parse_pattern_tail k Hk).
  reflexivity.
Qed.

(** ** The pattern of unresolved placeholders *)

Lemma match_close (s : jsstring) :
  match_here (literal (str "}}")) s =
  if startsWith s (str "}}") then Some 2 else None.
Proof. apply match_here_literal. Qed.

(** The greedy run [[^}]+] over [w ++ rest], where [w] holds no closing
    brace and [rest] is empty or starts with one. *)
Lemma repeat_match_run (w rest : jsstring) (min : nat) :
  ("}"%char ∉ w) ->
  match rest with c :: _ => c = "}"%char | [] => True end ->
  repeat_match (ANotChar "}") true (match_here (literal (str "}}"))) min None
    (w ++ rest) =
  if (min <=? length w) && startsWith rest (str "}}")
  then Some (length w + 2) else None.
Proof.
  intros Hw Hrest. revert min. induction w as [|c w IH]; intros min.
  - simpl app.
    destruct rest as [|c rest]; destruct min; try reflexivity.
    + subst c. cbn [repeat_match]. cbn [may_repeat atom_matches andb negb Ascii.eqb Bool.eqb].
      cbn [first_of]. rewrite match_close. simpl length.
      by destruct (startsWith _ _).
    + subst c. reflexivity.
  - apply not_elem_of_cons in Hw as [Hc Hw].
    simpl app. cbn [repeat_match may_repeat atom_matches andb].
    assert (E : (c =? "}")%char = false) by (apply Ascii.eqb_neq; congruence).
    rewrite E. cbn [negb]. rewrite (IH Hw).
    assert (Hstop : match_here (literal (str "}}")) (c :: w ++ rest) = None).
    { rewrite match_close. simpl. destruct (decide (c = "}"%char)); [congruence|done]. }
    destruct min as [|min]; simpl pred; simpl length.
    + rewrite Hstop. simpl Nat.leb.
      destruct (startsWith rest (str "}}")); reflexivity.
    + change (S min <=? S (length w)) with (min <=? length w).
      destruct ((min <=? length w) && startsWith rest (str "}}")); reflexivity.
Qed.

(** Every string splits into its longest prefix free of the closing brace
    and a rest that is empty or starts with one. *)
Lemma split_at_close (s : jsstring) :
  exists w rest, s = w ++ rest /\ ("}"%char ∉ w) /\
    match rest with c :: _ => c = "}"%char | [] => True end.
Proof.
  induction s as [|c s (w & rest & -> & Hw & Hrest)].
  - exists [], []. split; [done|]. split; [apply not_elem_of_nil|done].
  - destruct (decide (c = "}"%char)) as [->|Hne].
    + exists [], ("}"%char :: w ++ rest). split; [done|]. split; [apply not_elem_of_nil|done].
    + exists (c :: w), rest. split; [done|]. split; [|done].
      apply not_elem_of_cons. split; [congruence|done].
Qed.

Lemma match_here_unsubstituted (s : jsstring) :
  match_here unsubstituted_re ("{"%char :: "{"%char :: s) =
  repeat_match (ANotChar "}") true (match_here (literal (str "}}"))) 1 None s
  ≫= fun n => Some (S (S n)).
Proof.
  unfold unsubstituted_re.
  change (match_here (?t :: ?r) ?x)
    with (repeat_match (atom t) (greedy t) (match_here r) (qmin t) (qmax t) x).
  cbn [once atom greedy qmin qmax].
  rewrite repeat_match_once. cbn [atom_matches Ascii.eqb Bool.eqb].
  change (match_here (?t :: ?r) ?x)
    with (repeat_match (atom t) (greedy t) (match_here r) (qmin t) (qmax t) x).
  cbn [once atom greedy qmin qmax].
  rewrite repeat_match_once. cbn [atom_matches Ascii.eqb Bool.eqb].
  change (match_here (?t :: ?r) ?x)
    with (repeat_match (atom t) (greedy t) (match_here r) (qmin t) (qmax t) x).
  cbn [atom greedy qmin qmax].
  change [once (AChar "}"); once (AChar "}")] with (literal (str "}}")).
  by destruct (repeat_match _ _ _ _ _ _).
Qed.

Lemma match_here_unsubstituted_head (s : jsstring) (n : nat) :
  match_here unsubstituted_re s = Some n ->
  exists s', s = "{"%char :: "{"%char :: s'.
Proof.
  unfold unsubstituted_re.
  change (match_here (?t :: ?r) ?x)
    with (repeat_match (atom t) (greedy t) (match_here r) (qmin t) (qmax t) x).
  cbn [once atom greedy qmin qmax]. rewrite repeat_match_once.
  destruct s as [|c s]; [done|]. cbn [atom_matches].
  destruct (c =? "{")%char eqn:E; [|done]. apply Ascii.eqb_eq in E as ->.
  change (match_here (?t :: ?r) ?x)
    with (repeat_match (atom t) (greedy t) (match_here r) (qmin t) (qmax t) x).
  cbn [once atom greedy qmin qmax]. rewrite repeat_match_once.
  destruct s as [|c s]; [done|]. cbn [atom_matches].
  destruct (c =? "{")%char eqn:E; [|done]. apply Ascii.eqb_eq in E as ->.
  intros _. by exists s.
Qed.

(** The pattern matches at the start of [s] exactly when [s] starts with a
    placeholder [{{w}}]; the match is that placeholder. *)
Lemma match_here_placeholder (w post : jsstring) :
  w <> [] -> ("}"%char ∉ w) ->
  match_here unsubstituted_re (placeholder_of w ++ post) = Some (length w + 4).
Proof.
  intros Hne Hw. unfold placeholder_of.
  change ((str "{{" ++ w ++ str "}}") ++ post)
    with ("{"%char :: "{"%char :: ((w ++ str "}}") ++ post)).
  rewrite match_here_unsubstituted, <- app_assoc.
  rewrite (repeat_match_run w (str "}}" ++ post) 1 Hw) by done.
  destruct w as [|c w]; [done|]. simpl. do 3 f_equal. lia.
Qed.

Lemma match_here_unsubstituted_Some (s : jsstring) (n : nat) :
  match_here unsubstituted_re s = Some n ->
  exists w post, s = placeholder_of w ++ post /\ w <> [] /\ ("}"%char ∉ w) /\
                 n = length w + 4.
Proof.
  intros H. destruct (match_here_unsubstituted_head s n H) as [s' ->].
  rewrite match_here_unsubstituted in H.
  destruct (split_at_close s') as (w & rest & -> & Hw & Hrest).
  rewrite (repeat_match_run w rest 1 Hw Hrest) in H.
  destruct ((1 <=? length w) && startsWith rest (str "}}")) eqn:E; [|done].
  apply andb_true_iff in E as [E1 E2]. apply Nat.leb_le in E1.
  apply startsWith_spec in E2 as [post ->].
  simpl in H. injection H as <-.
  exists w, post. split; [|split; [|split]].
  - unfold placeholder_of. by rewrite <- !app_assoc.
  - intros ->. simpl in E1. lia.
  - done.
  - lia.
Qed.

Lemma take_placeholder (w post : jsstring) :
  take (length w + 4 - 4) (drop 2 (placeholder_of w ++ post)) = w.
Proof.
  unfold placeholder_of. rewrite <- !app_assoc.
  change (drop 2 (str "{{" ++ ?x)) with x.
  replace (length w + 4 - 4) with (length w) by lia.
  by rewrite take_app_length.
Qed.

Lemma placeholder_here (w s : jsstring) :
  (w <> [] /\ ("}"%char ∉ w) /\ exists post, s = placeholder_of w ++ post) <->
  (exists n, match_here unsubstituted_re s = Some n /\ w = take (n - 4) (drop 2 s)).
Proof.
  split.
  - intros (Hne & Hw & post & ->). exists (length w + 4). split.
    + by apply match_here_placeholder.
    + by rewrite take_placeholder.
  - intros (n & Hn & ->).
    destruct (match_here_unsubstituted_Some s n Hn) as (w & post & -> & Hne & Hw & ->).
    rewrite take_placeholder. split; [done|]. split; [done|]. by exists post.
Qed.

Lemma placeholder_in_cons (w : jsstring) (c : ascii) (s : jsstring) :
  placeholder_in w (c :: s) <->
  (w <> [] /\ ("}"%char ∉ w) /\ exists post, c :: s = placeholder_of w ++ post) \/
  placeholder_in w s.
Proof.
  unfold placeholder_in, occurs. split.
  - intros (Hne & Hw & pre & post & H). destruct pre as [|c' pre].
    + left. split; [done|]. split; [done|]. by exists post.
    + right. split; [done|]. split; [done|]. exists pre, post.
      simpl in H. by injection H.
  - intros [(Hne & Hw & post & H) | (Hne & Hw & pre & post & H)].
    + split; [done|]. split; [done|]. by exists [], post.
    + split; [done|]. split; [done|]. exists (c :: pre), post. by rewrite H.
Qed.

Lemma placeholder_in_nil (w : jsstring) : ~ placeholder_in w [].
Proof.
  intros (_ & _ & pre & post & H). unfold placeholder_of in H.
  destruct pre; discriminate.
Qed.

(** The unresolved placeholders of [s] are those that [placeholders_of]
    lists. *)
Lemma placeholder_in_iff (w s : jsstring) :
  placeholder_in w s <-> w ∈ placeholders_of s.
Proof.
  induction s as [|c s IH].
  - split; [intros H; by apply placeholder_in_nil in H|].
    simpl. intros H. by apply elem_of_nil in H.
  - rewrite placeholder_in_cons, placeholder_here, IH.
    cbn [placeholders_of]. rewrite elem_of_app. split.
    + intros [(n & Hn & ->) | H]; [left | by right].
      rewrite Hn. apply list_elem_of_singleton. reflexivity.
    + intros [H | H]; [left | by right].
      destruct (match_here unsubstituted_re (c :: s)) as [n|] eqn:Hn.
      * apply list_elem_of_singleton in H. by exists n.
      * by apply elem_of_nil in H.
Qed.

(** The scan of [processTemplate] finds nothing exactly when no
    placeholder is left. *)
Lemma match_global_unsubstituted_nil (s : jsstring) :
  match_global unsubstituted_re 0 s = [] <-> no_placeholder s.
Proof.
  unfold no_placeholder. induction s as [|c s IH].
  - split; [intros _ w; apply placeholder_in_nil | reflexivity].
  - cbn [match_global]. split.
    + intros H w Hw.
      destruct (match_here unsubstituted_re (c :: s)) as [n|] eqn:Hn; [done|].
      apply placeholder_in_cons in Hw as [Hw | Hw].
      * apply placeholder_here in Hw as (n & Hn' & _). congruence.
      * by apply (proj1 IH H w).
    + intros H.
      destruct (match_here unsubstituted_re (c :: s)) as [n|] eqn:Hn.
      * exfalso. apply (H (take (n - 4) (drop 2 (c :: s)))).
        apply placeholder_in_cons. left. apply placeholder_here. by exists n.
      * apply IH. intros w Hw. apply (H w). apply placeholder_in_cons. by right.
Qed.

(** ** Textual substitution of a token *)

Lemma brace_free_app (l1 l2 : jsstring) (x : ascii) :
  brace_free (l1 ++ x :: l2) = true -> brace x = false.
Proof.
  unfold brace_free. rewrite List.forallb_app. simpl.
  rewrite !andb_true_iff, negb_true_iff. tauto.
Qed.

Lemma brace_free_head (x : ascii) (l : jsstring) :
  brace_free (x :: l) = true -> brace x = false.
Proof. apply (brace_free_app []). Qed.

(** Where a placeholder can lie in [a ++ v ++ c] when [v] is non-empty and
    holds no brace: inside [a], inside [c], or across [v] with its opening
    braces in [a] and its closing braces in [c]. *)
Lemma placeholder_across (a v c pre w post : jsstring) :
  v <> [] -> brace_free v = true ->
  a ++ v ++ c = pre ++ placeholder_of w ++ post ->
  (exists a2, a = pre ++ placeholder_of w ++ a2) \/
  (exists pre2, pre = a ++ v ++ pre2 /\ c = pre2 ++ placeholder_of w ++ post) \/
  (exists w1 w2, a = pre ++ str "{{" ++ w1 /\ w = w1 ++ v ++ w2 /\
                 c = w2 ++ str "}}" ++ post).
Proof.
  intros Hne Hv H. unfold placeholder_of in *. rewrite <- !app_assoc in H.
  change (str "{{") with ["{"%char; "{"%char] in *.
  change (str "}}") with ["}"%char; "}"%char] in *.
  cbn [app] in H.
  destruct (app_eq_inv _ _ _ _ H) as [(k1 & Ha & Hk) | (k1 & Hpre & Hk)].
  - (* the placeholder starts inside [a] *)
    destruct k1 as [|x1 [|x2 k2]]; cbn [app] in Hk.
    + exfalso. destruct v as [|x v]; [done|]. injection Hk as Hx _. subst x.
      by apply brace_free_head in Hv.
    + exfalso. destruct v as [|x v]; [done|]. injection Hk as _ Hx _. subst x.
      by apply brace_free_head in Hv.
    + injection Hk as Hx1 Hx2 Hk. subst x1 x2.
      destruct (app_eq_inv _ _ _ _ Hk) as [(k3 & Hw & Hc) | (k4 & Hk2 & Hc)].
      * (* [a] ends inside [w] *)
        right; right.
        destruct (app_eq_inv _ _ _ _ Hc) as [(k & Hv' & Hc') | (k & Hk3 & Hc')].
        -- destruct k as [|x k]; cbn [app] in Hc'.
           ++ exists k2, []. rewrite app_nil_r in Hv'. subst.
              by rewrite app_nil_r.
           ++ exfalso. injection Hc' as Hx _. subst x v.
              by apply brace_free_app in Hv.
        -- exists k2, k. by subst.
      * (* [a] ends after [w] *)
        destruct k4 as [|y1 [|y2 k5]]; cbn [app] in Hc.
        -- exfalso. destruct v as [|x v]; [done|]. injection Hc as Hx _. subst x.
           by apply brace_free_head in Hv.
        -- exfalso. destruct v as [|x v]; [done|]. injection Hc as _ Hx _. subst x.
           by apply brace_free_head in Hv.
        -- left. injection Hc as Hy1 Hy2 Hc. subst y1 y2. exists k5. subst.
           by rewrite <- !app_assoc.
  - (* the placeholder starts after [a] *)
    right; left.
    destruct (app_eq_inv _ _ _ _ Hk) as [(k & Hv' & Hc) | (k & Hk1 & Hc)].
    + destruct k as [|x k]; cbn [app] in Hc.
      * exists []. rewrite app_nil_r in Hv'. subst.
        rewrite app_nil_r. split; [done|]. cbn [app]. by rewrite <- !app_assoc.
      * exfalso. injection Hc as Hx _. subst x v.
        by apply brace_free_app in Hv.
    + exists k. subst. by rewrite <- !app_assoc.
Qed.

Lemma brace_free_elem (k : jsstring) (x : ascii) :
  brace_free k = true -> x ∈ k -> brace x = false.
Proof.
  intros Hk Hx. apply list_elem_of_split in Hx as (l1 & l2 & ->).
  by apply brace_free_app in Hk.
Qed.

Lemma substitute_token_skip (tok v : jsstring) (n : nat) (s : jsstring) :
  substitute_token tok v n s = substitute_token tok v 0 (drop n s).
Proof.
  revert s; induction n as [|n IH]; intros s.
  - by rewrite drop_0.
  - destruct s as [|c s]; [done|]. simpl. apply IH.
Qed.

Lemma occurs_cons (t : jsstring) (c : ascii) (s : jsstring) :
  occurs t (c :: s) <-> startsWith (c :: s) t = true \/ occurs t s.
Proof.
  rewrite <- !includes_spec. cbn [includes]. by rewrite orb_true_iff.
Qed.

Lemma occurs_nil (t : jsstring) : occurs t [] -> t = [].
Proof.
  intros (pre & post & H). symmetry in H.
  apply app_eq_nil in H as [_ H]. by apply app_eq_nil in H as [H _].
Qed.

(** Either the token does not occur, or the text splits at its first
    occurrence. *)
Lemma substitute_token_first (tok v s : jsstring) :
  tok <> [] ->
  (~ occurs tok s /\ substitute_token tok v 0 s = s) \/
  (exists a b, s = a ++ tok ++ b /\ ~ occurs tok a /\
               substitute_token tok v 0 s = a ++ v ++ substitute_token tok v 0 b).
Proof.
  intros Htok. induction s as [|c s IH].
  - left. split; [|done]. intros H. by apply occurs_nil in H.
  - cbn [substitute_token]. destruct (startsWith (c :: s) tok) eqn:E.
    + right. apply startsWith_spec in E as [b E]. exists [], b.
      split; [done|]. split; [intros H; by apply occurs_nil in H|].
      cbn [app]. f_equal. rewrite substitute_token_skip. f_equal.
      destruct tok as [|t0 tok]; [done|]. injection E as _ ->.
      simpl. by rewrite drop_app_length.
    + destruct IH as [[Hno Hs] | (a & b & Hs & Hno & Hr)].
      * left. split; [|by rewrite Hs].
        rewrite occurs_cons, E. intros [?|?]; [done|]. by apply Hno.
      * right. exists (c :: a), b. split; [by rewrite Hs|]. split.
        -- rewrite occurs_cons. intros [Hp | Hp]; [|by apply Hno].
           apply startsWith_spec in Hp as [post Hp].
           assert (startsWith (c :: s) tok = true); [|congruence].
           apply startsWith_spec. exists (post ++ tok ++ b).
           rewrite Hs, (app_assoc tok post), <- Hp. reflexivity.
        -- by rewrite Hr.
Qed.

(** Substituting one key by an inert text brings no new placeholder and
    removes every placeholder of that key, provided no placeholder of the
    text holds an opening brace in its name. *)
Lemma substitute_token_keeps (k v : jsstring) :
  brace_free k = true -> v <> [] -> brace_free v = true ->
  forall s : jsstring,
    (forall w, placeholder_in w s -> ("{"%char ∉ w)) ->
    forall w, placeholder_in w (substitute_token (placeholder_of k) v 0 s) ->
              placeholder_in w s /\ w <> k.
Proof.
  intros Hk Hne Hv s. remember (length s) as n eqn:Hn. revert s Hn.
  induction n as [n IH] using lt_wf_ind. intros s Hn Hs w Hin.
  assert (Htok : placeholder_of k <> []) by done.
  destruct (substitute_token_first (placeholder_of k) v s Htok)
    as [[Hno Hr] | (a & b & Hsab & Hno & Hr)]; rewrite Hr in Hin.
  - split; [done|]. intros ->. by destruct Hin as (_ & _ & Hocc).
  - destruct Hin as (Hwne & Hw & pre & post & Heq).
    destruct (placeholder_across _ _ _ _ _ _ Hne Hv Heq)
      as [(a2 & Ha) | [(pre2 & Hpre & Hb) | (w1 & w2 & Ha & Hww & Hb)]].
    + split.
      * split; [done|]. split; [done|]. exists pre, (a2 ++ placeholder_of k ++ b).
        rewrite Hsab, Ha. by rewrite <- !app_assoc.
      * intros ->. apply Hno. exists pre, a2. done.
    + assert (Hlen : length b < n).
      { subst n s. rewrite !length_app. unfold placeholder_of. simpl. lia. }
      assert (Hsub : forall w', placeholder_in w' b -> placeholder_in w' s).
      { intros w' (H1 & H2 & p1 & p2 & H3). split; [done|]. split; [done|].
        exists (a ++ placeholder_of k ++ p1), p2.
        rewrite Hsab, H3. by rewrite <- !app_assoc. }
      destruct (IH (length b) Hlen b eq_refl (fun w' Hw' => Hs w' (Hsub w' Hw')) w)
        as [Hwb Hwk].
      { split; [done|]. split; [done|]. by exists pre2, post. }
      split; [by apply Hsub | done].
    + exfalso. apply (Hs (w1 ++ str "{{" ++ k)).
      * split; [by destruct w1|]. split.
        -- rewrite !elem_of_app. intros [H | [H | H]].
           ++ apply Hw. subst w. rewrite elem_of_app. by left.
           ++ simpl in H. rewrite !elem_of_cons in H.
              destruct H as [H | [H | H]]; [done | done | by apply elem_of_nil in H].
           ++ by apply (brace_free_elem k _ Hk) in H.
        -- exists pre, b. rewrite Hsab, Ha. unfold placeholder_of.
           by rewrite <- !app_assoc.
      * rewrite !elem_of_app. right; left. simpl. apply elem_of_cons. by left.
Qed.

(* ===================================================================== *)
(** * Template processing: theorems                                       *)
(* ===================================================================== *)

Lemma plain_key_brace_free (k : jsstring) :
  plain_key k = true -> brace_free k = true.
Proof.
  unfold plain_key, brace_free. rewrite andb_true_iff. intros [H _].
  induction k as [|c k IH]; [done|]. simpl in *.
  apply andb_true_iff in H as [Hc Hk]. rewrite (IH Hk), andb_true_r.
  apply negb_true_iff in Hc. use_plain Hc.
  unfold brace. by repeat match goal with E : (c =? _)%char = false |- _ =>
                                   rewrite E; clear E end.
Qed.

Lemma inert_text_facts (v : jsstring) :
  inert_text v = true -> v <> [] /\ brace_free v = true /\ dollar_free v = true.
Proof.
  unfold inert_text, brace_free, dollar_free. destruct v as [|c v]; [done|].
  intros H. split; [done|]. revert H. generalize (c :: v). intros l.
  induction l as [|x l IH]; [done|]. simpl.
  rewrite !andb_true_iff. intros [[H1 H2] H3]. destruct (IH H3). tauto.
Qed.

Lemma replace_RegExp_g_plain (env : Env) (k v processed : jsstring) (w : World) :
  plain_key k = true -> dollar_free v = true ->
  replace_RegExp_g env (placeholder_of k) v processed w =
  (Ok (substitute_token (placeholder_of k) v 0 processed), w, []).
Proof.
  intros Hk Hv. unfold replace_RegExp_g.
  rewrite (parse_pattern_placeholder k Hk). unfold ret.
  by rewrite replace_global_literal.
Qed.

Lemma for_of_replace_plain (env : Env) (variables : list (jsstring * JsValue))
    (template_ : jsstring) (w : World) :
  keys_plain variables = true -> values_dollar_free variables = true ->
  for_of variables
    (fun processed kv =>
       replace_RegExp_g env (placeholder_of kv.1) (String_of kv.2) processed)
    template_ w =
  (Ok (render_literally template_ variables), w, []).
Proof.
  unfold keys_plain, values_dollar_free, render_literally.
  revert template_. induction variables as [|[k v] vs IH]; intros t Hk Hv; [done|].
  simpl in Hk, Hv. apply andb_true_iff in Hk as [Hk Hks].
  apply andb_true_iff in Hv as [Hv Hvs].
  cbn [for_of fold_left]. unfold bind at 1. simpl fst. simpl snd.
  rewrite (replace_RegExp_g_plain env k _ t w Hk Hv).
  by rewrite (IH _ Hks Hvs).
Qed.

(** With plain keys and values free of [$], [processTemplate] is the
    textual substitution, and it warns exactly when its scan finds a
    placeholder in the result. *)
Lemma processTemplate_literal (env : Env) (template_ : jsstring)
    (variables : list (jsstring * JsValue)) (w : World) :
  keys_plain variables = true -> values_dollar_free variables = true ->
  processTemplate env template_ variables w =
  (Ok (render_literally template_ variables), w,
   match match_global unsubstituted_re 0 (render_literally template_ variables) with
   | [] => []
   | found => [WarnUnsubstituted found]
   end).
Proof.
  intros Hk Hv. unfold processTemplate. unfold bind at 1.
  rewrite (for_of_replace_plain env variables template_ w Hk Hv).
  by destruct (match_global _ _ _).
Qed.

Lemma values_inert_dollar_free (variables : list (jsstring * JsValue)) :
  values_inert variables = true -> values_dollar_free variables = true.
Proof.
  unfold values_inert, values_dollar_free.
  induction variables as [|kv vs IH]; [done|]. simpl.
  rewrite !andb_true_iff. intros [H1 H2]. split; [|by apply IH].
  by apply inert_text_facts in H1 as (_ & _ & ?).
Qed.

(** Substituting plain keys by inert values one after the other leaves no
    placeholder, when every placeholder of the template names a key. *)
Lemma render_literally_resolves (variables : list (jsstring * JsValue))
    (template_ : jsstring) :
  keys_plain variables = true -> values_inert variables = true ->
  (forall k, placeholder_in k template_ -> k ∈ map fst variables) ->
  no_placeholder (render_literally template_ variables).
Proof.
  unfold keys_plain, values_inert, render_literally.
  revert template_. induction variables as [|[k v] vs IH]; intros t Hk Hv Ht.
  - intros w Hw. apply Ht in Hw. by apply elem_of_nil in Hw.
  - simpl in Hk, Hv. apply andb_true_iff in Hk as [Hk Hks].
    apply andb_true_iff in Hv as [Hv Hvs].
    apply inert_text_facts in Hv as (Hvne & Hvb & _).
    cbn [fold_left]. simpl fst. simpl snd. apply IH; [done | done |].
    intros w Hw.
    assert (Hopen : forall w', placeholder_in w' t -> ("{"%char ∉ w')).
    { intros w' Hw' Hin. apply Ht in Hw'. simpl in Hw'.
      assert (Hplain : plain_key w' = true).
      { apply elem_of_cons in Hw' as [-> | Hw']; [done|].
        apply list_elem_of_fmap in Hw' as ([k' v'] & -> & Hkv).
        rewrite forallb_forall in Hks. apply (Hks (k', v')).
        by apply list_elem_of_In. }
      by apply (brace_free_elem _ _ (plain_key_brace_free _ Hplain)) in Hin. }
    destruct (substitute_token_keeps k (String_of v)
                (plain_key_brace_free k Hk) Hvne Hvb t Hopen w Hw) as [Hwt Hwk].
    apply Ht in Hwt. simpl in Hwt.
    apply elem_of_cons in Hwt as [Hwt | Hwt]; [done | exact Hwt].
Qed.

(** C4, as amended.  When every key is plain (free of pattern characters
    and not starting with a digit), every value has a string form that is
    non-empty and free of [$], [{] and [}], and every placeholder [{{w}}]
    occurring in the template names a key of the map, then rendering
    succeeds, is the textual substitution, leaves no placeholder, and the
    scan for unresolved placeholders finds nothing (no warning is
    written). *)
Theorem processTemplate_leaves_no_placeholder (env : Env) (template_ : jsstring)
    (variables : list (jsstring * JsValue)) (w : World) :
  keys_plain variables = true ->
  values_inert variables = true ->
  (forall k, placeholder_in k template_ -> k ∈ map fst variables) ->
  exists rendered,
    processTemplate env template_ variables w = (Ok rendered, w, []) /\
    rendered = render_literally template_ variables /\
    no_placeholder rendered /\
    match_global unsubstituted_re 0 rendered = [].
Proof.
  intros Hk Hv Ht. exists (render_literally template_ variables).
  pose proof (render_literally_resolves variables template_ Hk Hv Ht) as Hno.
  pose proof (proj2 (match_global_unsubstituted_nil _) Hno) as Hscan.
  rewrite (processTemplate_literal env template_ variables w Hk
             (values_inert_dollar_free _ Hv)).
  by rewrite Hscan.
Qed.

(** The scenario of the spec: ["Translate {{text}} to {{lang}}"] with
    [text = "hi"], [lang = "fr"]. *)
Lemma processTemplate_leaves_no_placeholder_witness :
  let template_ := str "Translate {{text}} to {{lang}}" in
  let variables := [(str "text", VStr (str "hi")); (str "lang", VStr (str "fr"))] in
  keys_plain variables = true /\
  values_inert variables = true /\
  (forall k, placeholder_in k template_ -> k ∈ map fst variables) /\
  exists rendered,
    processTemplate echo_env template_ variables start = (Ok rendered, start, []) /\
    rendered = render_literally template_ variables /\
    no_placeholder rendered /\
    match_global unsubstituted_re 0 rendered = [].
Proof.
  cbv zeta.
  assert (H : forall k,
             placeholder_in k (str "Translate {{text}} to {{lang}}") ->
             k ∈ map fst [(str "text", VStr (str "hi")); (str "lang", VStr (str "fr"))]).
  { intros k Hk. apply placeholder_in_iff in Hk. vm_compute in Hk. exact Hk. }
  split; [reflexivity|]. split; [reflexivity|]. split; [exact H|].
  exact (processTemplate_leaves_no_placeholder echo_env
           (str "Translate {{text}} to {{lang}}")
           [(str "text", VStr (str "hi")); (str "lang", VStr (str "fr"))]
           start eq_refl eq_refl H).
Defined.

Example translate_scenario :
  processTemplate echo_env (str "Translate {{text}} to {{lang}}")
    [(str "text", VStr (str "hi")); (str "lang", VStr (str "fr"))] start =
  (Ok (str "Translate hi to fr"), start, []).
Proof. reflexivity. Qed.

(** C4 as stated fails: the only placeholder of the template ["{{a}}"]
    names a key of the map, yet the value of that key brings a placeholder
    of its own, which stays in the rendered text and is reported. *)
Lemma placeholder_from_value_stays :
  let template_ := str "{{a}}" in
  let variables := [(str "a", VStr (str "{{b}}"))] in
  (forall k, placeholder_in k template_ -> k ∈ map fst variables) /\
  processTemplate echo_env template_ variables start =
    (Ok (str "{{b}}"), start, [WarnUnsubstituted [str "{{b}}"]]) /\
  placeholder_in (str "b") (str "{{b}}") /\
  ~ no_placeholder (str "{{b}}").
Proof.
  cbv zeta.
  assert (Hb : placeholder_in (str "b") (str "{{b}}")).
  { apply placeholder_in_iff. vm_compute. apply list_elem_of_singleton. reflexivity. }
  split; [|split; [|split]].
  - intros k Hk. apply placeholder_in_iff in Hk. vm_compute in Hk. exact Hk.
  - reflexivity.
  - exact Hb.
  - intros Hno. exact (Hno _ Hb).
Qed.

(** The other conditions of the amended statement are needed as well. *)
Example numeric_key_is_a_quantifier (env : Env) (w : World) :
  processTemplate env (str "{{1}}") [(str "1", VStr (str "one"))] w =
  (Ok (str "{{1}}"), w, [WarnUnsubstituted [str "{{1}}"]]).
Proof. reflexivity. Qed.

Example empty_value_joins_braces (env : Env) (w : World) :
  processTemplate env (str "{{w}{{k}}}") [(str "k", VStr [])] w =
  (Ok (str "{{w}}"), w, [WarnUnsubstituted [str "{{w}}"]]).
Proof. reflexivity. Qed.

(** C3, at the inputs where the code departs from it.  The key is read as a
    pattern and the value as a replacement template: [$$] in a value comes
    out as a single [$], [$&] as the placeholder itself, and the key
    [user.name] also matches [{{user_name}}].  Textual substitution gives
    something else in each case. *)
Theorem processTemplate_interprets_key_and_value (env : Env) (w : World) :
  (processTemplate env (str "Formula: {{formula}}")
     [(str "formula", VStr (str "$$x$$"))] w
   = (Ok (str "Formula: $x$"), w, []) /\
   render_literally (str "Formula: {{formula}}")
     [(str "formula", VStr (str "$$x$$"))]
   = str "Formula: $$x$$") /\
  (processTemplate env (str "Echo {{word}}") [(str "word", VStr (str "$&"))] w
   = (Ok (str "Echo {{word}}"), w, [WarnUnsubstituted [str "{{word}}"]]) /\
   render_literally (str "Echo {{word}}") [(str "word", VStr (str "$&"))]
   = str "Echo $&") /\
  (processTemplate env (str "{{user.name}} and {{user_name}}")
     [(str "user.name", VStr (str "Ann"))] w
   = (Ok (str "Ann and Ann"), w, []) /\
   render_literally (str "{{user.name}} and {{user_name}}")
     [(str "user.name", VStr (str "Ann"))]
   = str "Ann and {{user_name}}").
Proof. repeat split; reflexivity. Qed.

(* ===================================================================== *)
(** * Execution: lemmas                                                   *)
(* ===================================================================== *)

Lemma replace_RegExp_g_world (env : Env) (source rep processed : jsstring)
    (w : World) :
  world (replace_RegExp_g env source rep processed w) = w.
Proof.
  unfold replace_RegExp_g. by destruct (parse_pattern 0 source).
Qed.

(** Rendering reads neither the clock nor the service. *)
Lemma processTemplate_world (env : Env) (template_ : jsstring)
    (variables : list (jsstring * JsValue)) (w : World) :
  world (processTemplate env template_ variables w) = w.
Proof.
  unfold processTemplate.
  assert (H : forall t,
    world (for_of variables
      (fun processed kv =>
         replace_RegExp_g env (placeholder_of kv.1) (String_of kv.2) processed)
      t w) = w).
  { induction variables as [|kv vs IH]; intros t; [done|].
    cbn [for_of]. unfold bind at 1.
    pose proof (replace_RegExp_g_world env (placeholder_of kv.1)
                  (String_of kv.2) t w) as Hw.
    destruct (replace_RegExp_g env _ _ t w) as [[[t'|e] w1] o1];
      unfold world in Hw; simpl in Hw; subst w1; [|done].
    specialize (IH t'). by destruct (for_of vs _ t' w) as [[? ?] ?]. }
  unfold bind at 1. specialize (H template_).
  destruct (for_of variables _ template_ w) as [[[t'|e] w1] o1];
    unfold world in H; simpl in H; subst w1; [|done].
  by destruct (match_global unsubstituted_re 0 t').
Qed.

(** [executePrompt] calls the service once, with the request built from
    the prompt's settings, and wraps whatever the service throws. *)
Lemma executePrompt_eq (env : Env) (promptText : jsstring) (p : PromptConfig)
    (override : option jsstring) (w : World) :
  executePrompt env promptText p override w =
  (match chat_create env (calls w)
           {| rq_model := str_or override (str_or (model p) default_model);
              rq_content := promptText;
              rq_temperature := Qc_or (temperature p) (Q2Qc (1 # 10));
              rq_max_tokens := Z_or (max_tokens p) 500 |} with
   | Ok content => Ok (str_or content [])
   | Throw e => Throw (ErrorObject (str "OpenAI API error: " ++ thrown_message e))
   end,
   {| ticks := ticks w; calls := S (calls w) |}, []).
Proof.
  unfold executePrompt, try_catch, bind, create_completion, ret, throw.
  by destruct (chat_create env (calls w) _).
Qed.

Lemma execute_case_eq (env : Env) (config : RunnerConfig) (p : PromptConfig)
    (results : list TestResult) (testCase : TestCase) (w : World) :
  execute_case env config p results testCase w =
  let '(r, w', out) := case_outcome env config p testCase w in
  (Ok (results ++ [r]), w', out).
Proof.
  unfold execute_case, case_outcome.
  unfold bind at 1. unfold Date_now at 1. cbn [ticks calls].
  unfold try_catch. unfold bind at 1.
  pose proof (processTemplate_world env (template p) (input testCase)
                {| ticks := S (ticks w); calls := calls w |}) as Hw.
  destruct (processTemplate env (template p) (input testCase) _)
    as [[[text|e] w1] o1]; unfold world in Hw; simpl in Hw; subst w1.
  - unfold bind at 1. rewrite executePrompt_eq. unfold value. cbn [fst snd].
    destruct (chat_create env _ _) as [content|e];
      unfold bind, Date_now, emit, ret; cbn [ticks calls];
      rewrite ?app_nil_r; reflexivity.
  - unfold bind, Date_now, emit, ret; cbn [ticks calls].
    rewrite ?app_nil_r; reflexivity.
Qed.

Lemma for_of_cases (env : Env) (config : RunnerConfig) (p : PromptConfig)
    (cases : list TestCase) (results : list TestResult) (w : World) :
  for_of cases (execute_case env config p) results w =
  let '(rs, w', out) := cases_outcome env config p cases w in
  (Ok (results ++ rs), w', out).
Proof.
  revert results w. induction cases as [|tc cases IH]; intros results w.
  - simpl. unfold ret. by rewrite app_nil_r.
  - cbn [for_of cases_outcome]. unfold bind at 1. rewrite execute_case_eq.
    destruct (case_outcome env config p tc w) as [[r w1] o1].
    rewrite IH. destruct (cases_outcome env config p cases w1) as [[rs w2] o2].
    by rewrite <- app_assoc.
Qed.

Lemma executeTestPair_eq (env : Env) (config : RunnerConfig) (pair : Pair)
    (w : World) :
  executeTestPair env config pair w =
  let '(rs, w', out) :=
    cases_outcome env config (prompt pair) (test_cases (samples pair)) w in
  (Ok rs, w', LogExecuting (name (prompt pair)) :: out).
Proof.
  unfold executeTestPair. unfold bind at 1. unfold emit at 1.
  rewrite for_of_cases. by destruct (cases_outcome _ _ _ _ _) as [[rs w'] out].
Qed.

Lemma cases_outcome_app (env : Env) (config : RunnerConfig) (p : PromptConfig)
    (cs1 cs2 : list TestCase) (w : World) :
  cases_outcome env config p (cs1 ++ cs2) w =
  let '(rs1, w1, out1) := cases_outcome env config p cs1 w in
  let '(rs2, w2, out2) := cases_outcome env config p cs2 w1 in
  (rs1 ++ rs2, w2, out1 ++ out2).
Proof.
  revert w. induction cs1 as [|tc cs1 IH]; intros w.
  - simpl. by destruct (cases_outcome env config p cs2 w) as [[? ?] ?].
  - cbn [app cases_outcome].
    destruct (case_outcome env config p tc w) as [[r w0] o0].
    rewrite IH. destruct (cases_outcome env config p cs1 w0) as [[rs1 w1] o1].
    destruct (cases_outcome env config p cs2 w1) as [[rs2 w2] o2].
    by rewrite <- app_assoc.
Qed.

Lemma case_outcome_label (env : Env) (config : RunnerConfig) (p : PromptConfig)
    (tc : TestCase) (w : World) :
  label (case_outcome env config p tc w).1.1 = (name p, tc_name tc).
Proof.
  unfold case_outcome.
  destruct (processTemplate env _ _ _) as [[[text|e] w1] o1]; [|done].
  by destruct (value _).
Qed.

Lemma case_outcome_calls (env : Env) (config : RunnerConfig) (p : PromptConfig)
    (tc : TestCase) (w : World) :
  calls w <= calls (case_outcome env config p tc w).1.2.
Proof.
  unfold case_outcome.
  destruct (processTemplate env _ _ _) as [[[text|e] w1] o1]; [|simpl; lia].
  destruct (value _); simpl; lia.
Qed.

Lemma cases_outcome_labels (env : Env) (config : RunnerConfig) (p : PromptConfig)
    (cases : list TestCase) (w : World) :
  map label (cases_outcome env config p cases w).1.1 =
  map (fun tc => (name p, tc_name tc)) cases.
Proof.
  revert w. induction cases as [|tc cases IH]; intros w; [done|].
  cbn [cases_outcome]. pose proof (case_outcome_label env config p tc w) as Hl.
  destruct (case_outcome env config p tc w) as [[r w1] o1].
  specialize (IH w1). destruct (cases_outcome env config p cases w1) as [[rs w2] o2].
  simpl in *. by rewrite Hl, IH.
Qed.

Lemma cases_outcome_length (env : Env) (config : RunnerConfig) (p : PromptConfig)
    (cases : list TestCase) (w : World) :
  length (cases_outcome env config p cases w).1.1 = length cases.
Proof.
  rewrite <- (length_map label), cases_outcome_labels. apply length_map.
Qed.

Lemma cases_outcome_calls (env : Env) (config : RunnerConfig) (p : PromptConfig)
    (cases : list TestCase) (w : World) :
  calls w <= calls (cases_outcome env config p cases w).1.2.
Proof.
  revert w. induction cases as [|tc cases IH]; intros w; [done|].
  cbn [cases_outcome]. pose proof (case_outcome_calls env config p tc w) as Hc.
  destruct (case_outcome env config p tc w) as [[r w1] o1].
  specialize (IH w1). destruct (cases_outcome env config p cases w1) as [[rs w2] o2].
  simpl in *. lia.
Qed.

(** ** Changing the answer to one call *)

Lemma processTemplate_with_answer (env : Env) (n : nat)
    (answer : ChatRequest -> Result (option jsstring))
    (template_ : jsstring) (variables : list (jsstring * JsValue)) (w : World) :
  processTemplate (with_answer env n answer) template_ variables w =
  processTemplate env template_ variables w.
Proof. reflexivity. Qed.

Lemma executePrompt_with_answer (env : Env) (n : nat)
    (answer : ChatRequest -> Result (option jsstring))
    (text : jsstring) (p : PromptConfig) (override : option jsstring) (w : World) :
  calls w <> n ->
  executePrompt (with_answer env n answer) text p override w =
  executePrompt env text p override w.
Proof.
  intros Hn. rewrite !executePrompt_eq. cbn [chat_create with_answer].
  by destruct (decide (calls w = n)).
Qed.

(** A case that ends with the call counter at most [n] did not make the
    [n]-th call. *)
Lemma case_outcome_before (env : Env) (n : nat)
    (answer : ChatRequest -> Result (option jsstring))
    (config : RunnerConfig) (p : PromptConfig) (tc : TestCase) (w : World) :
  calls (case_outcome env config p tc w).1.2 <= n ->
  case_outcome (with_answer env n answer) config p tc w =
  case_outcome env config p tc w.
Proof.
  unfold case_outcome. rewrite processTemplate_with_answer.
  cbn [date_now with_answer].
  destruct (processTemplate env _ _ _) as [[[text|e] w1] o1]; [|done].
  intros Hn.
  assert (Hlt : calls w < n).
  { destruct (value (executePrompt env text p (modelOverride config) _));
      simpl in Hn; lia. }
  rewrite executePrompt_with_answer; [done | simpl; lia].
Qed.

Lemma case_outcome_after (env : Env) (n : nat)
    (answer : ChatRequest -> Result (option jsstring))
    (config : RunnerConfig) (p : PromptConfig) (tc : TestCase) (w : World) :
  n < calls w ->
  case_outcome (with_answer env n answer) config p tc w =
  case_outcome env config p tc w.
Proof.
  intros Hn. unfold case_outcome. rewrite processTemplate_with_answer.
  cbn [date_now with_answer].
  destruct (processTemplate env _ _ _) as [[[text|e] w1] o1]; [|done].
  rewrite executePrompt_with_answer; [done | simpl; lia].
Qed.

Lemma cases_outcome_before (env : Env) (n : nat)
    (answer : ChatRequest -> Result (option jsstring))
    (config : RunnerConfig) (p : PromptConfig) (cases : list TestCase) (w : World) :
  calls (cases_outcome env config p cases w).1.2 <= n ->
  cases_outcome (with_answer env n answer) config p cases w =
  cases_outcome env config p cases w.
Proof.
  revert w. induction cases as [|tc cases IH]; intros w Hn; [done|].
  cbn [cases_outcome] in *.
  pose proof (case_outcome_before env n answer config p tc w) as H1.
  destruct (case_outcome env config p tc w) as [[r w1] o1].
  pose proof (cases_outcome_calls env config p cases w1) as Hm.
  specialize (IH w1).
  destruct (cases_outcome env config p cases w1) as [[rs w2] o2].
  simpl in *. rewrite H1 by lia. by rewrite IH.
Qed.

Lemma cases_outcome_after (env : Env) (n : nat)
    (answer : ChatRequest -> Result (option jsstring))
    (config : RunnerConfig) (p : PromptConfig) (cases : list TestCase) (w : World) :
  n < calls w ->
  cases_outcome (with_answer env n answer) config p cases w =
  cases_outcome env config p cases w.
Proof.
  revert w. induction cases as [|tc cases IH]; intros w Hn; [done|].
  cbn [cases_outcome]. rewrite case_outcome_after by done.
  pose proof (case_outcome_calls env config p tc w) as Hc.
  destruct (case_outcome env config p tc w) as [[r w1] o1].
  simpl in Hc. rewrite IH by lia. done.
Qed.

(* ===================================================================== *)
(** * Execution: theorems                                                 *)
(* ===================================================================== *)

(** C1.  Take any test case [tc] of a pair, the cases [cs1] before it and
    [cs2] after it.  If the template of [tc] renders and the invocation
    [llmClient.executePrompt] then throws [e], the pair still yields one
    result per case; the result of [tc] has [passed = false], an empty
    response, empty outcome lists and [error] set to the message of [e]; the
    results before it are those of running [cs1] alone; and had that one
    call answered anything else, the results of all other cases would be
    the same. *)
Theorem invocation_failure_is_recorded (env : Env) (config : RunnerConfig)
    (pair : Pair) (cs1 : list TestCase) (tc : TestCase) (cs2 : list TestCase)
    (w : World) (text : jsstring) (e : Thrown) :
  let before :=
    {| prompt := prompt pair;
       samples := {| prompt_name := prompt_name (samples pair);
                     test_cases := cs1 |} |} in
  let w1 := world (executeTestPair env config before w) in
  let at_call := {| ticks := S (ticks w1); calls := calls w1 |} in
  test_cases (samples pair) = cs1 ++ tc :: cs2 ->
  value (processTemplate env (template (prompt pair)) (input tc) at_call) = Ok text ->
  value (executePrompt env text (prompt pair) (modelOverride config) at_call)
    = Throw e ->
  exists rs1 r rs2,
    value (executeTestPair env config pair w) = Ok (rs1 ++ r :: rs2) /\
    value (executeTestPair env config before w) = Ok rs1 /\
    length rs1 = length cs1 /\ length rs2 = length cs2 /\
    r_prompt_name r = name (prompt pair) /\
    test_case_name r = tc_name tc /\
    r_passed r = false /\
    response r = [] /\
    assertions_checked r =
      {| checked_should_contain := []; checked_should_not_contain := [] |} /\
    error r = Some (thrown_message e) /\
    forall answer : ChatRequest -> Result (option jsstring),
    exists r',
      value (executeTestPair (with_answer env (calls w1) answer) config pair w)
        = Ok (rs1 ++ r' :: rs2).
Proof.
  intros before w1 at_call Hcases Htext Hthrow.
  subst w1 at_call. unfold world, value in *.
  rewrite (executeTestPair_eq env config before) in Htext, Hthrow |- *.
  subst before. cbn [prompt samples test_cases] in *.
  pose proof (cases_outcome_length env config (prompt pair) cs1 w) as Hlen1.
  pose proof (cases_outcome_before env) as Hbefore.
  specialize (fun answer => Hbefore
    (calls (cases_outcome env config (prompt pair) cs1 w).1.2)
    answer config (prompt pair) cs1 w (Nat.le_refl _)).
  destruct (cases_outcome env config (prompt pair) cs1 w) as [[rs1 w1] o1] eqn:E1.
  cbn [fst snd] in *.
  pose proof (cases_outcome_length env config (prompt pair) cs2
                {| ticks := S (S (ticks w1)); calls := S (calls w1) |}) as Hlen2.
  destruct (cases_outcome env config (prompt pair) cs2
              {| ticks := S (S (ticks w1)); calls := S (calls w1) |})
    as [[rs2 w2] o2] eqn:E2.
  cbn [fst snd] in *.
  set (ms := (date_now env (S (ticks w1)) - date_now env (ticks w1))%Z).
  exists rs1, (failed_result config (prompt pair) tc ms e), rs2.
  assert (Hcase : case_outcome env config (prompt pair) tc w1 =
            (failed_result config (prompt pair) tc ms e,
             {| ticks := S (S (ticks w1)); calls := S (calls w1) |},
             (processTemplate env (template (prompt pair)) (input tc)
                {| ticks := S (ticks w1); calls := calls w1 |}).2
             ++ [LogCaseError (tc_name tc) (thrown_message e)])).
  { unfold case_outcome.
    destruct (processTemplate env _ _ _) as [[[text'|e'] w'] o'];
      cbn [fst snd] in Htext; [|done].
    injection Htext as ->. unfold value. by rewrite Hthrow. }
  split; [|split; [|split; [|split]]].
  - rewrite executeTestPair_eq, Hcases, cases_outcome_app, E1.
    cbn [cases_outcome]. by rewrite Hcase, E2.
  - reflexivity.
  - exact Hlen1.
  - exact Hlen2.
  - repeat split; try reflexivity.
    intros answer.
    rewrite executeTestPair_eq, Hcases, cases_outcome_app, (Hbefore answer).
    cbn [cases_outcome].
    destruct (case_outcome (with_answer env (calls w1) answer) config
                (prompt pair) tc w1) as [[r' w'] o'] eqn:E'.
    assert (Hw' : w' = {| ticks := S (S (ticks w1)); calls := S (calls w1) |}).
    { unfold case_outcome in E'. rewrite processTemplate_with_answer in E'.
      destruct (processTemplate env _ _ _) as [[[text'|e'] w''] o''];
        cbn [fst snd] in Htext; [|done].
      destruct (value _); by injection E' as _ <- _. }
    subst w'. rewrite cases_outcome_after by (simpl; lia).
    rewrite E2. by exists r'.
Qed.

Lemma invocation_failure_is_recorded_witness :
  let env := rate_limited_env in
  let config := no_override in
  let pair := capital_pair in
  let text := str "What is the capital of Spain?" in
  let e := ErrorObject (str "OpenAI API error: rate limit exceeded") in
  let before :=
    {| prompt := prompt pair;
       samples := {| prompt_name := prompt_name (samples pair);
                     test_cases := [case_france] |} |} in
  let w1 := world (executeTestPair env config before start) in
  let at_call := {| ticks := S (ticks w1); calls := calls w1 |} in
  test_cases (samples pair) = [case_france] ++ case_spain :: [case_peru] /\
  value (processTemplate env (template (prompt pair)) (input case_spain) at_call)
    = Ok text /\
  value (executePrompt env text (prompt pair) (modelOverride config) at_call)
    = Throw e /\
  exists rs1 r rs2,
    value (executeTestPair env config pair start) = Ok (rs1 ++ r :: rs2) /\
    value (executeTestPair env config before start) = Ok rs1 /\
    length rs1 = 1 /\ length rs2 = 1 /\
    r_prompt_name r = name (prompt pair) /\
    test_case_name r = tc_name case_spain /\
    r_passed r = false /\
    response r = [] /\
    assertions_checked r =
      {| checked_should_contain := []; checked_should_not_contain := [] |} /\
    error r = Some (thrown_message e) /\
    forall answer : ChatRequest -> Result (option jsstring),
    exists r',
      value (executeTestPair (with_answer env (calls w1) answer) config pair start)
        = Ok (rs1 ++ r' :: rs2).
Proof.
  cbv zeta.
  split; [reflexivity|]. split; [reflexivity|]. split; [reflexivity|].
  exact (invocation_failure_is_recorded rate_limited_env no_override capital_pair
           [case_france] case_spain [case_peru] start
           (str "What is the capital of Spain?")
           (ErrorObject (str "OpenAI API error: rate limit exceeded"))
           eq_refl eq_refl eq_refl).
Defined.

(** The scenario of the spec: the service refuses the second call with
    ["rate limit exceeded"]; the run goes on to the third case. *)
Example rate_limit_scenario :
  map (fun r => (test_case_name r, r_passed r, response r, error r))
      (default [] (match value (executeTestPair rate_limited_env no_override
                                  capital_pair start) with
                   | Ok rs => Some rs
                   | Throw _ => None
                   end)) =
  [ (str "france", true, str "What is the capital of France?", None);
    (str "spain", false, [], Some (str "OpenAI API error: rate limit exceeded"));
    (str "peru", true, str "What is the capital of Peru?", None) ].
Proof. vm_compute. reflexivity. Qed.

(** C9, at the input where the code departs from it.  The request that
    [executePrompt] sends names the override if there is one, else the
    prompt's model, else ["gpt-3.5-turbo"], and every result records that
    name; an unset temperature becomes 0.1 and an unset output length 500,
    and a non-zero setting is sent as given.  But a temperature or output
    length set to 0 is not used as given: the request carries 0.1 and 500,
    as if they were unset. *)
Theorem explicit_zero_is_replaced_by_default
    (env : Env) (text : jsstring) (w : World) :
  (forall (p : PromptConfig) (override : option jsstring),
      executePrompt env text p override w =
      (match chat_create env (calls w)
               {| rq_model := str_or override (str_or (model p) default_model);
                  rq_content := text;
                  rq_temperature := Qc_or (temperature p) (Q2Qc (1 # 10));
                  rq_max_tokens := Z_or (max_tokens p) 500 |} with
       | Ok content => Ok (str_or content [])
       | Throw e =>
           Throw (ErrorObject (str "OpenAI API error: " ++ thrown_message e))
       end,
       {| ticks := ticks w; calls := S (calls w) |}, [])) /\
  (forall (config : RunnerConfig) (p : PromptConfig) (tc : TestCase),
      model_used (case_outcome env config p tc w).1.1 =
      str_or (modelOverride config) (str_or (model p) default_model)) /\
  (forall c o d m, str_or (Some (c :: o)) (str_or m d) = c :: o) /\
  (forall c m d, str_or None (str_or (Some (c :: m)) d) = c :: m) /\
  (forall d, str_or None (str_or None d) = d) /\
  Qc_or None (Q2Qc (1 # 10)) = Q2Qc (1 # 10) /\
  Z_or None 500 = 500%Z /\
  (forall q, q <> 0%Qc -> Qc_or (Some q) (Q2Qc (1 # 10)) = q) /\
  (forall z, z <> 0%Z -> Z_or (Some z) 500 = z) /\
  Qc_or (temperature zero_prompt) (Q2Qc (1 # 10)) = Q2Qc (1 # 10) /\
  Z_or (max_tokens zero_prompt) 500 = 500%Z /\
  executePrompt env text zero_prompt None w =
    (match chat_create env (calls w)
             {| rq_model := str "gpt-3.5-turbo";
                rq_content := text;
                rq_temperature := Q2Qc (1 # 10);
                rq_max_tokens := 500 |} with
     | Ok content => Ok (str_or content [])
     | Throw e =>
         Throw (ErrorObject (str "OpenAI API error: " ++ thrown_message e))
     end,
     {| ticks := ticks w; calls := S (calls w) |}, []).
Proof.
  split; [intros; apply executePrompt_eq|].
  split.
  { intros config p tc. unfold case_outcome.
    destruct (processTemplate env _ _ _) as [[[t|e] w1] o1]; [|done].
    by destruct (value _). }
  repeat split; try done.
  - intros q Hq. unfold Qc_or. by destruct (decide (q = 0%Qc)).
  - intros z Hz. unfold Z_or. by destruct (decide (z = 0%Z)).
  - apply executePrompt_eq.
Qed.

(* ===================================================================== *)
(** * Matching: theorems                                                  *)
(* ===================================================================== *)

Lemma filtered_out_passes (config : RunnerConfig) (p : PromptConfig) :
  filtered_out config p = negb (passes_filter (filter config) p).
Proof.
  unfold filtered_out, passes_filter.
  destruct (filter config) as [[|c f]|]; try done.
  repeat case_bool_decide; done.
Qed.

Lemma matchPromptsWithSamples_from (config : RunnerConfig)
    (prompts : list PromptConfig) (samples_ : gmap jsstring SampleData)
    (pairs : list Pair) (w : World) :
  for_of prompts
    (fun pairs prompt_ =>
       if filtered_out config prompt_ then ret pairs
       else
         match samples_ !! name prompt_ with
         | Some sampleData =>
             ret (pairs ++ [{| prompt := prompt_; samples := sampleData |}])
         | None =>
             emit (WarnNoSamples (name prompt_)) ;;
             ret pairs
         end)
    pairs w =
  (Ok (pairs ++ omap (matched_pair (filter config) samples_) prompts), w,
   flat_map (missing_warning (filter config) samples_) prompts).
Proof.
  revert pairs. induction prompts as [|p ps IH]; intros pairs.
  - simpl. unfold ret. by rewrite app_nil_r.
  - cbn [for_of omap flat_map list_omap]. unfold bind at 1.
    unfold matched_pair at 1, missing_warning at 1.
    rewrite filtered_out_passes.
    destruct (passes_filter (filter config) p); cbn [negb].
    + destruct (samples_ !! name p) as [s|]; cbn [fmap option_fmap option_map].
      * unfold ret at 1. rewrite IH. by rewrite <- app_assoc.
      * unfold bind at 1, emit, ret at 1. by rewrite IH.
    + unfold ret at 1. by rewrite IH.
Qed.

Lemma matchPromptsWithSamples_eq (config : RunnerConfig)
    (prompts : list PromptConfig) (samples_ : gmap jsstring SampleData)
    (w : World) :
  matchPromptsWithSamples config prompts samples_ w =
    (Ok (omap (matched_pair (filter config) samples_) prompts), w,
     flat_map (missing_warning (filter config) samples_) prompts).
Proof.
  unfold matchPromptsWithSamples. by rewrite matchPromptsWithSamples_from.
Qed.

(** C5, as amended.  The matcher goes through the prompts in load order
    and each prompt contributes at most one pair: none when a non-empty
    filter is set and the prompt's name is not exactly that string, none
    (and one warning) when no collection has the prompt's name, and exactly
    one otherwise.  An empty filter string counts as no filter.  A
    collection without test cases still makes a pair, which executes to
    zero results. *)
Theorem matchPromptsWithSamples_in_load_order (env : Env) (config : RunnerConfig)
    (prompts : list PromptConfig) (samples_ : gmap jsstring SampleData)
    (w : World) :
  matchPromptsWithSamples config prompts samples_ w =
    (Ok (omap (matched_pair (filter config) samples_) prompts), w,
     flat_map (missing_warning (filter config) samples_) prompts) /\
  (forall c f p,
      filter config = Some (c :: f) -> name p <> c :: f ->
      matched_pair (filter config) samples_ p = None /\
      missing_warning (filter config) samples_ p = []) /\
  (forall p,
      filter config = None \/ filter config = Some [] ->
      passes_filter (filter config) p = true) /\
  (forall p,
      passes_filter (filter config) p = true -> samples_ !! name p = None ->
      matched_pair (filter config) samples_ p = None /\
      missing_warning (filter config) samples_ p = [WarnNoSamples (name p)]) /\
  (forall p s,
      passes_filter (filter config) p = true -> samples_ !! name p = Some s ->
      matched_pair (filter config) samples_ p = Some {| prompt := p; samples := s |} /\
      missing_warning (filter config) samples_ p = []) /\
  (forall p n w',
      executeTestPair env config
        {| prompt := p; samples := {| prompt_name := n; test_cases := [] |} |} w'
      = (Ok [], w', [LogExecuting (name p)])).
Proof.
  split; [|split; [|split; [|split; [|split]]]].
  - apply matchPromptsWithSamples_eq.
  - intros c f p Hf Hne. unfold matched_pair, missing_warning, passes_filter.
    rewrite Hf. by rewrite bool_decide_eq_false_2.
  - intros p [-> | ->]; reflexivity.
  - intros p Hp Hs. unfold matched_pair, missing_warning. by rewrite Hp, Hs.
  - intros p s Hp Hs. unfold matched_pair, missing_warning. by rewrite Hp, Hs.
  - intros p n w'. reflexivity.
Qed.

(** C5 as stated fails for the empty filter string: the filter is set, the
    prompt's name differs from it, and the prompt is matched all the same. *)
Lemma empty_filter_is_no_filter :
  let config :=
    {| promptDir := str "prompts"; samplesDir := str "samples";
       modelOverride := None; filter := Some [] |} in
  let samples_ : gmap jsstring SampleData :=
    {[ name capital_prompt := samples capital_pair ]} in
  filter config = Some [] /\
  name capital_prompt <> [] /\
  matchPromptsWithSamples config [capital_prompt] samples_ start =
    (Ok [capital_pair], start, []).
Proof.
  cbv zeta. split; [reflexivity|]. split; [discriminate|].
  rewrite matchPromptsWithSamples_eq.
  cbn [omap list_omap flat_map]. unfold matched_pair, missing_warning.
  cbn [passes_filter filter]. by rewrite lookup_singleton_eq.
Qed.

(** Names are compared exactly: a prompt named ["Foo"] does not match a
    collection keyed ["foo"]. *)
Example names_match_exactly (w : World) :
  matchPromptsWithSamples no_override [prompt_named "Foo" "x"]
    {[ str "foo" := {| prompt_name := None; test_cases := [] |} ]} w =
  (Ok [], w, [WarnNoSamples (str "Foo")]).
Proof.
  rewrite matchPromptsWithSamples_eq. cbn [omap list_omap flat_map].
  unfold matched_pair, missing_warning. cbn [passes_filter filter no_override].
  rewrite lookup_singleton_ne; [reflexivity | discriminate].
Qed.

(* ===================================================================== *)
(** * The run: lemmas                                                     *)
(* ===================================================================== *)

Lemma execute_all_from (env : Env) (config : RunnerConfig)
    (testPairs : list Pair) (results : list TestResult) (w : World) :
  for_of testPairs
    (fun results pair =>
       testResults <- executeTestPair env config pair ;;
       ret (results ++ testResults))
    results w =
  let '(chunks, w', out) := pairs_outcome env config testPairs w in
  (Ok (results ++ concat chunks), w', out).
Proof.
  revert results w. induction testPairs as [|pair rest IH]; intros results w.
  - simpl. unfold ret. by rewrite app_nil_r.
  - cbn [for_of pairs_outcome]. unfold bind at 1. unfold bind at 1.
    rewrite executeTestPair_eq.
    destruct (cases_outcome env config (prompt pair) _ w) as [[rs w1] o1].
    unfold ret at 1. rewrite IH.
    destruct (pairs_outcome env config rest w1) as [[chunks w2] o2].
    cbn [concat]. rewrite app_nil_r, <- app_assoc. reflexivity.
Qed.

Lemma execute_all_eq (env : Env) (config : RunnerConfig)
    (testPairs : list Pair) (w : World) :
  execute_all env config testPairs w =
  let '(chunks, w', out) := pairs_outcome env config testPairs w in
  (Ok (concat chunks), w', out).
Proof. unfold execute_all. by rewrite execute_all_from. Qed.

(** Each chunk is what its pair executes to, case by case. *)
Lemma pairs_outcome_chunks (env : Env) (config : RunnerConfig)
    (testPairs : list Pair) (w : World) :
  Forall2
    (fun pair rs =>
       (exists w', value (executeTestPair env config pair w') = Ok rs) /\
       map label rs =
         map (fun tc => (name (prompt pair), tc_name tc)) (test_cases (samples pair)))
    testPairs (pairs_outcome env config testPairs w).1.1.
Proof.
  revert w. induction testPairs as [|pair rest IH]; intros w; [constructor|].
  cbn [pairs_outcome].
  pose proof (cases_outcome_labels env config (prompt pair)
                (test_cases (samples pair)) w) as Hl.
  pose proof (executeTestPair_eq env config pair w) as He.
  destruct (cases_outcome env config (prompt pair) _ w) as [[rs w1] o1].
  specialize (IH w1).
  destruct (pairs_outcome env config rest w1) as [[chunks w2] o2].
  cbn [fst snd] in *. constructor; [|exact IH].
  split; [|exact Hl]. exists w. by rewrite He.
Qed.

Lemma concat_labels (testPairs : list Pair) (chunks : list (list TestResult)) :
  Forall2
    (fun pair rs =>
       map label rs =
         map (fun tc => (name (prompt pair), tc_name tc)) (test_cases (samples pair)))
    testPairs chunks ->
  map label (concat chunks) = labels_in_order testPairs.
Proof.
  induction 1 as [|pair rs ps cs H _ IH]; [done|].
  cbn [concat]. unfold labels_in_order in *. cbn [flat_map].
  by rewrite map_app, H, IH.
Qed.

(** The run, stage by stage. *)
Lemma run_eq (env : Env) (config : RunnerConfig) (w : World) :
  run env config w =
  let w0 := {| ticks := S (ticks w); calls := calls w |} in
  let fatal (e : Thrown) (w' : World) (out : list Event)
        : Result (list TestResult) * World * list Event :=
    (Throw e, w', LogStarting :: out ++ [ErrorFatal (thrown_message e)]) in
  match loadPrompts env config w0 with
  | (Throw e, w1, o1) => fatal e w1 o1
  | (Ok prompts, w1, o1) =>
      match loadSamples env config w1 with
      | (Throw e, w2, o2) => fatal e w2 (o1 ++ o2)
      | (Ok samples_, w2, o2) =>
          match matchPromptsWithSamples config prompts samples_ w2 with
          | (Throw e, w3, o3) => fatal e w3 (o1 ++ o2 ++ o3)
          | (Ok [], w3, o3) =>
              (Ok [], w3, LogStarting :: o1 ++ o2 ++ o3 ++ [WarnNoPairs])
          | (Ok (pr :: rest), w3, o3) =>
              let testPairs := pr :: rest in
              match execute_all env config testPairs w3 with
              | (Throw e, w4, o4) =>
                  fatal e w4 (o1 ++ o2 ++ o3 ++ LogFound (length testPairs) :: o4)
              | (Ok results, w4, o4) =>
                  (Ok results,
                   {| ticks := S (ticks w4); calls := calls w4 |},
                   LogStarting :: o1 ++ o2 ++ o3 ++
                   LogFound (length testPairs) :: o4 ++
                   [Reported results;
                    LogTotalTime (date_now env (ticks w4) - date_now env (ticks w))])
              end
          end
      end
  end.
Proof.
  unfold run. unfold bind at 1. unfold Date_now at 1.
  unfold bind at 1. unfold emit at 1. unfold try_catch.
  unfold bind at 1.
  destruct (loadPrompts env config _) as [[[prompts|e] w1] o1].
  2:{ unfold bind, emit, throw. cbn. by rewrite ?app_nil_r. }
  unfold bind at 1.
  destruct (loadSamples env config w1) as [[[samples_|e] w2] o2].
  2:{ unfold bind, emit, throw. cbn. by rewrite ?app_nil_r, <- ?app_assoc. }
  unfold bind at 1.
  destruct (matchPromptsWithSamples config prompts samples_ w2)
    as [[[testPairs|e] w3] o3].
  2:{ unfold bind, emit, throw. cbn. by rewrite ?app_nil_r, <- ?app_assoc. }
  destruct testPairs as [|pr rest].
  { unfold bind, emit, ret. cbn. by rewrite ?app_nil_r, <- ?app_assoc. }
  unfold bind at 1. unfold emit at 1. unfold bind at 1.
  change (for_of (pr :: rest) _ []) with (execute_all env config (pr :: rest)).
  destruct (execute_all env config (pr :: rest) w3) as [[[results|e] w4] o4].
  2:{ unfold bind, emit, throw. cbn.
      rewrite ?app_nil_r, <- ?app_assoc. cbn. by rewrite <- ?app_assoc. }
  unfold bind, emit, ret, Date_now. cbn.
  rewrite ?app_nil_r, <- ?app_assoc. cbn. by rewrite <- ?app_assoc.
Qed.

(** ** Loading *)

Lemma prompt_loop_eq (env : Env) (config : RunnerConfig)
    (files : list jsstring) (acc : list PromptConfig) (w : World) :
  for_of files
    (fun prompts file =>
       try_catch
         (let filePath := path_join env (promptDir config) file in
          doc <- lift (read_yaml env filePath) ;;
          if str_falsy (y_name doc) || str_falsy (y_template doc) then
            emit (WarnInvalidPrompt file) ;;
            ret prompts
          else
            let prompt_ :=
              {| name := str_or (y_name doc) [];
                 version := y_version doc;
                 description := y_description doc;
                 template := str_or (y_template doc) [];
                 model := y_model doc;
                 temperature := y_temperature doc;
                 max_tokens := y_max_tokens doc |} in
            emit (LogLoadedPrompt (name prompt_) file) ;;
            ret (prompts ++ [prompt_]))
         (fun error_ =>
            emit (WarnPromptFile file (thrown_message error_)) ;;
            ret prompts))
    acc w =
  let '(prompts, out) := prompt_files_outcome env config files acc in
  (Ok prompts, w, out).
Proof.
  revert acc. induction files as [|file files IH]; intros acc; [done|].
  cbn [for_of prompt_files_outcome]. unfold bind at 1.
  unfold prompt_file_outcome, try_catch, bind at 1, lift at 1.
  destruct (read_yaml env _) as [doc|e].
  - destruct (str_falsy (y_name doc) || str_falsy (y_template doc)).
    + unfold bind at 1, emit at 1, ret at 1. cbn [app]. rewrite IH.
      by destruct (prompt_files_outcome env config files acc).
    + unfold bind at 1, emit at 1, ret at 1. cbn [app name]. rewrite IH.
      by destruct (prompt_files_outcome env config files _).
  - unfold bind at 1, emit at 1, ret at 1. cbn [app]. rewrite IH.
    by destruct (prompt_files_outcome env config files acc).
Qed.

Lemma loadPrompts_eq (env : Env) (config : RunnerConfig) (w : World) :
  loadPrompts env config w =
  if existsSync env (promptDir config) then
    match readdirSync env (promptDir config) with
    | Ok entries =>
        match List.filter is_yaml entries with
        | [] =>
            (Throw (ErrorObject (str "No YAML files found in: " ++ promptDir config)),
             w, [])
        | file :: files =>
            let '(prompts, out) :=
              prompt_files_outcome env config (file :: files) [] in
            (Ok prompts, w, out)
        end
    | Throw e => (Throw e, w, [])
    end
  else
    (Throw (ErrorObject (str "Prompts directory not found: " ++ promptDir config)),
     w, []).
Proof.
  unfold loadPrompts. destruct (existsSync env (promptDir config)); [|done].
  cbn [negb]. unfold bind at 1, lift at 1.
  destruct (readdirSync env (promptDir config)) as [entries|e]; [|done].
  change (List.filter _ entries) with (List.filter is_yaml entries).
  destruct (List.filter is_yaml entries) as [|file files]; [done|].
  rewrite prompt_loop_eq.
  by destruct (prompt_files_outcome env config (file :: files) []).
Qed.

Lemma prompt_files_outcome_loading (env : Env) (config : RunnerConfig)
    (files : list jsstring) (prompts : list PromptConfig) :
  Forall (fun ev => execution_event ev = false)
    (prompt_files_outcome env config files prompts).2.
Proof.
  revert prompts. induction files as [|file files IH]; intros prompts; [constructor|].
  cbn [prompt_files_outcome].
  assert (H1 : Forall (fun ev => execution_event ev = false)
                 (prompt_file_outcome env config prompts file).2).
  { unfold prompt_file_outcome. destruct (read_yaml env _) as [doc|e].
    - destruct (_ || _); by repeat constructor.
    - by repeat constructor. }
  destruct (prompt_file_outcome env config prompts file) as [p1 o1].
  specialize (IH p1). destruct (prompt_files_outcome env config files p1) as [p2 o2].
  cbn [snd] in *. by apply Forall_app.
Qed.

(** When no file holds a valid prompt, nothing is loaded. *)
Lemma prompt_files_outcome_invalid (env : Env) (config : RunnerConfig)
    (files : list jsstring) :
  Forall (fun file => valid_prompt_file env config file = false) files ->
  (prompt_files_outcome env config files []).1 = [].
Proof.
  induction 1 as [|file files Hf _ IH]; [done|].
  cbn [prompt_files_outcome].
  assert (H1 : (prompt_file_outcome env config [] file).1 = []).
  { unfold prompt_file_outcome, valid_prompt_file in *.
    destruct (read_yaml env _) as [doc|e]; [|done].
    apply negb_false_iff in Hf. by rewrite Hf. }
  destruct (prompt_file_outcome env config [] file) as [p1 o1].
  cbn [fst] in H1. subst p1.
  by destruct (prompt_files_outcome env config files []) as [p2 o2].
Qed.

Lemma loadPrompts_quiet (env : Env) (config : RunnerConfig) (w : World) :
  exists r out,
    loadPrompts env config w = (r, w, out) /\
    Forall (fun ev => execution_event ev = false) out.
Proof.
  rewrite loadPrompts_eq.
  destruct (existsSync env _); [|eexists _, _; split; [reflexivity | constructor]].
  destruct (readdirSync env _) as [entries|e];
    [|eexists _, _; split; [reflexivity | constructor]].
  destruct (List.filter is_yaml entries) as [|file files];
    [eexists _, _; split; [reflexivity | constructor]|].
  pose proof (prompt_files_outcome_loading env config (file :: files) []) as H.
  destruct (prompt_files_outcome env config (file :: files) []) as [ps o].
  by exists (Ok ps), o.
Qed.

Lemma for_of_quiet {A S} (xs : list A) (body : S -> A -> M S) (w : World) :
  (forall acc x,
      world (body acc x w) = w /\
      Forall (fun ev => execution_event ev = false) (output (body acc x w)) /\
      exists acc', value (body acc x w) = Ok acc') ->
  forall acc,
    world (for_of xs body acc w) = w /\
    Forall (fun ev => execution_event ev = false) (output (for_of xs body acc w)) /\
    exists acc', value (for_of xs body acc w) = Ok acc'.
Proof.
  intros Hbody. induction xs as [|x xs IH]; intros acc.
  - unfold world, output, value. simpl. split; [done|]. split; [constructor|].
    by exists acc.
  - cbn [for_of]. unfold bind. destruct (Hbody acc x) as (Hw & Ho & acc1 & Hv).
    unfold world, output, value in *.
    destruct (body acc x w) as [[r w1] o1]. cbn [fst snd] in *. subst r w1.
    destruct (IH acc1) as (Hw' & Ho' & acc2 & Hv').
    destruct (for_of xs body acc1 w) as [[r w2] o2]. cbn [fst snd] in *.
    split; [done|]. split; [by apply Forall_app|]. by exists acc2.
Qed.

Lemma loadSamples_quiet (env : Env) (config : RunnerConfig) (w : World) :
  exists r out,
    loadSamples env config w = (r, w, out) /\
    Forall (fun ev => execution_event ev = false) out.
Proof.
  unfold loadSamples.
  destruct (existsSync env (samplesDir config));
    [|eexists _, _; split; [reflexivity | constructor]].
  cbn [negb]. unfold bind at 1, lift at 1.
  destruct (readdirSync env (samplesDir config)) as [entries|e];
    [|eexists _, _; split; [reflexivity | constructor]].
  match goal with |- context [for_of ?xs ?b ?a w] =>
    destruct (for_of_quiet xs b w) with (acc := a) as (Hw & Ho & _);
    [|revert Hw Ho; unfold world, output;
      destruct (for_of xs b a w) as [[r w'] o];
      cbn [fst snd app]; intros -> Ho; by exists r, o] end.
  intros acc file. unfold try_catch, bind at 1, lift at 1.
  destruct (read_json env _) as [doc|e]; unfold bind, emit, ret, world, output, value;
    cbn [fst snd app].
  - split; [done|]. split; [by repeat constructor|]. by eexists.
  - split; [done|]. split; [by repeat constructor|]. by eexists.
Qed.

(* ===================================================================== *)
(** * The run: theorems                                                   *)
(* ===================================================================== *)

(** C6.  The results of a run are the concatenation, in pair order, of the
    results of each matched pair, and the results of a pair follow the
    order of its test cases: result by result, the prompt and case names
    are those of the pairs and their cases, whether a case passed, failed
    or threw. *)
Theorem results_in_pair_then_case_order (env : Env) (config : RunnerConfig)
    (w : World) (results : list TestResult) :
  value (run env config w) = Ok results ->
  exists prompts samples_ testPairs chunks,
    (exists w1, value (loadPrompts env config w1) = Ok prompts) /\
    (exists w2, value (loadSamples env config w2) = Ok samples_) /\
    (exists w3,
        value (matchPromptsWithSamples config prompts samples_ w3) = Ok testPairs) /\
    results = concat chunks /\
    Forall2
      (fun pr rs =>
         (exists w', value (executeTestPair env config pr w') = Ok rs) /\
         map label rs =
           map (fun tc => (name (prompt pr), tc_name tc)) (test_cases (samples pr)))
      testPairs chunks /\
    map label results = labels_in_order testPairs.
Proof.
  rewrite run_eq. cbv zeta. unfold value.
  destruct (loadPrompts env config _) as [[[prompts|e] w1] o1] eqn:E1; [|done].
  destruct (loadSamples env config w1) as [[[samples_|e] w2] o2] eqn:E2; [|done].
  destruct (matchPromptsWithSamples config prompts samples_ w2)
    as [[[testPairs|e] w3] o3] eqn:E3; [|done].
  assert (Hstages :
    (exists w1, (loadPrompts env config w1).1.1 = Ok prompts) /\
    (exists w2, (loadSamples env config w2).1.1 = Ok samples_) /\
    (exists w3, (matchPromptsWithSamples config prompts samples_ w3).1.1
                = Ok testPairs)).
  { split; [eexists; by rewrite E1|]. split; [eexists; by rewrite E2|].
    eexists; by rewrite E3. }
  destruct Hstages as (H1 & H2 & H3).
  destruct testPairs as [|pr rest].
  - cbn [fst]. intros [= <-]. exists prompts, samples_, [], [].
    repeat split; done.
  - rewrite execute_all_eq.
    pose proof (pairs_outcome_chunks env config (pr :: rest) w3) as Hchunks.
    destruct (pairs_outcome env config (pr :: rest) w3) as [[chunks w4] o4].
    cbn [fst snd] in *. intros [= <-].
    exists prompts, samples_, (pr :: rest), chunks.
    split; [done|]. split; [done|]. split; [done|]. split; [done|].
    split; [exact Hchunks|].
    apply concat_labels. eapply Forall2_impl; [|exact Hchunks].
    by intros ? ? [_ ?].
Qed.

Lemma results_in_pair_then_case_order_witness :
  let results :=
    [ passed_result no_override capital_prompt case_france 7
        (str "What is the capital of France?");
      passed_result no_override capital_prompt case_spain 7
        (str "What is the capital of Spain?");
      passed_result no_override greet_prompt case_ann 7 (str "Say hello to Ann");
      passed_result no_override greet_prompt case_bob 7 (str "Say hello to Bob") ] in
  value (run disk_env no_override start) = Ok results /\
  exists prompts samples_ testPairs chunks,
    (exists w1, value (loadPrompts disk_env no_override w1) = Ok prompts) /\
    (exists w2, value (loadSamples disk_env no_override w2) = Ok samples_) /\
    (exists w3,
        value (matchPromptsWithSamples no_override prompts samples_ w3)
        = Ok testPairs) /\
    results = concat chunks /\
    Forall2
      (fun pr rs =>
         (exists w', value (executeTestPair disk_env no_override pr w') = Ok rs) /\
         map label rs =
           map (fun tc => (name (prompt pr), tc_name tc)) (test_cases (samples pr)))
      testPairs chunks /\
    map label results = labels_in_order testPairs.
Proof.
  cbv zeta.
  assert (H : value (run disk_env no_override start) =
    Ok [ passed_result no_override capital_prompt case_france 7
           (str "What is the capital of France?");
         passed_result no_override capital_prompt case_spain 7
           (str "What is the capital of Spain?");
         passed_result no_override greet_prompt case_ann 7 (str "Say hello to Ann");
         passed_result no_override greet_prompt case_bob 7 (str "Say hello to Bob") ]).
  { vm_compute. reflexivity. }
  split; [exact H|].
  exact (results_in_pair_then_case_order disk_env no_override start _ H).
Defined.

(** The example of the spec: prompts [A, B], each with cases [1, 2], give
    results in the order A1, A2, B1, B2. *)
Example order_A1_A2_B1_B2 (env : Env) (config : RunnerConfig) (w : World) :
  let A := {| prompt := prompt_named "A" "a";
              samples := {| prompt_name := None;
                            test_cases := [case_named "1" [] [] [];
                                           case_named "2" [] [] []] |} |} in
  let B := {| prompt := prompt_named "B" "b";
              samples := {| prompt_name := None;
                            test_cases := [case_named "1" [] [] [];
                                           case_named "2" [] [] []] |} |} in
  exists rs,
    value (execute_all env config [A; B] w) = Ok rs /\
    map label rs = [(str "A", str "1"); (str "A", str "2");
                    (str "B", str "1"); (str "B", str "2")].
Proof.
  cbv zeta. rewrite execute_all_eq.
  match goal with |- context [pairs_outcome env config ?ps w] =>
    pose proof (pairs_outcome_chunks env config ps w) as Hchunks;
    destruct (pairs_outcome env config ps w) as [[chunks w'] o];
    exists (concat chunks); split; [done|];
    rewrite (concat_labels ps chunks); [reflexivity|] end.
  eapply Forall2_impl; [|exact Hchunks]. by intros ? ? [_ ?].
Qed.

Lemma loadSamples_ok (env : Env) (config : RunnerConfig) (w : World)
    (entries : list jsstring) :
  existsSync env (samplesDir config) = true ->
  readdirSync env (samplesDir config) = Ok entries ->
  exists samples_ out,
    loadSamples env config w = (Ok samples_, w, out) /\
    Forall (fun ev => execution_event ev = false) out.
Proof.
  intros Hex Hdir. unfold loadSamples. rewrite Hex. cbn [negb].
  unfold bind at 1, lift at 1. rewrite Hdir.
  match goal with |- context [for_of ?xs ?b ?a w] =>
    destruct (for_of_quiet xs b w) with (acc := a) as (Hw & Ho & m & Hm);
    [|revert Hw Ho Hm; unfold world, output, value;
      destruct (for_of xs b a w) as [[r w'] o];
      cbn [fst snd app]; intros -> Ho ->; by exists m, o] end.
  intros acc file. unfold try_catch, bind at 1, lift at 1.
  destruct (read_json env _) as [doc|e]; unfold bind, emit, ret, world, output, value;
    cbn [fst snd app].
  - split; [done|]. split; [by repeat constructor|]. by eexists.
  - split; [done|]. split; [by repeat constructor|]. by eexists.
Qed.

Lemma nothing_executed_fatal {A} (w w0 : World) (e : Thrown) (out : list Event) :
  calls w0 = calls w ->
  Forall (fun ev => execution_event ev = false) out ->
  nothing_executed (A := A) w
    (Throw e, w0, LogStarting :: out ++ [ErrorFatal (thrown_message e)]).
Proof.
  intros Hc Ho. split; [done|]. unfold output. cbn [snd].
  constructor; [done|]. apply Forall_app. split; [done|]. by repeat constructor.
Qed.

(** C8, as amended.  A missing prompt directory, a missing samples
    directory, or a prompt directory without any YAML file makes the run
    throw before any test case is executed and before anything is reported.
    When YAML files exist but none of them holds a valid prompt (each fails
    to parse or lacks a name or a template) and the samples can be listed,
    the run does not throw: it warns that no pairs were found and returns
    the empty result list, again with nothing executed or reported. *)
Theorem fatal_or_empty_before_any_execution (env : Env) (config : RunnerConfig)
    (w : World) :
  (existsSync env (promptDir config) = false ->
   value (run env config w) =
     Throw (ErrorObject (str "Prompts directory not found: " ++ promptDir config)) /\
   nothing_executed w (run env config w)) /\
  (existsSync env (samplesDir config) = false ->
   (exists e, value (run env config w) = Throw e) /\
   nothing_executed w (run env config w)) /\
  (forall entries,
      existsSync env (promptDir config) = true ->
      readdirSync env (promptDir config) = Ok entries ->
      List.filter is_yaml entries = [] ->
      value (run env config w) =
        Throw (ErrorObject (str "No YAML files found in: " ++ promptDir config)) /\
      nothing_executed w (run env config w)) /\
  (forall entries sample_entries,
      existsSync env (promptDir config) = true ->
      readdirSync env (promptDir config) = Ok entries ->
      List.filter is_yaml entries <> [] ->
      Forall (fun file => valid_prompt_file env config file = false)
             (List.filter is_yaml entries) ->
      existsSync env (samplesDir config) = true ->
      readdirSync env (samplesDir config) = Ok sample_entries ->
      value (run env config w) = Ok [] /\
      nothing_executed w (run env config w) /\
      exists out, output (run env config w) = out ++ [WarnNoPairs]).
Proof.
  split; [|split; [|split]].
  - intros Hex. rewrite run_eq. cbv zeta. rewrite loadPrompts_eq, Hex.
    split; [done|]. by apply (nothing_executed_fatal w).
  - intros Hex. rewrite run_eq. cbv zeta.
    destruct (loadPrompts_quiet env config
                {| ticks := S (ticks w); calls := calls w |})
      as (r1 & o1 & -> & Ho1).
    destruct r1 as [prompts|e].
    + unfold loadSamples. rewrite Hex. cbn [negb throw].
      split; [by eexists|].
      apply (nothing_executed_fatal w); [done|]. by rewrite app_nil_r.
    + split; [by eexists|]. by apply (nothing_executed_fatal w).
  - intros entries Hex Hdir Hnone.
    rewrite run_eq. cbv zeta. rewrite loadPrompts_eq, Hex, Hdir, Hnone.
    split; [done|]. by apply (nothing_executed_fatal w).
  - intros entries sample_entries Hex Hdir Hsome Hinvalid Hexs Hdirs.
    rewrite run_eq. cbv zeta. rewrite loadPrompts_eq, Hex, Hdir.
    destruct (List.filter is_yaml entries) as [|file files] eqn:Hfiles; [done|].
    pose proof (prompt_files_outcome_invalid env config _ Hinvalid) as Hnil.
    pose proof (prompt_files_outcome_loading env config (file :: files) []) as Ho1.
    destruct (prompt_files_outcome env config (file :: files) []) as [ps o1].
    cbn [fst snd] in *. subst ps.
    destruct (loadSamples_ok env config
                {| ticks := S (ticks w); calls := calls w |} sample_entries
                Hexs Hdirs) as (samples_ & o2 & -> & Ho2).
    rewrite matchPromptsWithSamples_eq. cbn [omap list_omap flat_map].
    split; [done|]. split.
    + split; [done|]. unfold output. cbn [snd].
      constructor; [done|]. cbn [app].
      apply Forall_app; split; [done|]. apply Forall_app; split; [done|].
      by repeat constructor.
    + unfold output. cbn [snd app].
      exists (LogStarting :: o1 ++ o2). cbn [app]. by rewrite <- app_assoc.
Qed.

Lemma fatal_or_empty_before_any_execution_witness :
  (existsSync echo_env (promptDir no_override) = false /\
   value (run echo_env no_override start) =
     Throw (ErrorObject (str "Prompts directory not found: prompts")) /\
   nothing_executed start (run echo_env no_override start)) /\
  (existsSync no_samples_env (samplesDir no_override) = false /\
   (exists e, value (run no_samples_env no_override start) = Throw e) /\
   nothing_executed start (run no_samples_env no_override start)) /\
  (existsSync no_yaml_env (promptDir no_override) = true /\
   readdirSync no_yaml_env (promptDir no_override) = Ok [str "notes.txt"] /\
   List.filter is_yaml [str "notes.txt"] = [] /\
   value (run no_yaml_env no_override start) =
     Throw (ErrorObject (str "No YAML files found in: prompts")) /\
   nothing_executed start (run no_yaml_env no_override start)) /\
  (existsSync broken_env (promptDir no_override) = true /\
   readdirSync broken_env (promptDir no_override)
     = Ok [str "broken.yaml"; str "nameless.yml"] /\
   List.filter is_yaml [str "broken.yaml"; str "nameless.yml"] <> [] /\
   Forall (fun file => valid_prompt_file broken_env no_override file = false)
          (List.filter is_yaml [str "broken.yaml"; str "nameless.yml"]) /\
   existsSync broken_env (samplesDir no_override) = true /\
   readdirSync broken_env (samplesDir no_override)
     = Ok [str "capital_samples.json"; str "hello.json"] /\
   value (run broken_env no_override start) = Ok [] /\
   nothing_executed start (run broken_env no_override start) /\
   exists out, output (run broken_env no_override start) = out ++ [WarnNoPairs]).
Proof.
  split; [|split; [|split]].
  - split; [reflexivity|].
    exact (proj1 (fatal_or_empty_before_any_execution echo_env no_override start)
             eq_refl).
  - split; [reflexivity|].
    exact (proj1 (proj2 (fatal_or_empty_before_any_execution
                           no_samples_env no_override start)) eq_refl).
  - split; [reflexivity|]. split; [reflexivity|]. split; [reflexivity|].
    exact (proj1 (proj2 (proj2 (fatal_or_empty_before_any_execution
                                  no_yaml_env no_override start)))
             [str "notes.txt"] eq_refl eq_refl eq_refl).
  - assert (Hsome : List.filter is_yaml [str "broken.yaml"; str "nameless.yml"] <> [])
      by (vm_compute; discriminate).
    assert (Hinvalid :
        Forall (fun file => valid_prompt_file broken_env no_override file = false)
               (List.filter is_yaml [str "broken.yaml"; str "nameless.yml"]))
      by (repeat constructor).
    split; [reflexivity|]. split; [reflexivity|]. split; [exact Hsome|].
    split; [exact Hinvalid|]. split; [reflexivity|]. split; [reflexivity|].
    exact (proj2 (proj2 (proj2 (fatal_or_empty_before_any_execution
                                  broken_env no_override start)))
             [str "broken.yaml"; str "nameless.yml"]
             [str "capital_samples.json"; str "hello.json"]
             eq_refl eq_refl Hsome Hinvalid eq_refl eq_refl).
Defined.

(** C8 as stated fails where prompt files exist but none can be used: the
    directory lists two YAML files, one that does not parse and one without
    a name, no prompt is loaded, and the run returns the empty result list
    instead of throwing. *)
Lemma unparseable_prompts_do_not_abort :
  existsSync broken_env (promptDir no_override) = true /\
  existsSync broken_env (samplesDir no_override) = true /\
  readdirSync broken_env (promptDir no_override)
    = Ok [str "broken.yaml"; str "nameless.yml"] /\
  read_yaml broken_env (str "prompts/broken.yaml")
    = Throw (ErrorObject (str "bad indentation")) /\
  (y_name <$> match read_yaml broken_env (str "prompts/nameless.yml") with
              | Ok doc => Some doc
              | Throw _ => None
              end) = Some None /\
  value (loadPrompts broken_env no_override start) = Ok [] /\
  run broken_env no_override start =
    (Ok [], {| ticks := 1; calls := 0 |},
     [ LogStarting;
       WarnPromptFile (str "broken.yaml") (str "bad indentation");
       WarnInvalidPrompt (str "nameless.yml");
       LogLoadedSamples 2 (str "capital") (str "capital_samples.json");
       LogLoadedSamples 2 (str "greet") (str "hello.json");
       WarnNoPairs ]).
Proof. repeat split; vm_compute; reflexivity. Qed.

(* ===================================================================== *)
(** * Assertion validation: further properties                            *)
(* ===================================================================== *)

Lemma forallb_passed_false (f : jsstring -> AssertionResult) (l : list jsstring)
    (x : jsstring) :
  x ∈ l -> passed (f x) = false -> forallb passed (map f l) = false.
Proof.
  intros Hx Hf. apply list_elem_of_split in Hx as (l1 & l2 & ->).
  rewrite map_app, List.forallb_app. simpl. rewrite Hf.
  by rewrite andb_false_r.
Qed.

(** X1.  A string listed both in [should_contain] and in
    [should_not_contain] makes the case fail whatever the response is: one
    of its two outcomes always fails. *)
Theorem contradictory_assertions_never_pass (response_ : jsstring)
    (a : Assertions) (x : jsstring) :
  x ∈ listed (should_contain a) ->
  x ∈ listed (should_not_contain a) ->
  allAssertionsPassed (runAssertions response_ a) = false.
Proof.
  intros Hc Hn. unfold allAssertionsPassed. rewrite runAssertions_map.
  cbn [checked_should_contain checked_should_not_contain]. unfold every_passed.
  destruct (includes (toLowerCase response_) (toLowerCase x)) eqn:E.
  - rewrite (forallb_passed_false (check_should_not_contain response_) _ x Hn).
    + apply andb_false_r.
    + unfold check_should_not_contain. cbn [passed]. by rewrite E.
  - rewrite (forallb_passed_false (check_should_contain response_) _ x Hc).
    + reflexivity.
    + unfold check_should_contain. cbn [passed]. exact E.
Qed.

Lemma contradictory_assertions_never_pass_witness :
  let a := {| should_contain := Some [str "Paris"; str "capital"];
              should_not_contain := Some [str "capital"] |} in
  str "capital" ∈ listed (should_contain a) /\
  str "capital" ∈ listed (should_not_contain a) /\
  allAssertionsPassed (runAssertions (str "The capital is Paris") a) = false.
Proof.
  cbv zeta.
  assert (H1 : str "capital" ∈ [str "Paris"; str "capital"])
    by (apply elem_of_cons; right; apply elem_of_cons; by left).
  assert (H2 : str "capital" ∈ [str "capital"])
    by (apply elem_of_cons; by left).
  split; [exact H1|]. split; [exact H2|].
  exact (contradictory_assertions_never_pass (str "The capital is Paris")
           {| should_contain := Some [str "Paris"; str "capital"];
              should_not_contain := Some [str "capital"] |}
           (str "capital") H1 H2).
Defined.








(* ===================================================================== *)
(** * Template processing: further properties                             *)
(* ===================================================================== *)

Lemma replace_RegExp_g_shape (env : Env) (source rep processed : jsstring)
    (w : World) :
  exists r, replace_RegExp_g env source rep processed w = (r, w, []).
Proof.
  unfold replace_RegExp_g.
  destruct (parse_pattern 0 source); eexists; reflexivity.
Qed.

Lemma substitute_all_cons (env : Env) (kv : jsstring * JsValue)
    (variables : list (jsstring * JsValue)) (template_ : jsstring) (w : World) :
  substitute_all env (kv :: variables) template_ w =
  match replace_RegExp_g env (placeholder_of kv.1) (String_of kv.2) template_ w with
  | (Ok t, _, _) => substitute_all env variables t w
  | (Throw e, _, _) => (Throw e, w, [])
  end.
Proof.
  unfold substitute_all. cbn [for_of]. unfold bind.
  destruct (replace_RegExp_g_shape env (placeholder_of kv.1) (String_of kv.2)
              template_ w) as [r ->].
  destruct r as [t|e]; [|done].
  by destruct (for_of variables _ t w) as [[? ?] ?].
Qed.

(** The loop reads neither the clock nor the service and writes nothing. *)
Lemma substitute_all_shape (env : Env) (variables : list (jsstring * JsValue))
    (template_ : jsstring) (w : World) :
  exists r, substitute_all env variables template_ w = (r, w, []).
Proof.
  revert template_; induction variables as [|kv vs IH]; intros t.
  - by exists (Ok t).
  - rewrite substitute_all_cons.
    destruct (replace_RegExp_g_shape env (placeholder_of kv.1) (String_of kv.2) t w)
      as [[t'|e] ->]; [apply IH | by exists (Throw e)].
Qed.

Lemma processTemplate_eq (env : Env) (template_ : jsstring)
    (variables : list (jsstring * JsValue)) (w : World) :
  processTemplate env template_ variables w =
  match substitute_all env variables template_ w with
  | (Ok text, _, _) => (Ok text, w, placeholder_warning text)
  | (Throw e, _, _) => (Throw e, w, [])
  end.
Proof.
  unfold processTemplate. fold (substitute_all env variables template_).
  unfold bind at 1.
  destruct (substitute_all_shape env variables template_ w) as [[text|e] ->];
    [|done].
  unfold placeholder_warning.
  by destruct (match_global unsubstituted_re 0 text).
Qed.

Lemma placeholder_of_length (k : jsstring) :
  length (placeholder_of k) = length k + 4.
Proof. unfold placeholder_of. rewrite !length_app. simpl. lia. Qed.

(** Every string found by the scan is a placeholder of the scanned text. *)
Lemma match_global_items (s : jsstring) :
  forall (skip : nat) (item : jsstring),
    item ∈ match_global unsubstituted_re skip s ->
    exists k, item = placeholder_of k /\ placeholder_in k s.
Proof.
  induction s as [|c s IH]; intros skip item.
  - destruct skip; cbn; intros H; by apply elem_of_nil in H.
  - destruct skip as [|skip].
    + cbn [match_global].
      destruct (match_here unsubstituted_re (c :: s)) as [n|] eqn:E.
      * intros [->|Hin]%elem_of_cons.
        -- apply match_here_unsubstituted_Some in E
             as (k & post & Hs & Hk & Hclose & ->).
           exists k. split.
           ++ rewrite Hs, <- placeholder_of_length. by rewrite take_app_length.
           ++ split; [done|]. split; [done|]. exists [], post. by rewrite Hs.
        -- apply IH in Hin as (k & -> & Hk). exists k. split; [done|].
           apply placeholder_in_cons. by right.
      * intros Hin. apply IH in Hin as (k & -> & Hk). exists k. split; [done|].
        apply placeholder_in_cons. by right.
    + cbn [match_global]. intros Hin.
      apply IH in Hin as (k & -> & Hk). exists k. split; [done|].
      apply placeholder_in_cons. by right.
Qed.

(** X4.  The warning about unsubstituted placeholders is written exactly
    when the rendered text still holds a placeholder, and every string it
    lists is a placeholder [{{k}}] that occurs in the rendered text.
    Rendering reads neither the clock nor the service, and a rendering
    that throws writes nothing. *)
Theorem warning_lists_remaining_placeholders (env : Env) (template_ : jsstring)
    (variables : list (jsstring * JsValue)) (w : World) :
  match processTemplate env template_ variables w with
  | (Ok text, w', out) =>
      w' = w /\
      ((no_placeholder text /\ out = []) \/
       (exists found,
           out = [WarnUnsubstituted found] /\ found <> [] /\
           ~ no_placeholder text /\
           Forall (fun item =>
                     exists k, item = placeholder_of k /\ placeholder_in k text)
                  found))
  | (Throw _, w', out) => w' = w /\ out = []
  end.
Proof.
  rewrite processTemplate_eq.
  destruct (substitute_all_shape env variables template_ w) as [[text|e] ->];
    [|done].
  split; [done|]. unfold placeholder_warning.
  destruct (match_global unsubstituted_re 0 text) as [|item found] eqn:E.
  - left. split; [|done]. by apply match_global_unsubstituted_nil.
  - right. exists (item :: found). split; [done|]. split; [done|]. split.
    + intros Hno. apply match_global_unsubstituted_nil in Hno. congruence.
    + apply Forall_forall. intros x Hx.
      apply (match_global_items text 0). rewrite E. by apply list_elem_of_In.
Qed.





Lemma substitute_all_rejected (env : Env) (variables : list (jsstring * JsValue))
    (kv : jsstring * JsValue) :
  kv ∈ variables ->
  parse_pattern 0 (placeholder_of kv.1) = Rejected ->
  forall (template_ : jsstring) (w : World),
    exists e, substitute_all env variables template_ w = (Throw e, w, []).
Proof.
  intros Hin Hrej. induction variables as [|x vs IH]; intros t w;
    [by apply elem_of_nil in Hin|].
  rewrite substitute_all_cons.
  destruct (replace_RegExp_g env (placeholder_of x.1) (String_of x.2) t w)
    as [[[t'|e] w1] o1] eqn:E; [|by exists e].
  apply elem_of_cons in Hin as [->|Hin]; [|by apply IH].
  unfold replace_RegExp_g in E. rewrite Hrej in E. discriminate.
Qed.

(** X6.  An input key from which [new RegExp] cannot build a pattern fails
    the whole test case, whatever the template says and even if the
    template never mentions the key: the case gets an error result (not
    passed, empty response, no assertion outcomes, an error message) and
    the service is not called for it. *)
Theorem rejected_key_fails_the_case (env : Env) (config : RunnerConfig)
    (p : PromptConfig) (results : list TestResult) (tc : TestCase) (w : World)
    (kv : jsstring * JsValue) :
  kv ∈ input tc ->
  parse_pattern 0 (placeholder_of kv.1) = Rejected ->
  exists r w' out,
    execute_case env config p results tc w = (Ok (results ++ [r]), w', out) /\
    calls w' = calls w /\
    error_shape r /\
    (exists msg, error r = Some msg /\ out = [LogCaseError (tc_name tc) msg]).
Proof.
  intros Hin Hrej. rewrite execute_case_eq. unfold case_outcome.
  rewrite processTemplate_eq.
  destruct (substitute_all_rejected env (input tc) kv Hin Hrej (template p)
              {| ticks := S (ticks w); calls := calls w |}) as [e ->].
  eexists _, _, _. split; [reflexivity|]. split; [reflexivity|].
  split; [by repeat split|]. by exists (thrown_message e).
Qed.

Lemma rejected_key_fails_the_case_witness :
  let tc := {| tc_name := str "paren";
               input := [(str "country", VStr (str "France"));
                         (str "note)", VStr (str "unused"))];
               assertions := {| should_contain := None;
                                should_not_contain := None |} |} in
  exists r w' out,
    execute_case echo_env no_override capital_prompt [] tc start
      = (Ok ([] ++ [r]), w', out) /\
    calls w' = calls start /\
    error_shape r /\
    (exists msg, error r = Some msg /\ out = [LogCaseError (tc_name tc) msg]).
Proof.
  cbv zeta.
  apply (rejected_key_fails_the_case echo_env no_override capital_prompt []
           _ start (str "note)", VStr (str "unused"))).
  - apply elem_of_cons; right. apply elem_of_cons; by left.
  - reflexivity.
Defined.

Lemma substitute_all_app (env : Env) (v1 v2 : list (jsstring * JsValue))
    (template_ : jsstring) (w : World) :
  substitute_all env (v1 ++ v2) template_ w =
  match substitute_all env v1 template_ w with
  | (Ok t, _, _) => substitute_all env v2 t w
  | (Throw e, _, _) => (Throw e, w, [])
  end.
Proof.
  revert template_; induction v1 as [|kv v1 IH]; intros t; [done|].
  change ((kv :: v1) ++ v2) with (kv :: (v1 ++ v2)).
  rewrite !substitute_all_cons.
  destruct (replace_RegExp_g env (placeholder_of kv.1) (String_of kv.2) t w)
    as [[[t'|e] w1] o1]; [apply IH | done].
Qed.

(** X7.  Rendering composes: substituting the variables [v1 ++ v2] is
    substituting [v1] and then [v2] in what that gave, so later variables
    see the text that earlier values brought in; and when [v1] already
    makes the rendering throw, so does [v1 ++ v2]. *)
Theorem processTemplate_splits (env : Env) (template_ : jsstring)
    (v1 v2 : list (jsstring * JsValue)) (w : World) :
  match value (processTemplate env template_ v1 w) with
  | Ok text =>
      processTemplate env template_ (v1 ++ v2) w = processTemplate env text v2 w
  | Throw e =>
      value (processTemplate env template_ (v1 ++ v2) w) = Throw e
  end.
Proof.
  rewrite !processTemplate_eq, substitute_all_app.
  destruct (substitute_all_shape env v1 template_ w) as [[text|e] ->];
    unfold value; cbn [fst]; [|done].
  by rewrite processTemplate_eq.
Qed.

(* ===================================================================== *)
(** * Test execution: further properties                                  *)
(* ===================================================================== *)

Lemma reports_app (o1 o2 : list Event) : reports (o1 ++ o2) = reports o1 ++ reports o2.
Proof. unfold reports. apply omap_app. Qed.

Lemma reports_quiet (out : list Event) :
  Forall (fun ev => execution_event ev = false) out -> reports out = [].
Proof.
  induction 1 as [|ev out Hev _ IH]; [done|].
  unfold reports in *. by destruct ev.
Qed.

Lemma placeholder_warning_reports (text : jsstring) :
  reports (placeholder_warning text) = [].
Proof.
  unfold placeholder_warning. by destruct (match_global unsubstituted_re 0 text).
Qed.

(** One pass of the loop: what it leaves behind. *)
Lemma case_outcome_facts (env : Env) (config : RunnerConfig) (p : PromptConfig)
    (tc : TestCase) (w : World) (r : TestResult) (w' : World) (out : list Event) :
  case_outcome env config p tc w = (r, w', out) ->
  ticks w' = S (S (ticks w)) /\
  (calls w <= calls w' <= S (calls w)) /\
  r_prompt_name r = name p /\
  model_used r = model_for config p /\
  execution_time_ms r = measured env w 0 /\
  consistent_with tc r /\
  reports out = [].
Proof.
  unfold case_outcome, measured. rewrite processTemplate_eq.
  replace (ticks w + 2 * 0 + 1) with (S (ticks w)) by lia.
  replace (ticks w + 2 * 0) with (ticks w) by lia.
  destruct (substitute_all_shape env (input tc) (template p)
              {| ticks := S (ticks w); calls := calls w |}) as [[text|e] ->].
  - destruct (value (executePrompt env text p (modelOverride config) _))
      as [response_|e]; intros [= <- <- <-]; cbn;
      rewrite ?reports_app, ?placeholder_warning_reports;
      repeat split; try done; lia.
  - intros [= <- <- <-]; cbn. repeat split; try done; lia.
Qed.

Lemma measured_shift (env : Env) (w w1 : World) (i : nat) :
  ticks w1 = S (S (ticks w)) -> measured env w1 i = measured env w (S i).
Proof.
  intros H. unfold measured. rewrite H. f_equal; f_equal; lia.
Qed.

Lemma cases_outcome_facts (env : Env) (config : RunnerConfig) (p : PromptConfig)
    (cases : list TestCase) :
  forall (w : World) (rs : list TestResult) (w' : World) (out : list Event),
    cases_outcome env config p cases w = (rs, w', out) ->
    ticks w' = ticks w + 2 * length cases /\
    (calls w <= calls w' <= calls w + length cases) /\
    Forall (fun r => r_prompt_name r = name p /\
                     model_used r = model_for config p) rs /\
    map execution_time_ms rs = map (measured env w) (seq 0 (length cases)) /\
    Forall2 consistent_with cases rs /\
    reports out = [].
Proof.
  induction cases as [|tc cases IH]; intros w rs w' out.
  - intros [= <- <- <-]. cbn. repeat split; try done; try lia; constructor.
  - cbn [cases_outcome].
    destruct (case_outcome env config p tc w) as [[r w1] o1] eqn:E1.
    destruct (cases_outcome env config p cases w1) as [[rs' w2] o2] eqn:E2.
    intros [= <- <- <-].
    apply case_outcome_facts in E1 as (Ht & Hc & Hn & Hm & Hms & Hcons & Hrep).
    apply IH in E2 as (Ht' & Hc' & Hall & Htimes & Hcons' & Hrep').
    cbn [length]. split; [lia|]. split; [lia|].
    split; [by constructor|]. split; [|split; [by constructor|]].
    + cbn [seq map]. rewrite Hms. f_equal.
      rewrite Htimes, <- seq_shift, map_map.
      apply map_ext. intros i. by apply measured_shift.
    + by rewrite reports_app, Hrep, Hrep'.
Qed.


(** X9.  Every result of [executeTestPair] is consistent with its case: it
    carries the case's name, and either it records an error and then is
    not passed, with an empty response and no assertion outcomes, or it
    records none and then its outcomes are those of [runAssertions] on the
    recorded response and [passed] is their conjunction. *)
Theorem results_are_consistent_with_their_cases (env : Env)
    (config : RunnerConfig) (pr : Pair) (w : World) :
  exists rs,
    value (executeTestPair env config pr w) = Ok rs /\
    Forall2 consistent_with (test_cases (samples pr)) rs.
Proof.
  rewrite executeTestPair_eq.
  destruct (cases_outcome env config (prompt pr) (test_cases (samples pr)) w)
    as [[rs w'] out] eqn:E.
  exists rs. split; [done|].
  by apply cases_outcome_facts in E as (_ & _ & _ & _ & Hcons & _).
Qed.

Lemma measured_nonneg (env : Env) (w : World) (i : nat) :
  (forall a b, a <= b -> (date_now env a <= date_now env b)%Z) ->
  (0 <= measured env w i)%Z.
Proof.
  intros Hmono. unfold measured.
  specialize (Hmono (ticks w + 2 * i) (ticks w + 2 * i + 1)). lia.
Qed.

(** X10.  With a clock that never goes backwards, no result of
    [executeTestPair] has a negative execution time. *)
Theorem execution_times_are_not_negative (env : Env) (config : RunnerConfig)
    (pr : Pair) (w : World) :
  (forall a b, a <= b -> (date_now env a <= date_now env b)%Z) ->
  exists rs,
    value (executeTestPair env config pr w) = Ok rs /\
    Forall (fun r => (0 <= execution_time_ms r)%Z) rs.
Proof.
  intros Hmono. rewrite executeTestPair_eq.
  destruct (cases_outcome env config (prompt pr) (test_cases (samples pr)) w)
    as [[rs w'] out] eqn:E.
  exists rs. split; [done|].
  apply cases_outcome_facts in E as (_ & _ & _ & Htimes & _ & _).
  apply Forall_forall. intros r Hr.
  apply (in_map execution_time_ms) in Hr. rewrite Htimes in Hr.
  apply in_map_iff in Hr as (i & <- & _). by apply measured_nonneg.
Qed.

Lemma execution_times_are_not_negative_witness :
  (forall a b, a <= b -> (date_now echo_env a <= date_now echo_env b)%Z) /\
  exists rs,
    value (executeTestPair echo_env no_override capital_pair start) = Ok rs /\
    Forall (fun r => (0 <= execution_time_ms r)%Z) rs.
Proof.
  assert (H : forall a b, a <= b ->
                (date_now echo_env a <= date_now echo_env b)%Z)
    by (intros a b Hab; cbn; lia).
  split; [exact H|].
  exact (execution_times_are_not_negative echo_env no_override capital_pair
           start H).
Defined.

Lemma replace_RegExp_g_any_world (env : Env) (source rep processed : jsstring)
    (w w0 : World) :
  value (replace_RegExp_g env source rep processed w) =
  value (replace_RegExp_g env source rep processed w0).
Proof.
  unfold replace_RegExp_g. by destruct (parse_pattern 0 source).
Qed.

Lemma substitute_all_any_world (env : Env)
    (variables : list (jsstring * JsValue)) (w w0 : World) :
  forall template_ : jsstring,
    value (substitute_all env variables template_ w) =
    value (substitute_all env variables template_ w0).
Proof.
  induction variables as [|kv vs IH]; intros t; [done|].
  rewrite !substitute_all_cons.
  pose proof (replace_RegExp_g_any_world env (placeholder_of kv.1)
                (String_of kv.2) t w w0) as H.
  destruct (replace_RegExp_g env _ _ t w) as [[[t1|e1] ?] ?],
           (replace_RegExp_g env _ _ t w0) as [[[t2|e2] ?] ?];
    unfold value in H; cbn [fst] in H; try discriminate.
  - injection H as ->. apply IH.
  - by injection H as ->.
Qed.

(** What rendering gives does not depend on the clock or on the number of
    service calls made so far. *)
Lemma processTemplate_any_world (env : Env) (template_ : jsstring)
    (variables : list (jsstring * JsValue)) (w w0 : World) :
  value (processTemplate env template_ variables w) =
  value (processTemplate env template_ variables w0).
Proof.
  rewrite !processTemplate_eq.
  pose proof (substitute_all_any_world env variables w w0 template_) as H.
  destruct (substitute_all env variables template_ w) as [[[t1|e1] ?] ?],
           (substitute_all env variables template_ w0) as [[[t2|e2] ?] ?];
    unfold value in *; cbn [fst] in *; congruence.
Qed.

(** One pass of the loop when rendering succeeds: the request sent and the
    result recorded. *)
Lemma case_outcome_rendered (env : Env) (config : RunnerConfig)
    (p : PromptConfig) (tc : TestCase) (w : World) (text : jsstring) :
  value (processTemplate env (template p) (input tc) w) = Ok text ->
  (case_outcome env config p tc w).1 =
  (match chat_create env (calls w) (request_for config p text) with
   | Ok content =>
       passed_result config p tc (measured env w 0) (str_or content [])
   | Throw e =>
       failed_result config p tc (measured env w 0)
         (ErrorObject (str "OpenAI API error: " ++ thrown_message e))
   end,
   {| ticks := S (S (ticks w)); calls := S (calls w) |}).
Proof.
  intros Hv.
  rewrite (processTemplate_any_world env _ _ w
             {| ticks := S (ticks w); calls := calls w |}) in Hv.
  unfold case_outcome, measured.
  replace (ticks w + 2 * 0 + 1) with (S (ticks w)) by lia.
  replace (ticks w + 2 * 0) with (ticks w) by lia.
  destruct (processTemplate env (template p) (input tc) _) as [[[t|e] w1] o1];
    unfold value in Hv; cbn [fst] in Hv; [|discriminate].
  injection Hv as ->. rewrite executePrompt_eq. unfold value. cbn [fst calls].
  fold (model_for config p). fold (request_for config p text).
  by destruct (chat_create env (calls w) (request_for config p text)).
Qed.

(** X11.  When the service refuses the request of a case, exactly one call
    is consumed, and the case gets an error result whose message is the
    service's message behind the prefix [OpenAI API error: ]. *)
Theorem service_failure_is_recorded_with_prefix (env : Env)
    (config : RunnerConfig) (p : PromptConfig) (results : list TestResult)
    (tc : TestCase) (w : World) (text : jsstring) (e : Thrown) :
  value (processTemplate env (template p) (input tc) w) = Ok text ->
  chat_create env (calls w) (request_for config p text) = Throw e ->
  exists r w' out,
    execute_case env config p results tc w = (Ok (results ++ [r]), w', out) /\
    calls w' = S (calls w) /\
    error r = Some (str "OpenAI API error: " ++ thrown_message e) /\
    error_shape r.
Proof.
  intros Hv He. rewrite execute_case_eq.
  pose proof (case_outcome_rendered env config p tc w text Hv) as H.
  rewrite He in H.
  destruct (case_outcome env config p tc w) as [[r w'] out].
  cbn [fst] in H. injection H as -> ->.
  eexists _, _, _. split; [reflexivity|]. by repeat split.
Qed.

Lemma service_failure_is_recorded_with_prefix_witness :
  let w := {| ticks := 2; calls := 1 |} in
  exists r w' out,
    execute_case rate_limited_env no_override capital_prompt [] case_spain w
      = (Ok ([] ++ [r]), w', out) /\
    calls w' = S (calls w) /\
    error r = Some (str "OpenAI API error: " ++ str "rate limit exceeded") /\
    error_shape r.
Proof.
  cbv zeta.
  exact (service_failure_is_recorded_with_prefix rate_limited_env no_override
           capital_prompt [] case_spain {| ticks := 2; calls := 1 |}
           (str "What is the capital of Spain?")
           (ErrorObject (str "rate limit exceeded")) eq_refl eq_refl).
Defined.

Lemma includes_empty_response (t : jsstring) : includes [] t = true <-> t = [].
Proof.
  split.
  - intros H. apply includes_spec in H. by apply occurs_nil.
  - intros ->. apply includes_nil.
Qed.

Lemma toLowerCase_nil (x : jsstring) : toLowerCase x = [] <-> x = [].
Proof. by destruct x. Qed.

Lemma empty_response_verdict (a : Assertions) :
  allAssertionsPassed (runAssertions [] a) = true <->
  Forall (fun x => x = []) (listed (should_contain a)) /\
  Forall (fun x => x <> []) (listed (should_not_contain a)).
Proof.
  unfold allAssertionsPassed. rewrite runAssertions_map.
  cbn [checked_should_contain checked_should_not_contain].
  rewrite andb_true_iff, !every_passed_Forall, !Forall_map.
  assert (H1 : forall x,
    passed (check_should_contain [] x) = true <-> x = []).
  { intros x. unfold check_should_contain. cbn [passed].
    change (toLowerCase []) with (@nil ascii).
    by rewrite includes_empty_response, toLowerCase_nil. }
  assert (H2 : forall x,
    passed (check_should_not_contain [] x) = true <-> x <> []).
  { intros x. unfold check_should_not_contain. cbn [passed].
    change (toLowerCase []) with (@nil ascii).
    rewrite negb_true_iff, <- not_true_iff_false.
    by rewrite includes_empty_response, toLowerCase_nil. }
  split; intros [Hc Hn]; split;
    (eapply Forall_impl; [|eassumption]); intros x Hx; cbn in *;
    by (apply H1 || apply H2).
Qed.

(** X12.  When the service answers without content (no content at all, or
    the empty string), the case is not an error: the recorded response is
    the empty string, and the case passes exactly when every
    [should_contain] string is empty and no [should_not_contain] string
    is. *)
Theorem missing_content_is_an_empty_response (env : Env)
    (config : RunnerConfig) (p : PromptConfig) (results : list TestResult)
    (tc : TestCase) (w : World) (text : jsstring) (content : option jsstring) :
  value (processTemplate env (template p) (input tc) w) = Ok text ->
  chat_create env (calls w) (request_for config p text) = Ok content ->
  str_falsy content = true ->
  exists r w' out,
    execute_case env config p results tc w = (Ok (results ++ [r]), w', out) /\
    response r = [] /\
    error r = None /\
    (r_passed r = true <->
       Forall (fun x => x = []) (listed (should_contain (assertions tc))) /\
       Forall (fun x => x <> []) (listed (should_not_contain (assertions tc)))).
Proof.
  intros Hv Hc Hempty. rewrite execute_case_eq.
  pose proof (case_outcome_rendered env config p tc w text Hv) as H.
  rewrite Hc in H.
  assert (Hr : str_or content [] = []) by (by destruct content as [[|? ?]|]).
  rewrite Hr in H.
  destruct (case_outcome env config p tc w) as [[r w'] out].
  cbn [fst] in H. injection H as -> ->.
  eexists _, _, _. split; [reflexivity|]. split; [done|]. split; [done|].
  apply empty_response_verdict.
Qed.

Lemma missing_content_is_an_empty_response_witness :
  exists r w' out,
    execute_case silent_env no_override capital_prompt [] case_spain start
      = (Ok ([] ++ [r]), w', out) /\
    response r = [] /\
    error r = None /\
    (r_passed r = true <->
       Forall (fun x => x = [])
         (listed (should_contain (assertions case_spain))) /\
       Forall (fun x => x <> [])
         (listed (should_not_contain (assertions case_spain)))).
Proof.
  exact (missing_content_is_an_empty_response silent_env no_override
           capital_prompt [] case_spain start
           (str "What is the capital of Spain?") None eq_refl eq_refl eq_refl).
Defined.

(* ===================================================================== *)
(** * The run: further properties                                         *)
(* ===================================================================== *)

Lemma measured_offset (env : Env) (w w1 : World) (n i : nat) :
  ticks w1 = ticks w + 2 * n -> measured env w1 i = measured env w (n + i).
Proof.
  intros H. unfold measured. rewrite H. f_equal; f_equal; lia.
Qed.

(** The loop over the pairs: what it leaves behind. *)
Lemma pairs_outcome_facts (env : Env) (config : RunnerConfig)
    (testPairs : list Pair) :
  forall (w : World) (chunks : list (list TestResult)) (w' : World)
         (out : list Event),
    pairs_outcome env config testPairs w = (chunks, w', out) ->
    ticks w' = ticks w + 2 * length (concat chunks) /\
    (calls w <= calls w' <= calls w + length (concat chunks)) /\
    map execution_time_ms (concat chunks) =
      map (measured env w) (seq 0 (length (concat chunks))) /\
    Forall (fun r => exists tc, consistent_with tc r) (concat chunks) /\
    reports out = [].
Proof.
  induction testPairs as [|pr rest IH]; intros w chunks w' out.
  - intros [= <- <- <-]. cbn. repeat split; try done; lia.
  - cbn [pairs_outcome].
    destruct (cases_outcome env config (prompt pr) (test_cases (samples pr)) w)
      as [[rs w1] o1] eqn:E1.
    destruct (pairs_outcome env config rest w1) as [[chunks' w2] o2] eqn:E2.
    intros [= <- <- <-].
    pose proof (cases_outcome_length env config (prompt pr)
                  (test_cases (samples pr)) w) as Hlen.
    rewrite E1 in Hlen. cbn [fst] in Hlen.
    apply cases_outcome_facts in E1 as (Ht & Hc & _ & Htimes & Hcons & Hrep).
    apply IH in E2 as (Ht' & Hc' & Htimes' & Hcons' & Hrep').
    rewrite <- Hlen in Ht, Hc, Htimes.
    cbn [concat]. rewrite length_app.
    split; [lia|]. split; [lia|]. split; [|split].
    + rewrite map_app, Htimes, Htimes', seq_app, map_app. f_equal.
      assert (Hs : seq (0 + length rs) (length (concat chunks')) =
                   map (fun i => length rs + i)
                       (seq 0 (length (concat chunks')))).
      { rewrite Nat.add_0_l. symmetry.
        etransitivity; [apply (fmap_add_seq (length rs) 0)|].
        by rewrite Nat.add_0_r. }
      rewrite Hs, map_map. apply map_ext. intros i. by apply measured_offset.
    + apply Forall_app. split; [|done].
      clear -Hcons. induction Hcons as [|tc r cases rs' H _ IH'];
        [constructor|]. constructor; [by exists tc | done].
    + change (reports (LogExecuting (name (prompt pr)) :: o1 ++ o2))
        with (reports (o1 ++ o2)).
      by rewrite reports_app, Hrep, Hrep'.
Qed.

Lemma missing_warning_reports (f : option jsstring)
    (samples_ : gmap jsstring SampleData) (prompts : list PromptConfig) :
  reports (flat_map (missing_warning f samples_) prompts) = [].
Proof.
  induction prompts as [|p ps IH]; [done|].
  cbn [flat_map]. rewrite reports_app, IH. unfold missing_warning.
  destruct (passes_filter f p); [|done]. by destruct (samples_ !! name p).
Qed.

(** The run, outcome by outcome. *)
Lemma run_outcome_facts (env : Env) (config : RunnerConfig) (w : World) :
  match run env config w with
  | (Ok rs, w', out) =>
      (calls w <= calls w' <= calls w + length rs) /\
      Forall (fun r => exists tc, consistent_with tc r) rs /\
      ((reports out = [rs] /\ ticks w' = ticks w + 2 * length rs + 2 /\
        map execution_time_ms rs =
          map (measured env {| ticks := S (ticks w); calls := calls w |})
              (seq 0 (length rs)) /\
        exists n before,
          out = before ++
                [Reported rs;
                 LogTotalTime (date_now env (ticks w + 2 * length rs + 1)
                               - date_now env (ticks w))] /\
          LogFound (S n) ∈ before) \/
       (rs = [] /\ reports out = [] /\ w' = {| ticks := S (ticks w); calls := calls w |} /\
        exists before, out = before ++ [WarnNoPairs]))
  | (Throw e, w', out) =>
      w' = {| ticks := S (ticks w); calls := calls w |} /\
      reports out = [] /\
      exists before, out = before ++ [ErrorFatal (thrown_message e)]
  end.
Proof.
  rewrite run_eq. cbv zeta.
  destruct (loadPrompts_quiet env config
              {| ticks := S (ticks w); calls := calls w |})
    as (r1 & o1 & -> & Hq1).
  apply reports_quiet in Hq1.
  destruct r1 as [prompts|e].
  2:{ split; [done|]. split.
      - change (reports (LogStarting :: o1 ++ [ErrorFatal (thrown_message e)]))
          with (reports (o1 ++ [ErrorFatal (thrown_message e)])).
        by rewrite reports_app, Hq1.
      - by exists (LogStarting :: o1). }
  destruct (loadSamples_quiet env config
              {| ticks := S (ticks w); calls := calls w |})
    as (r2 & o2 & -> & Hq2).
  apply reports_quiet in Hq2.
  destruct r2 as [samples_|e].
  2:{ split; [done|]. split.
      - change (reports (LogStarting :: (o1 ++ o2) ++ [ErrorFatal (thrown_message e)]))
          with (reports ((o1 ++ o2) ++ [ErrorFatal (thrown_message e)])).
        by rewrite !reports_app, Hq1, Hq2.
      - by exists (LogStarting :: o1 ++ o2). }
  rewrite matchPromptsWithSamples_eq.
  pose proof (missing_warning_reports (filter config) samples_ prompts) as Hq3.
  set (o3 := flat_map (missing_warning (filter config) samples_) prompts) in *.
  destruct (omap (matched_pair (filter config) samples_) prompts)
    as [|pr rest].
  { split; [cbn; lia|]. split; [constructor|]. right.
    split; [done|]. split.
    - change (reports (LogStarting :: o1 ++ o2 ++ o3 ++ [WarnNoPairs]))
        with (reports (o1 ++ o2 ++ o3 ++ [WarnNoPairs])).
      by rewrite !reports_app, Hq1, Hq2, Hq3.
    - split; [done|]. exists (LogStarting :: o1 ++ o2 ++ o3).
      cbn [app]. by rewrite <- !app_assoc. }
  rewrite execute_all_eq.
  destruct (pairs_outcome env config (pr :: rest)
              {| ticks := S (ticks w); calls := calls w |})
    as [[chunks w4] o4] eqn:E.
  apply pairs_outcome_facts in E as (Ht & Hc & Htimes & Hcons & Hq4).
  cbn [ticks calls] in *.
  split; [lia|]. split; [done|]. left. split; [|split; [|split]].
  - match goal with |- reports (LogStarting :: ?l) = _ =>
      change (reports (LogStarting :: l)) with (reports l) end.
    rewrite !reports_app, Hq1, Hq2, Hq3. cbn [app].
    match goal with |- reports (LogFound ?n :: ?l) = _ =>
      change (reports (LogFound n :: l)) with (reports l) end.
    by rewrite reports_app, Hq4.
  - lia.
  - done.
  - exists (length rest),
      (LogStarting :: o1 ++ o2 ++ o3 ++ LogFound (S (length rest)) :: o4).
    split.
    + cbn [app length]. rewrite Ht.
      replace (S (ticks w) + 2 * length (concat chunks))
        with (ticks w + 2 * length (concat chunks) + 1) by lia.
      f_equal. by rewrite <- !app_assoc.
    + apply elem_of_cons; right. rewrite !elem_of_app.
      right; right; right. apply elem_of_cons; by left.
Qed.

(** X13.  A run hands its results to the reporter at most once: when it
    returns after executing pairs, the reporter was called exactly once,
    with the very list the run returns, as the last thing before the line
    with the total time; when no pair matched, it returns the empty list
    and the reporter was not called; when it throws, the reporter was not
    called and the last line written is the fatal error. *)
Theorem reporter_is_called_at_most_once (env : Env) (config : RunnerConfig)
    (w : World) :
  match run env config w with
  | (Ok rs, _, out) =>
      (reports out = [rs] /\
       exists before ms, out = before ++ [Reported rs; LogTotalTime ms]) \/
      (rs = [] /\ reports out = [] /\ exists before, out = before ++ [WarnNoPairs])
  | (Throw e, _, out) =>
      reports out = [] /\
      exists before, out = before ++ [ErrorFatal (thrown_message e)]
  end.
Proof.
  pose proof (run_outcome_facts env config w) as H.
  destruct (run env config w) as [[[rs|e] w'] out].
  - destruct H as (_ & _ & [(Hrep & _ & _ & n & before & -> & _)
                           |(-> & Hrep & _ & before & ->)]).
    + left. split; [done|]. by eexists _, _.
    + right. split; [done|]. split; [done|]. by exists before.
  - by destruct H as (_ & Hrep & Hlast).
Qed.


(* ===================================================================== *)
(** * Loading and matching: further properties                            *)
(* ===================================================================== *)

Lemma prompt_file_outcome_loaded (env : Env) (config : RunnerConfig)
    (prompts : list PromptConfig) (file : jsstring) :
  (prompt_file_outcome env config prompts file).1 =
    prompts ++ match loaded_prompt env config file with
               | Some p => [p]
               | None => []
               end /\
  length (prompt_file_outcome env config prompts file).2 = 1.
Proof.
  unfold prompt_file_outcome, loaded_prompt.
  destruct (read_yaml env (path_join env (promptDir config) file)) as [doc|e];
    [destruct (str_falsy (y_name doc) || str_falsy (y_template doc))|];
    cbn; by rewrite ?app_nil_r.
Qed.

Lemma prompt_files_outcome_loaded (env : Env) (config : RunnerConfig)
    (files : list jsstring) :
  forall prompts : list PromptConfig,
    (prompt_files_outcome env config files prompts).1 =
      prompts ++ omap (loaded_prompt env config) files /\
    length (prompt_files_outcome env config files prompts).2 = length files.
Proof.
  induction files as [|file files IH]; intros prompts.
  - cbn. by rewrite app_nil_r.
  - cbn [prompt_files_outcome omap].
    destruct (prompt_file_outcome_loaded env config prompts file) as [H1 H2].
    destruct (prompt_file_outcome env config prompts file) as [prompts1 out1].
    specialize (IH prompts1).
    destruct (prompt_files_outcome env config files prompts1) as [prompts2 out2].
    cbn [fst snd] in *. destruct IH as [-> Hlen]. subst prompts1.
    rewrite length_app, H2, Hlen. split; [|done].
    rewrite <- app_assoc. f_equal.
    change (list_omap jsstring PromptConfig (loaded_prompt env config)
              (file :: files))
      with (match loaded_prompt env config file with
            | Some p => p :: omap (loaded_prompt env config) files
            | None => omap (loaded_prompt env config) files
            end).
    by destruct (loaded_prompt env config file).
Qed.

Lemma loaded_prompt_named (env : Env) (config : RunnerConfig)
    (file : jsstring) (p : PromptConfig) :
  loaded_prompt env config file = Some p -> name p <> [] /\ template p <> [].
Proof.
  unfold loaded_prompt.
  destruct (read_yaml env (path_join env (promptDir config) file)) as [doc|e];
    [|done].
  destruct (str_falsy (y_name doc)) eqn:En; [done|].
  destruct (str_falsy (y_template doc)) eqn:Et; [done|].
  cbn [orb]. intros [= <-]. cbn [name template].
  destruct (y_name doc) as [[|? ?]|]; try discriminate.
  destruct (y_template doc) as [[|? ?]|]; try discriminate.
  done.
Qed.

(** X15.  When the prompt directory can be listed and holds at least one
    YAML file, [loadPrompts] returns the prompts of the valid files among
    them, in the order of the listing: a file that cannot be parsed or
    lacks a name or a template is skipped and takes no other file with
    it.  Every prompt returned has a non-empty name and a non-empty
    template, and one line is written per YAML file. *)
Theorem loadPrompts_keeps_the_valid_files (env : Env) (config : RunnerConfig)
    (w : World) (entries : list jsstring) :
  existsSync env (promptDir config) = true ->
  readdirSync env (promptDir config) = Ok entries ->
  List.filter is_yaml entries <> [] ->
  exists out,
    loadPrompts env config w =
      (Ok (omap (loaded_prompt env config) (List.filter is_yaml entries)), w, out) /\
    Forall (fun p => name p <> [] /\ template p <> [])
      (omap (loaded_prompt env config) (List.filter is_yaml entries)) /\
    length out = length (List.filter is_yaml entries).
Proof.
  intros Hex Hdir Hyaml. rewrite loadPrompts_eq, Hex, Hdir.
  destruct (List.filter is_yaml entries) as [|file files]; [done|].
  destruct (prompt_files_outcome_loaded env config (file :: files) [])
    as [Hp Hlen].
  destruct (prompt_files_outcome env config (file :: files) [])
    as [prompts out]. cbn [fst snd] in *. subst prompts.
  exists out. split; [done|]. split; [|done].
  apply Forall_forall. intros p Hp.
  apply list_elem_of_In, list_elem_of_omap in Hp as (f & _ & Hf).
  by apply loaded_prompt_named in Hf.
Qed.

Lemma loadPrompts_keeps_the_valid_files_witness :
  exists out,
    loadPrompts disk_env no_override start =
      (Ok [capital_prompt; greet_prompt], start, out) /\
    Forall (fun p => name p <> [] /\ template p <> [])
      [capital_prompt; greet_prompt] /\
    length out = 3.
Proof.
  exact (loadPrompts_keeps_the_valid_files disk_env no_override start
           [str "capital.yaml"; str "notes.txt"; str "broken.yaml"; str "greet.yml"]
           eq_refl eq_refl ltac:(discriminate)).
Defined.






Lemma matched_pair_name (f : option jsstring)
    (samples_ : gmap jsstring SampleData) (p : PromptConfig) (pr : Pair) :
  matched_pair f samples_ p = Some pr ->
  prompt pr = p /\ passes_filter f p = true /\
  samples_ !! name p = Some (samples pr).
Proof.
  unfold matched_pair. destruct (passes_filter f p); [|done].
  destruct (samples_ !! name p) as [s|]; [|done]. by intros [= <-].
Qed.

Lemma omap_cons {A B} (f : A -> option B) (x : A) (xs : list A) :
  omap f (x :: xs) =
  match f x with
  | Some y => y :: omap f xs
  | None => omap f xs
  end.
Proof. reflexivity. Qed.

Lemma no_pair_without_the_name (c : ascii) (f : jsstring)
    (samples_ : gmap jsstring SampleData) (prompts : list PromptConfig) :
  (c :: f) ∉ map name prompts ->
  omap (matched_pair (Some (c :: f)) samples_) prompts = [].
Proof.
  induction prompts as [|p ps IH]; [done|].
  cbn [map]. intros Hnot.
  apply not_elem_of_cons in Hnot as [Hp Hps].
  rewrite omap_cons. unfold matched_pair at 1, passes_filter.
  rewrite bool_decide_eq_false_2 by done. by apply IH.
Qed.

(** X17.  With a non-empty filter every pair is for a prompt of exactly
    that name, so when the prompt names are distinct the filter selects at
    most one pair. *)
Theorem filter_selects_at_most_one_prompt (config : RunnerConfig)
    (prompts : list PromptConfig) (samples_ : gmap jsstring SampleData)
    (w : World) (c : ascii) (f : jsstring) :
  filter config = Some (c :: f) ->
  NoDup (map name prompts) ->
  exists pairs,
    value (matchPromptsWithSamples config prompts samples_ w) = Ok pairs /\
    Forall (fun pr => name (prompt pr) = c :: f) pairs /\
    length pairs <= 1.
Proof.
  intros Hf Hnd. rewrite matchPromptsWithSamples_eq, Hf.
  eexists. split; [reflexivity|]. split.
  - apply Forall_forall. intros pr Hpr.
    apply list_elem_of_In, list_elem_of_omap in Hpr as (p & _ & Hp).
    apply matched_pair_name in Hp as (-> & Hpass & _).
    unfold passes_filter in Hpass. by apply bool_decide_eq_true in Hpass.
  - induction prompts as [|p ps IH]; [cbn; lia|].
    cbn [map] in Hnd. apply list.NoDup_cons in Hnd as [Hp Hps].
    rewrite omap_cons.
    destruct (matched_pair (Some (c :: f)) samples_ p) as [pr|] eqn:E;
      [|by apply IH].
    apply matched_pair_name in E as (_ & Hpass & _).
    unfold passes_filter in Hpass. apply bool_decide_eq_true in Hpass.
    rewrite Hpass in Hp.
    rewrite (no_pair_without_the_name c f samples_ ps Hp). cbn. lia.
Qed.

Lemma filter_selects_at_most_one_prompt_witness :
  let config := {| promptDir := str "prompts"; samplesDir := str "samples";
                   modelOverride := None; filter := Some (str "greet") |} in
  let samples_ : gmap jsstring SampleData :=
    <[str "greet" := {| prompt_name := None; test_cases := [case_ann] |}]>
    (<[str "capital" := {| prompt_name := None; test_cases := [case_peru] |}]> ∅) in
  exists pairs,
    value (matchPromptsWithSamples config [capital_prompt; greet_prompt]
             samples_ start) = Ok pairs /\
    Forall (fun pr => name (prompt pr) = str "greet") pairs /\
    length pairs <= 1.
Proof.
  cbv zeta.
  apply (filter_selects_at_most_one_prompt _ _ _ start "g"%char (str "reet"));
    [reflexivity|].
  apply list.NoDup_cons. split.
  - intros H. apply list_elem_of_singleton in H. discriminate.
  - apply NoDup_singleton.
Defined.

(** X18.  Matching looks a collection up by the prompt's name and at
    nothing else: two sample maps that agree on the names of the prompts
    give the same pairs and the same warnings, so a collection that
    belongs to no prompt is ignored without a warning. *)
Theorem unrelated_sample_collections_are_ignored (config : RunnerConfig)
    (prompts : list PromptConfig) (s1 s2 : gmap jsstring SampleData)
    (w : World) :
  (forall p, p ∈ prompts -> s1 !! name p = s2 !! name p) ->
  matchPromptsWithSamples config prompts s1 w =
  matchPromptsWithSamples config prompts s2 w.
Proof.
  intros Hagree. rewrite !matchPromptsWithSamples_eq.
  induction prompts as [|p ps IH]; [done|].
  assert (Hp : s1 !! name p = s2 !! name p)
    by (apply Hagree, elem_of_cons; by left).
  assert (Hps : forall q, q ∈ ps -> s1 !! name q = s2 !! name q)
    by (intros q Hq; apply Hagree, elem_of_cons; by right).
  specialize (IH Hps). injection IH as IH1 IH2.
  assert (Hm : matched_pair (filter config) s1 p =
               matched_pair (filter config) s2 p)
    by (unfold matched_pair; by rewrite Hp).
  assert (Hw : missing_warning (filter config) s1 p =
               missing_warning (filter config) s2 p)
    by (unfold missing_warning; by rewrite Hp).
  rewrite !omap_cons. cbn [flat_map]. by rewrite Hm, Hw, IH1, IH2.
Qed.

Lemma unrelated_sample_collections_are_ignored_witness :
  let s1 : gmap jsstring SampleData :=
    <[str "capital" := {| prompt_name := None; test_cases := [case_peru] |}]> ∅ in
  let s2 : gmap jsstring SampleData :=
    <[str "orphan" := {| prompt_name := None; test_cases := [case_ann] |}]> s1 in
  matchPromptsWithSamples no_override [capital_prompt] s1 start =
  matchPromptsWithSamples no_override [capital_prompt] s2 start.
Proof.
  cbv zeta.
  apply unrelated_sample_collections_are_ignored.
  intros p Hp. apply list_elem_of_singleton in Hp as ->.
  symmetry. by apply lookup_insert_ne.
Defined.

(* ===================================================================== *)
(** * Reporters and command line: properties                              *)
(* ===================================================================== *)

Lemma count_passed_le (results : list TestResult) :
  count_passed results <= length results.
Proof. unfold count_passed. apply List.filter_length_le. Qed.

Lemma hasFailures_false (results : list TestResult) :
  hasFailures results = false <-> Forall (fun r => r_passed r = true) results.
Proof.
  unfold hasFailures. induction results as [|r rs IH]; cbn [existsb].
  - split; [constructor | done].
  - rewrite orb_false_iff, negb_false_iff, Forall_cons_iff, IH. tauto.
Qed.

Lemma count_passed_all (results : list TestResult) :
  count_passed results = length results <-> hasFailures results = false.
Proof.
  induction results as [|r rs IH]; [done|].
  pose proof (count_passed_le rs) as Hle.
  unfold count_passed, hasFailures in *. cbn [List.filter existsb length].
  destruct (r_passed r); cbn [negb orb length].
  - rewrite <- IH. lia.
  - split; [lia | done].
Qed.


Lemma json_summary_shape (now : jsstring) (results : list TestResult) :
  exists d,
    report (JsonReporter now) results = JsonDocument d /\
    (s_failed (summary d) = 0%Z <->
       Forall (fun r => r_passed r = true) results).
Proof.
  eexists. split; [reflexivity|]. cbn [summary s_failed].
  pose proof (count_passed_le results) as Hle.
  rewrite <- hasFailures_false, <- count_passed_all. lia.
Qed.


Lemma result_lines_no_verdict (r : TestResult) :
  ~ In AllPassedLine (result_lines r).
Proof.
  unfold result_lines. rewrite !in_app_iff. intros [H|[H|[H|H]]].
  - destruct H as [H|[H|[]]]; discriminate.
  - destruct (negb (r_passed r)); [|done].
    apply in_map_iff in H as (a & H & _). discriminate.
  - destruct (str_falsy (error r)); [done|].
    destruct H as [H|[]]; discriminate.
  - destruct H as [H|[]]; discriminate.
Qed.

(** The last line of the console report says that all tests passed exactly
    when none failed. *)
Lemma console_verdict (results : list TestResult) (lines : list ConsoleLine) :
  report ConsoleReporter results = ConsoleLines lines ->
  (AllPassedLine ∈ lines <-> hasFailures results = false).
Proof.
  intros [= <-]. rewrite list_elem_of_In, <- count_passed_all.
  cbn [In]. rewrite in_app_iff. cbn [In].
  split.
  - intros [H|[H|[H|[H|[]]]]].
    + discriminate.
    + apply in_flat_map in H as (r & _ & H). by apply result_lines_no_verdict in H.
    + discriminate.
    + destruct (count_passed results =? length results) eqn:E;
        [by apply Nat.eqb_eq in E | discriminate].
  - intros H. right; right; right. rewrite H, Nat.eqb_refl. by left.
Qed.

Lemma cli_action_eq (env : Env) (now : jsstring) (options : Options)
    (key : option jsstring) (w : World) :
  cli_action env now options key w =
  if str_falsy (str_first (o_apiKey options) key) then (1%Z, w, [KeyRequired])
  else
    match run env (runner_config options) w with
    | (Ok results, w', out) =>
        ((if hasFailures results then 1 else 0)%Z, w',
         map (print_event (reporter_for now options)) out)
    | (Throw error_, w', out) =>
        (1%Z, w',
         map (print_event (reporter_for now options)) out ++
         [CliError (thrown_message error_)])
    end.
Proof. reflexivity. Qed.

Lemma printed_reports (reporter : Reporter) (out : list Event)
    (x : ReportOutput) :
  FromReporter x ∈ map (print_event reporter) out <->
  exists rs, rs ∈ reports out /\ x = report reporter rs.
Proof.
  unfold reports. induction out as [|ev out IH].
  - split; [intros H; by apply elem_of_nil in H|].
    intros (rs & H & _). by apply elem_of_nil in H.
  - cbn [map]. rewrite omap_cons, elem_of_cons, IH.
    destruct ev; cbn [print_event];
      try (split; [intros [H|H]; [discriminate | done] | by right]).
    split.
    + intros [[= ->]|(rs & Hrs & ->)].
      * eexists. split; [apply elem_of_cons; by left | done].
      * exists rs. split; [apply elem_of_cons; by right | done].
    + intros (rs & Hrs & ->). apply elem_of_cons in Hrs as [->|Hrs].
      * by left.
      * right. by exists rs.
Qed.

(** X20.  The exit code of the command is 0 or 1, and it agrees with the
    report that was printed: with the JSON reporter the code is 0 exactly
    when the summary's [failed] is 0, with the console reporter exactly
    when the report says that all tests passed. *)
Theorem exit_code_agrees_with_the_report (env : Env) (now : jsstring)
    (options : Options) (key : option jsstring) (w : World) :
  let '(code, _, printed) := cli_action env now options key w in
  (code = 0 \/ code = 1)%Z /\
  forall x, FromReporter x ∈ printed ->
    match x with
    | JsonDocument d => (code = 0 <-> s_failed (summary d) = 0)%Z
    | ConsoleLines lines => (code = 0%Z <-> AllPassedLine ∈ lines)
    end.
Proof.
  rewrite cli_action_eq.
  destruct (str_falsy (str_first (o_apiKey options) key)).
  { split; [by right|]. intros x Hx.
    apply list_elem_of_singleton in Hx. discriminate. }
  pose proof (run_outcome_facts env (runner_config options) w) as H.
  destruct (run env (runner_config options) w) as [[[rs|e] w'] out].
  - split; [destruct (hasFailures rs); [by right | by left]|].
    intros x Hx. apply printed_reports in Hx as (rs' & Hrs' & ->).
    assert (rs' = rs) as ->.
    { destruct H as (_ & _ & [(Hrep & _)|(_ & Hrep & _)]); rewrite Hrep in Hrs'.
      - by apply list_elem_of_singleton in Hrs'.
      - by apply elem_of_nil in Hrs'. }
    unfold reporter_for.
    destruct (bool_decide (o_output options = str "json")).
    + destruct (json_summary_shape now rs) as (d & -> & Hd). rewrite Hd.
      rewrite <- hasFailures_false. destruct (hasFailures rs); split; done.
    + destruct (report ConsoleReporter rs) as [lines|d] eqn:E; [|discriminate].
      rewrite (console_verdict rs lines E).
      destruct (hasFailures rs); split; done.
  - split; [by right|]. intros x Hx.
    apply elem_of_app in Hx as [Hx|Hx].
    + apply printed_reports in Hx as (rs' & Hrs' & _).
      destruct H as (_ & Hrep & _). rewrite Hrep in Hrs'.
      by apply elem_of_nil in Hrs'.
    + apply list_elem_of_singleton in Hx. discriminate.
Qed.

Lemma forallb_false_In {A} (f : A -> bool) (l : list A) :
  forallb f l = false -> exists x, In x l /\ f x = false.
Proof.
  induction l as [|a l IH]; cbn [forallb]; [done|].
  destruct (f a) eqn:E.
  - intros H. destruct (IH H) as (x & Hx & Hf). exists x. split; [by right | done].
  - intros _. exists a. split; [by left | done].
Qed.

(** A failed result that is consistent with its case shows its reason on
    the console, unless its error message is the empty string. *)
Lemma result_lines_explain (tc : TestCase) (r : TestResult) :
  consistent_with tc r ->
  r_passed r = false ->
  error r <> Some [] ->
  exists line, In line (result_lines r) /\ explains line = true.
Proof.
  intros [_ Hcons] Hfail Hmsg. unfold result_lines.
  destruct (error r) as [[|c msg]|] eqn:E; [done| |].
  - exists (ErrorLine (c :: msg)). split; [|done].
    rewrite !in_app_iff. right; right; left. cbn. by left.
  - destruct Hcons as [_ Hp]. rewrite Hfail in Hp. symmetry in Hp.
    unfold allAssertionsPassed, every_passed in Hp. cbv zeta in Hp.
    rewrite Hfail. cbn [negb].
    assert (exists a, In a (failedAssertions r)) as [a Ha].
    { unfold failedAssertions. apply andb_false_iff in Hp as [Hp|Hp];
        apply forallb_false_In in Hp as (a & Ha & Hf); exists a;
        rewrite in_app_iff; [left|right];
        apply filter_In; by rewrite Hf. }
    exists (FailedAssertionLine (assertion a)). split; [|done].
    rewrite !in_app_iff. right; left. apply in_map_iff. by exists a.
Qed.

(** X21.  The console report gives a reason for every failed result of
    [executeTestPair]: a line for a failed assertion or the error line.
    The one exception is an error whose message is the empty string,
    which the reporter takes for no error. *)
Theorem console_report_explains_every_failure (env : Env)
    (config : RunnerConfig) (pr : Pair) (w : World) :
  exists rs,
    value (executeTestPair env config pr w) = Ok rs /\
    Forall (fun r =>
              r_passed r = false -> error r <> Some [] ->
              exists line, In line (result_lines r) /\ explains line = true)
           rs.
Proof.
  rewrite executeTestPair_eq.
  destruct (cases_outcome env config (prompt pr) (test_cases (samples pr)) w)
    as [[rs w'] out] eqn:E.
  exists rs. split; [done|].
  apply cases_outcome_facts in E as (_ & _ & _ & _ & Hcons & _).
  induction Hcons as [|tc r cases rs' H _ IH]; constructor; [|done].
  by apply result_lines_explain with tc.
Qed.

Lemma no_candidate_no_pair (f : option jsstring)
    (samples_ : gmap jsstring SampleData) (prompts : list PromptConfig) :
  Forall (fun p => passes_filter f p = false) prompts ->
  omap (matched_pair f samples_) prompts = [].
Proof.
  induction 1 as [|p ps Hp _ IH]; [done|].
  rewrite omap_cons. unfold matched_pair at 1. by rewrite Hp.
Qed.

(** X22.  When the directories can be listed but no valid prompt passes
    the filter (a filter that names no prompt, or prompt files that are
    all invalid), the command exits with code 0: the run only warns that
    no pairs were found, the service is not called and no report is
    printed. *)
Theorem no_candidate_prompt_exits_with_zero (env : Env) (now : jsstring)
    (options : Options) (key : option jsstring) (w : World)
    (entries sample_entries : list jsstring) :
  str_falsy (str_first (o_apiKey options) key) = false ->
  existsSync env (o_promptDir options) = true ->
  readdirSync env (o_promptDir options) = Ok entries ->
  List.filter is_yaml entries <> [] ->
  existsSync env (o_samplesDir options) = true ->
  readdirSync env (o_samplesDir options) = Ok sample_entries ->
  Forall (fun p => passes_filter (o_filter options) p = false)
    (omap (loaded_prompt env (runner_config options))
          (List.filter is_yaml entries)) ->
  exists printed,
    cli_action env now options key w =
      (0%Z, {| ticks := S (ticks w); calls := calls w |}, printed) /\
    (forall x, FromReporter x ∉ printed) /\
    FromRunner WarnNoPairs ∈ printed.
Proof.
  intros Hkey Hex Hdir Hyaml Hex' Hdir' Hnone.
  set (config := runner_config options) in *.
  change (o_promptDir options) with (promptDir config) in Hex, Hdir.
  change (o_samplesDir options) with (samplesDir config) in Hex', Hdir'.
  change (o_filter options) with (filter config) in Hnone.
  rewrite cli_action_eq, Hkey. fold config. rewrite run_eq. cbv zeta.
  rewrite loadPrompts_eq, Hex, Hdir.
  destruct (List.filter is_yaml entries) as [|file files] eqn:Ef; [done|].
  destruct (prompt_files_outcome_loaded env config (file :: files) [])
    as [Hp _].
  pose proof (prompt_files_outcome_loading env config (file :: files) [])
    as Hq1.
  destruct (prompt_files_outcome env config (file :: files) [])
    as [prompts o1].
  cbn [fst snd app] in Hp, Hq1. subst prompts.
  destruct (loadSamples_ok env config
              {| ticks := S (ticks w); calls := calls w |} sample_entries
              Hex' Hdir') as (samples_ & o2 & Hs & Hq2).
  rewrite Hs, matchPromptsWithSamples_eq.
  rewrite (no_candidate_no_pair _ samples_ _ Hnone).
  eexists. split; [reflexivity|]. split.
  - intros x Hx. apply printed_reports in Hx as (rs & Hrs & _).
    revert Hrs.
    match goal with |- rs ∈ reports (LogStarting :: ?l) -> _ =>
      change (reports (LogStarting :: l)) with (reports l) end.
    rewrite !reports_app, (reports_quiet o1 Hq1), (reports_quiet o2 Hq2),
      missing_warning_reports.
    cbn. intros H. by apply elem_of_nil in H.
  - apply list_elem_of_In, in_map_iff. exists WarnNoPairs. split; [done|].
    right. rewrite !in_app_iff. right; right; right. by left.
Qed.

Lemma no_candidate_prompt_exits_with_zero_witness :
  let options :=
    {| o_promptDir := str "prompts"; o_samplesDir := str "samples";
       o_model := None; o_output := str "json";
       o_filter := Some (str "capitol"); o_apiKey := None |} in
  exists printed,
    cli_action disk_env (str "2024-01-01T00:00:00.000Z") options
      (Some (str "sk-test")) start =
      (0%Z, {| ticks := 1; calls := 0 |}, printed) /\
    (forall x, FromReporter x ∉ printed) /\
    FromRunner WarnNoPairs ∈ printed.
Proof.
  cbv zeta.
  apply (no_candidate_prompt_exits_with_zero disk_env _ _ _ start
           [str "capital.yaml"; str "notes.txt"; str "broken.yaml"; str "greet.yml"]
           [str "capital_samples.json"; str "hello.json"]);
    try reflexivity; [discriminate|].
  vm_compute. by repeat constructor.
Defined.

(** X23.  When the prompt directory does not exist, the command writes
    the message of the error twice, once as the runner's fatal error and
    once as its own error line, and exits with code 1; the clock was read
    once and the service was not called. *)
Theorem missing_prompt_directory_is_reported_twice (env : Env) (now : jsstring)
    (options : Options) (key : option jsstring) (w : World) :
  str_falsy (str_first (o_apiKey options) key) = false ->
  existsSync env (o_promptDir options) = false ->
  cli_action env now options key w =
    (1%Z, {| ticks := S (ticks w); calls := calls w |},
     [FromRunner LogStarting;
      FromRunner (ErrorFatal (str "Prompts directory not found: "
                              ++ o_promptDir options));
      CliError (str "Prompts directory not found: " ++ o_promptDir options)]).
Proof.
  intros Hkey Hex. rewrite cli_action_eq, Hkey, run_eq. cbv zeta.
  rewrite loadPrompts_eq. cbn [runner_config promptDir]. by rewrite Hex.
Qed.

Lemma missing_prompt_directory_is_reported_twice_witness :
  cli_action echo_env [] default_options None start =
    (1%Z, {| ticks := 1; calls := 0 |},
     [FromRunner LogStarting;
      FromRunner (ErrorFatal (str "Prompts directory not found: " ++ str "prompts"));
      CliError (str "Prompts directory not found: " ++ str "prompts")]).
Proof.
  exact (missing_prompt_directory_is_reported_twice echo_env [] default_options
           None start eq_refl eq_refl).
Defined.

Lemma consistent_passed_has_no_error (tc : TestCase) (r : TestResult) :
  consistent_with tc r -> r_passed r = true -> error r = None.
Proof.
  intros [_ H] Hp. destruct (error r); [|done].
  destruct H as [Hf _]. congruence.
Qed.

(** X24.  The command exits with code 0 only if an API key was given, the
    run returned, and every result it returned passed and records no
    error. *)
Theorem exit_zero_means_all_passed (env : Env) (now : jsstring)
    (options : Options) (key : option jsstring) (w : World) :
  (cli_action env now options key w).1.1 = 0%Z ->
  str_falsy (str_first (o_apiKey options) key) = false /\
  exists rs,
    value (run env (runner_config options) w) = Ok rs /\
    Forall (fun r => r_passed r = true /\ error r = None) rs.
Proof.
  rewrite cli_action_eq.
  destruct (str_falsy (str_first (o_apiKey options) key)); [done|].
  pose proof (run_outcome_facts env (runner_config options) w) as H.
  destruct (run env (runner_config options) w) as [[[rs|e] w'] out]; [|done].
  cbn [fst]. intros Hcode. split; [done|]. exists rs. split; [done|].
  destruct (hasFailures rs) eqn:Ef; [done|].
  apply hasFailures_false in Ef. destruct H as (_ & Hcons & _).
  apply Forall_forall. intros r Hr.
  rewrite Forall_forall in Ef, Hcons.
  destruct (Hcons r Hr) as [tc Htc]. split; [by apply Ef|].
  apply (consistent_passed_has_no_error tc); [done | by apply Ef].
Qed.

Lemma exit_zero_means_all_passed_witness :
  str_falsy (str_first (o_apiKey default_options) None) = false /\
  exists rs,
    value (run disk_env (runner_config default_options) start) = Ok rs /\
    Forall (fun r => r_passed r = true /\ error r = None) rs.
Proof.
  apply (exit_zero_means_all_passed disk_env [] default_options None start).
  vm_compute. reflexivity.
Defined.

Lemma summed_measured (env : Env) (w : World) (n : nat) :
  (forall a b, a <= b -> (date_now env a <= date_now env b)%Z) ->
  forall k : nat,
    (0 <= fold_right Z.add 0 (map (measured env w) (seq k n))
       <= date_now env (ticks w + 2 * (k + n)) - date_now env (ticks w + 2 * k))%Z.
Proof.
  intros Hmono. induction n as [|n IH]; intros k.
  - cbn [seq map fold_right]. rewrite Nat.add_0_r. lia.
  - cbn [seq map fold_right]. specialize (IH (S k)).
    replace (k + S n) with (S k + n) by lia.
    unfold measured at 1 3.
    pose proof (Hmono (ticks w + 2 * k) (ticks w + 2 * k + 1)).
    pose proof (Hmono (ticks w + 2 * k + 1) (ticks w + 2 * S k)).
    lia.
Qed.

(** X25.  With a clock that never goes backwards, the sum of the times
    of the results (the total of the JSON summary) is not negative and
    never exceeds the total time that the run writes after the report. *)
Theorem summed_case_time_is_within_total_time (env : Env)
    (config : RunnerConfig) (w : World) :
  (forall a b, a <= b -> (date_now env a <= date_now env b)%Z) ->
  match run env config w with
  | (Ok rs, _, out) =>
      (0 <= summed_time rs)%Z /\
      (rs = [] \/
       exists before ms,
         out = before ++ [Reported rs; LogTotalTime ms] /\
         (summed_time rs <= ms)%Z)
  | (Throw _, _, _) => True
  end.
Proof.
  intros Hmono. pose proof (run_outcome_facts env config w) as H.
  destruct (run env config w) as [[[rs|e] w'] out]; [|done].
  destruct H as (_ & _ & [(_ & _ & Htimes & n & before & -> & _)
                         |(-> & _)]).
  - unfold summed_time. rewrite Htimes.
    pose proof (summed_measured env {| ticks := S (ticks w); calls := calls w |}
                  (length rs) Hmono 0) as Hsum.
    cbn [ticks] in Hsum.
    split; [lia|]. right. eexists _, _. split; [reflexivity|].
    pose proof (Hmono (ticks w) (S (ticks w) + 2 * 0)).
    pose proof (Hmono (S (ticks w) + 2 * (0 + length rs))
                  (ticks w + 2 * length rs + 1)).
    lia.
  - split; [done | by left].
Qed.

Lemma summed_case_time_is_within_total_time_witness :
  (forall a b, a <= b -> (date_now disk_env a <= date_now disk_env b)%Z) /\
  match run disk_env no_override start with
  | (Ok rs, _, out) =>
      (0 <= summed_time rs)%Z /\
      (rs = [] \/
       exists before ms,
         out = before ++ [Reported rs; LogTotalTime ms] /\
         (summed_time rs <= ms)%Z)
  | (Throw _, _, _) => True
  end.
Proof.
  assert (H : forall a b, a <= b ->
                (date_now disk_env a <= date_now disk_env b)%Z)
    by (intros a b Hab; cbn; lia).
  split; [exact H|].
  exact (summed_case_time_is_within_total_time disk_env no_override start H).
Defined.

Lemma replace_first_eq (pat rep before s : jsstring) :
  replace_first pat rep before s =
  if startsWith s pat then
    GetSubstitution pat before (drop (length pat) s) rep ++ drop (length pat) s
  else
    match s with
    | [] => []
    | c :: s' => c :: replace_first pat rep (before ++ [c]) s'
    end.
Proof. by destruct s. Qed.

(** A pattern whose first character does not come back in it cannot start
    inside [a] and run into a following copy of itself. *)
Lemma no_straddling_occurrence (p0 : ascii) (prest a b : jsstring) :
  p0 ∉ prest -> a <> [] -> ~ occurs (p0 :: prest) a ->
  startsWith (a ++ (p0 :: prest) ++ b) (p0 :: prest) = false.
Proof.
  intros Hp0 Ha Hocc. apply not_true_is_false. intros H.
  apply startsWith_spec in H as [post H].
  destruct (decide (length (p0 :: prest) <= length a)) as [Hle|Hgt].
  - apply Hocc. exists [], (drop (length (p0 :: prest)) a). cbn [app].
    apply (f_equal (take (length (p0 :: prest)))) in H.
    rewrite take_app_le in H by done.
    rewrite take_app_length in H.
    change (p0 :: prest ++ ?x) with ((p0 :: prest) ++ x).
    rewrite <- H at 1. by rewrite take_drop.
  - apply (f_equal (fun l => l !! length a)) in H.
    rewrite lookup_app_r in H by lia.
    replace (length a - length a) with 0 in H by lia.
    destruct a as [|c a]; [done|]. cbn [length] in H, Hgt.
    change ((p0 :: prest) ++ post) with (p0 :: (prest ++ post)) in H.
    change ((p0 :: prest) ++ b) with (p0 :: (prest ++ b)) in H.
    cbn [lookup list_lookup] in H. symmetry in H.
    change ((prest ++ post) !! length a = Some p0) in H.
    rewrite lookup_app_l in H by lia.
    apply Hp0. by apply list_elem_of_lookup_2 in H.
Qed.

Lemma replace_first_drops (p0 : ascii) (prest a b : jsstring) :
  p0 ∉ prest -> ~ occurs (p0 :: prest) a ->
  forall before : jsstring,
    replace_first (p0 :: prest) [] before (a ++ (p0 :: prest) ++ b) = a ++ b.
Proof.
  intros Hp0. induction a as [|c a IH]; intros Hocc before.
  - rewrite replace_first_eq. cbn [app].
    change (p0 :: prest ++ b) with ((p0 :: prest) ++ b).
    rewrite startsWith_app. cbn [GetSubstitution app].
    apply (drop_app_length (p0 :: prest) b).
  - rewrite replace_first_eq, no_straddling_occurrence by done.
    cbn [app]. f_equal. apply IH.
    intros (pre & post & ->). apply Hocc. by exists (c :: pre), post.
Qed.

Lemma replace_first_absent (pat rep s : jsstring) :
  ~ occurs pat s ->
  forall before : jsstring, replace_first pat rep before s = s.
Proof.
  induction s as [|c s IH]; intros Hocc before; rewrite replace_first_eq.
  - destruct (startsWith [] pat) eqn:E; [|done].
    exfalso. apply Hocc. apply startsWith_spec in E as [post E].
    by exists [], post.
  - destruct (startsWith (c :: s) pat) eqn:E.
    + exfalso. apply Hocc. apply startsWith_spec in E as [post E].
      by exists [], post.
    + f_equal. apply IH. intros (pre & post & ->). apply Hocc.
      by exists (c :: pre), post.
Qed.

(** X26.  For a sample file that is a bare array, the name under which
    it is stored is the file's base name with the first [_samples]
    removed, wherever it stands and whatever follows it; a base name
    without [_samples] is used as it is. *)
Theorem sample_name_drops_the_first_marker (env : Env) (config : RunnerConfig)
    (samplesMap : gmap jsstring SampleData) (file : jsstring)
    (cases : list TestCase) :
  read_json env (path_join env (samplesDir config) file) = Ok (JArray cases) ->
  (forall a b,
      path_basename env file (str ".json") = a ++ str "_samples" ++ b ->
      ~ occurs (str "_samples") a ->
      with_sample_file env config samplesMap file =
        <[a ++ b := {| prompt_name := None; test_cases := cases |}]> samplesMap) /\
  (~ occurs (str "_samples") (path_basename env file (str ".json")) ->
   with_sample_file env config samplesMap file =
     <[path_basename env file (str ".json") :=
         {| prompt_name := None; test_cases := cases |}]> samplesMap).
Proof.
  intros Hread. unfold with_sample_file, sample_entry. rewrite Hread.
  cbn [prompt_name str_or]. split.
  - intros a b -> Hocc.
    change (str "_samples") with ("_"%char :: str "samples").
    rewrite replace_first_drops; [done| |done].
    intros Hin. vm_compute in Hin.
    repeat (apply elem_of_cons in Hin as [Hin|Hin]; [discriminate|]).
    by apply elem_of_nil in Hin.
  - intros Hocc. by rewrite replace_first_absent.
Qed.

Lemma sample_name_drops_the_first_marker_witness :
  (forall a b,
      path_basename disk_env (str "capital_samples.json") (str ".json")
        = a ++ str "_samples" ++ b ->
      ~ occurs (str "_samples") a ->
      with_sample_file disk_env no_override ∅ (str "capital_samples.json") =
        <[a ++ b := {| prompt_name := None;
                       test_cases := [case_france; case_spain] |}]> ∅) /\
  (~ occurs (str "_samples")
       (path_basename disk_env (str "capital_samples.json") (str ".json")) ->
   with_sample_file disk_env no_override ∅ (str "capital_samples.json") =
     <[path_basename disk_env (str "capital_samples.json") (str ".json") :=
         {| prompt_name := None;
            test_cases := [case_france; case_spain] |}]> ∅).
Proof.
  exact (sample_name_drops_the_first_marker disk_env no_override ∅
           (str "capital_samples.json") [case_france; case_spain] eq_refl).
Defined.
